(** * Script classification, admin-operation validation and the full-block
      test generator of prova, embedded shallowly.

    Part I embeds [txscript/standard.go]; Part II embeds
    [blockchain/fullblocktests/generate.go]; Part III holds the lemmas and
    theorems about both. *)

From stdpp Require Import base numbers option list gmap strings pretty.

Local Open Scope Z_scope.

(** Go's unsigned 32-bit wrap-around. *)
Definition u32 (x : Z) : Z := x mod 2 ^ 32.

(** A loop run from state [s]: [step] is one turn, which either goes on
    with a new state or stops with a result; at most [2 ^ d] turns are
    run, and [inl] is a loop that has not stopped by then. *)
Fixpoint loopUpTo {St R : Type} (d : nat) (step : St -> St + R) (s : St)
  : St + R :=
  match d with
  | O => step s
  | S d' =>
      match loopUpTo d' step s with
      | inl s' => loopUpTo d' step s'
      | inr r => inr r
      end
  end.

(* ===================================================================== *)
(** * Package wire: the message types both parts read                     *)
(* ===================================================================== *)

Module Wire.

(** A [chainhash.Hash], 32 bytes, held as the number they spell. *)
Definition Hash := Z.

Record OutPoint := mkOutPoint { OutHash : Hash; Index : Z }.

Record TxIn := mkTxIn {
  PreviousOutPoint : OutPoint;
  SignatureScript : list Z;
  Sequence : Z
}.

Record TxOut := mkTxOut { Value : Z; PkScript : list Z }.

Record MsgTx := mkMsgTx { TxIns : list TxIn; TxOuts : list TxOut }.

(** The block header; [Signature] stands for the fields that
    [BlockHeader.Sign] fills in. *)
Record BlockHeader := mkBlockHeader {
  Version : Z;
  PrevBlock : Hash;
  MerkleRoot : Hash;
  Timestamp : Z;
  Bits : Z;
  Height : Z;
  Size : Z;
  Nonce : Z;
  Signature : list Z
}.

Record MsgBlock := mkMsgBlock {
  Header : BlockHeader;
  Transactions : list MsgTx
}.

#[global] Instance TxOut_inhabited : Inhabited TxOut :=
  populate (mkTxOut 0 []).
#[global] Instance MsgTx_inhabited : Inhabited MsgTx :=
  populate (mkMsgTx [] []).

End Wire.

(* ===================================================================== *)
(** * Part I: txscript/standard.go                                        *)
(* ===================================================================== *)

Module Txscript.
Import Wire.

(** An [opcode] carries its byte [value] (the name, length and handler
    fields of the Go struct play no part in classification). *)
Record opcode := mkOpcode { value : Z }.

(** A parsed operation: the opcode and the data it pushes ([data] is the
    empty list for an operation that pushes nothing). *)
Record parsedOpcode := mkParsedOpcode { pop_opcode : opcode; data : list Z }.

#[global] Instance opcode_inhabited : Inhabited opcode :=
  populate (mkOpcode 0).
#[global] Instance parsedOpcode_inhabited : Inhabited parsedOpcode :=
  populate (mkParsedOpcode inhabitant []).

(** Go's [len], as an [int]. *)
Definition len {A} (l : list A) : Z := Z.of_nat (length l).

(** Go's slice expression [l[lo:hi]]. *)
Definition slice {A} (l : list A) (lo hi : Z) : list A :=
  take (Z.to_nat (hi - lo)) (drop (Z.to_nat lo) l).

(** Go's index expression [l[i]]; every use below is guarded by a length
    test, as in the source. *)
Definition at_ {A} `{Inhabited A} (l : list A) (i : Z) : A :=
  l !!! Z.to_nat i.

(** ScriptClass, the enumeration of standard script types. *)
Inductive ScriptClass :=
| NonStandardTy
| PubKeyTy
| PubKeyHashTy
| ScriptHashTy
| MultiSigTy
| NullDataTy
| AztecTy
| GeneralAztecTy
| AztecAdminTy.

#[global] Instance ScriptClass_eq_dec : EqDecision ScriptClass.
Proof. solve_decision. Defined.

Definition MaxDataCarrierSize : Z := 80.

(** Modelled from the spec: the thread identifiers of [rmgutil] (the
    package is not among the sources), "Root=0, Provision=1, Issue=2";
    [ThreadID] is an integer type. *)
Definition ThreadID := Z.
Definition RootThread : ThreadID := 0.
Definition ProvisionThread : ThreadID := 1.
Definition IssueThread : ThreadID := 2.

(** Modelled from the spec: the sizes of [btcec] (not among the sources),
    "33-byte compressed public key" and "4-byte KeyID". *)
Definition PubKeyBytesLenCompressed : Z := 33.
Definition KeyIDSize : Z := 4.

(** The parts of package [txscript] that [standard.go] uses and that are
    declared in other files of the package (the opcode table of
    [opcode.go], the helpers of [script.go]): they are taken as
    parameters, so that everything proved below holds whatever they are.
    A Go [(v, error)] result is an [option]. *)
Class ScriptEnv := {
  OP_2 : Z;
  OP_3 : Z;
  OP_RETURN : Z;
  OP_PUSHDATA4 : Z;
  OP_DATA_34 : Z;
  OP_DATA_38 : Z;
  OP_CHECKSAFEMULTISIG : Z;
  OP_CHECKTHREAD : Z;
  OP_PROVISIONINGKEYADD : Z;
  OP_PROVISIONINGKEYREVOKE : Z;
  OP_ISSUINGKEYADD : Z;
  OP_ISSUINGKEYREVOKE : Z;
  OP_VALIDATEKEYADD : Z;
  OP_VALIDATEKEYREVOKE : Z;
  OP_WSPKEYADD : Z;
  OP_WSPKEYREVOKE : Z;
  isSmallInt : opcode -> bool;
  asSmallInt : opcode -> Z;
  isUint32 : opcode -> bool;
  asInt32 : parsedOpcode -> option Z;
  ParseScript : list Z -> option (list parsedOpcode);
  ExtractThreadID : list parsedOpcode -> option ThreadID;
  PublicKey : Type;
  ParsePubKey : list Z -> option PublicKey
}.

Section Standard.
Context {E : ScriptEnv}.

(** The state of the loop of [isGeneralAztec]: the two counters and the
    map of key ids seen so far. *)
Record keyScan := mkKeyScan {
  nKeyIDs : Z;
  nKeyHashes : Z;
  seenKeyIDs : gmap Z bool
}.

(** One iteration of the loop over [pops[1 : sLen-2]]; [None] is the
    [return false] inside the loop. *)
Definition scanKey (st : keyScan) (pop : parsedOpcode) : option keyScan :=
  let dataLen := len (data pop) in
  if dataLen =? 20 then
    if 0 <? nKeyIDs st then None
    else Some (mkKeyScan (nKeyIDs st) (nKeyHashes st + 1) (seenKeyIDs st))
  else if isUint32 (pop_opcode pop) then
    match asInt32 pop with
    | None => None
    | Some keyID =>
        match seenKeyIDs st !! keyID with
        | Some _ => None
        | None =>
            Some (mkKeyScan (nKeyIDs st + 1) (nKeyHashes st)
                            (<[keyID := true]> (seenKeyIDs st)))
        end
    end
  else Some st.

Fixpoint scanKeys (st : keyScan) (pops : list parsedOpcode) : option keyScan :=
  match pops with
  | [] => Some st
  | pop :: rest =>
      match scanKey st pop with
      | None => None
      | Some st' => scanKeys st' rest
      end
  end.

(** isGeneralAztec returns true if the passed script is an Aztec script
    (generalized m-of-n). *)
Definition isGeneralAztec (pops : list parsedOpcode) : bool :=
  let sLen := len pops in
  if sLen <? 6 then false
  else if negb (isSmallInt (pop_opcode (at_ pops 0))) then false
  else if negb (isSmallInt (pop_opcode (at_ pops (sLen - 2)))) then false
  else if negb (value (pop_opcode (at_ pops (sLen - 1))) =? OP_CHECKSAFEMULTISIG)
  then false
  else
    let nSigs := asSmallInt (pop_opcode (at_ pops 0)) in
    let nKeys := asSmallInt (pop_opcode (at_ pops (sLen - 2))) in
    if nSigs <? 2 then false
    else if negb (sLen - 2 - 1 =? nKeys) then false
    else
      match scanKeys (mkKeyScan 0 0 ∅) (slice pops 1 (sLen - 2)) with
      | None => false
      | Some st =>
          if nKeyHashes st >=? nSigs then false
          else if nKeyIDs st <? nSigs then false
          else true
      end.

(** isAztec returns true if the passed script is a 2 of 3 aztec
    transaction. *)
Definition isAztec (pops : list parsedOpcode) : bool :=
  (len pops =? 6) &&
  (value (pop_opcode (at_ pops 0)) =? OP_2) &&
  (value (pop_opcode (at_ pops 4)) =? OP_3) &&
  isGeneralAztec pops.

(** isAztecAdmin returns true if the passed script is admin thread
    script. *)
Definition isAztecAdmin (pops : list parsedOpcode) : bool :=
  let sLen := len pops in
  if negb (sLen =? 2) then false
  else if negb (value (pop_opcode (at_ pops (sLen - 1))) =? OP_CHECKTHREAD)
  then false
  else
    let threadID : ThreadID := asSmallInt (pop_opcode (at_ pops 0)) in
    if (threadID <? RootThread) || (threadID >? IssueThread) then false
    else true.

(** isNullData returns true if the passed script is a null data
    transaction. *)
Definition isNullData (pops : list parsedOpcode) : bool :=
  let l := len pops in
  if (l =? 1) && (value (pop_opcode (at_ pops 0)) =? OP_RETURN) then true
  else
    (l =? 2) &&
    (value (pop_opcode (at_ pops 0)) =? OP_RETURN) &&
    (value (pop_opcode (at_ pops 1)) <=? OP_PUSHDATA4) &&
    (len (data (at_ pops 1)) <=? MaxDataCarrierSize).

(** typeOfScript returns the type of the script being inspected from the
    known standard types. *)
Definition typeOfScript (pops : list parsedOpcode) : ScriptClass :=
  if isNullData pops then NullDataTy
  else if isAztec pops then AztecTy
  else if isGeneralAztec pops then GeneralAztecTy
  else if isAztecAdmin pops then AztecAdminTy
  else NonStandardTy.

Definition TypeOfScript (pops : list parsedOpcode) : ScriptClass :=
  typeOfScript pops.

(** GetScriptClass returns the class of the script passed;
    [NonStandardTy] when the script does not parse. *)
Definition GetScriptClass (script : list Z) : ScriptClass :=
  match ParseScript script with
  | None => NonStandardTy
  | Some pops => typeOfScript pops
  end.

(** The two WSP operations, the only ones that carry a KeyID. *)
Definition isWspOp (op : Z) : bool :=
  (op =? OP_WSPKEYADD) || (op =? OP_WSPKEYREVOKE).

(** The eight admin operations. *)
Definition isAdminOp (op : Z) : bool :=
  (op =? OP_PROVISIONINGKEYADD) || (op =? OP_PROVISIONINGKEYREVOKE)
  || (op =? OP_ISSUINGKEYADD) || (op =? OP_ISSUINGKEYREVOKE)
  || (op =? OP_VALIDATEKEYADD) || (op =? OP_VALIDATEKEYREVOKE)
  || (op =? OP_WSPKEYADD) || (op =? OP_WSPKEYREVOKE).

(** Modelled from the spec: [ExtractAdminData] of package [txscript] (its
    file is not among the sources).  "requires class AdminOp; decodes
    opcode byte and key material; length 34 ⇒ no KeyID, length 38 ⇒ KeyID
    present (only WSP opcodes may use length 38; mismatched length/opcode
    combination is an error)".  The script is a return-marker and one
    push; the payload is the data of the push, its first byte the
    operation (one of the eight), the next 33 bytes the compressed public
    key. *)
Definition ExtractAdminData (pops : list parsedOpcode)
  : option (Z * PublicKey) :=
  match pops with
  | [p0; p1] =>
      match data p1 with
      | [] => None
      | op :: rest =>
          let n := len (data p1) in
          if negb (value (pop_opcode p0) =? OP_RETURN) then None
          else if negb (isAdminOp op) then None
          else if ((n =? 1 + PubKeyBytesLenCompressed) && negb (isWspOp op))
                  || ((n =? 1 + PubKeyBytesLenCompressed + KeyIDSize)
                      && isWspOp op)
          then
            match ParsePubKey (take (Z.to_nat PubKeyBytesLenCompressed) rest) with
            | Some key => Some (op, key)
            | None => None
            end
          else None
      end
  | _ => None
  end.

(** IsValidAdminOp returns true if the passed script is a valid admin
    operation at the given thread. *)
Definition IsValidAdminOp (pops : list parsedOpcode) (threadID : ThreadID)
  : bool :=
  if negb (len pops =? 2) then false
  else if negb (value (pop_opcode (at_ pops 0)) =? OP_RETURN) then false
  else if negb (value (pop_opcode (at_ pops 1)) =? OP_DATA_34) &&
          negb (value (pop_opcode (at_ pops 1)) =? OP_DATA_38) then false
  else
    match ExtractAdminData pops with
    | None => false
    | Some (op, _) =>
        if threadID =? RootThread then
          if (op =? OP_PROVISIONINGKEYADD) || (op =? OP_PROVISIONINGKEYREVOKE)
             || (op =? OP_ISSUINGKEYADD) || (op =? OP_ISSUINGKEYREVOKE)
          then true
          else false
        else if threadID =? ProvisionThread then
          if (op =? OP_VALIDATEKEYADD) || (op =? OP_VALIDATEKEYREVOKE)
          then true
          else if (op =? OP_WSPKEYADD) || (op =? OP_WSPKEYREVOKE) then
            if len (data (at_ pops 1))
               =? 1 + PubKeyBytesLenCompressed + KeyIDSize
            then true
            else false
          else false
        else if threadID =? IssueThread then false
        else false
    end.

(** The loop of [GetAdminDetails] over [TxOut[1:]]: [None] is the
    [return -1, nil] inside the loop. *)
Fixpoint parseOutputs (outs : list TxOut) : option (list (list parsedOpcode)) :=
  match outs with
  | [] => Some []
  | o :: rest =>
      match ParseScript (PkScript o) with
      | None => None
      | Some pops =>
          match parseOutputs rest with
          | None => None
          | Some more => Some (pops :: more)
          end
      end
  end.

(** GetAdminDetails will read threadID and admin outputs from an admin
    transaction.  The second component is [None] for Go's [nil] slice and
    [Some l] for an allocated slice (possibly of length 0). *)
Definition GetAdminDetails (tx : MsgTx)
  : Z * option (list (list parsedOpcode)) :=
  if len (TxOuts tx) <? 1 then (-1, None)
  else
    match ParseScript (PkScript (at_ (TxOuts tx) 0)) with
    | None => (-1, None)
    | Some pops =>
        if negb (bool_decide (TypeOfScript pops = AztecAdminTy)) then (-1, None)
        else
          match ExtractThreadID pops with
          | None => (-1, None)
          | Some threadID =>
              match parseOutputs (drop 1 (TxOuts tx)) with
              | None => (-1, None)
              | Some adminOutputs => (threadID, Some adminOutputs)
              end
          end
    end.

(** The mapping of the spec from a thread to the operations legal on it:
    "Root → {Provision*,Issue*}; Provision → {Validate*, Wsp*}; Issue →
    none currently defined". *)
Definition isLegalForThread (op : Z) (thread : ThreadID) : bool :=
  if thread =? RootThread then
    (op =? OP_PROVISIONINGKEYADD) || (op =? OP_PROVISIONINGKEYREVOKE)
    || (op =? OP_ISSUINGKEYADD) || (op =? OP_ISSUINGKEYREVOKE)
  else if thread =? ProvisionThread then
    (op =? OP_VALIDATEKEYADD) || (op =? OP_VALIDATEKEYREVOKE)
    || (op =? OP_WSPKEYADD) || (op =? OP_WSPKEYREVOKE)
  else false.

(** The shape the spec gives for class AdminOp: "exactly 2 operations: a
    return-marker then a single push whose length is either 34 or 38
    bytes". *)
Definition adminOpShape (pops : list parsedOpcode) : Prop :=
  exists p0 p1,
    pops = [p0; p1] /\
    value (pop_opcode p0) = OP_RETURN /\
    (len (data p1) = 34 \/ len (data p1) = 38).

(** The shape [isAztecAdmin] tests: the thread script
    [<threadID> OP_CHECKTHREAD]. *)
Definition threadScriptShape (pops : list parsedOpcode) : Prop :=
  exists p0 p1,
    pops = [p0; p1] /\
    value (pop_opcode p1) = OP_CHECKTHREAD /\
    RootThread <= asSmallInt (pop_opcode p0) <= IssueThread.

(** The operations between the two counts of a multi-signature script. *)
Definition keyOps (pops : list parsedOpcode) : list parsedOpcode :=
  slice pops 1 (len pops - 2).

(** A push of a 20-byte hash, and a push the helpers read as a KeyID. *)
Definition isHashPush (pop : parsedOpcode) : bool := len (data pop) =? 20.
Definition isKeyIDPush (pop : parsedOpcode) : bool :=
  negb (isHashPush pop) && isUint32 (pop_opcode pop) &&
  bool_decide (is_Some (asInt32 pop)).

(** The operations the loop of [isGeneralAztec] looks at: those with 20
    bytes of data and those whose opcode [isUint32] accepts. *)
Definition isScanned (pop : parsedOpcode) : bool :=
  isHashPush pop || isUint32 (pop_opcode pop).

(** The conditions on the first, the last and the second-to-last
    operation of a generalized m-of-n script. *)
Definition multisigFrame (pops : list parsedOpcode) : Prop :=
  6 <= len pops /\
  isSmallInt (pop_opcode (at_ pops 0)) = true /\
  2 <= asSmallInt (pop_opcode (at_ pops 0)) /\
  value (pop_opcode (at_ pops (len pops - 1))) = OP_CHECKSAFEMULTISIG /\
  isSmallInt (pop_opcode (at_ pops (len pops - 2))) = true /\
  asSmallInt (pop_opcode (at_ pops (len pops - 2))) = len (keyOps pops).

(** [l] is hash pushes followed by KeyID pushes, the KeyIDs pairwise
    distinct, fewer hashes than [nSigs] and at least [nSigs] KeyIDs. *)
Definition hashesThenKeyIDs (nSigs : Z) (l : list parsedOpcode) : Prop :=
  exists hashes keys,
    l = hashes ++ keys /\
    Forall (fun pop => isHashPush pop = true) hashes /\
    Forall (fun pop => isKeyIDPush pop = true) keys /\
    NoDup (omap asInt32 keys) /\
    len hashes < nSigs /\
    nSigs <= len keys.

(** The shape the spec gives for class GeneralAdminAuth: every operation
    between the counts is a hash push or a KeyID push. *)
Definition generalAdminAuthShape (pops : list parsedOpcode) : Prop :=
  multisigFrame pops /\
  hashesThenKeyIDs (asSmallInt (pop_opcode (at_ pops 0))) (keyOps pops).

(** The shape [isGeneralAztec] tests: the same, on the operations its
    loop looks at. *)
Definition generalAztecShape (pops : list parsedOpcode) : Prop :=
  multisigFrame pops /\
  hashesThenKeyIDs (asSmallInt (pop_opcode (at_ pops 0)))
                   (filter (fun pop => isScanned pop = true) (keyOps pops)).

End Standard.

End Txscript.

(* ===================================================================== *)
(** * Part I, continued: the functions of standard.go that analyse a
      classified script                                                   *)
(* ===================================================================== *)

Module TxscriptInfo.
Import Wire Txscript.

(** The byte of a script class, by the [iota] numbering of the constant
    block. *)
Definition classByte (c : ScriptClass) : Z :=
  match c with
  | NonStandardTy => 0
  | PubKeyTy => 1
  | PubKeyHashTy => 2
  | ScriptHashTy => 3
  | MultiSigTy => 4
  | NullDataTy => 5
  | AztecTy => 6
  | GeneralAztecTy => 7
  | AztecAdminTy => 8
  end.

(** scriptClassToName houses the human-readable strings which describe
    each script class. *)
Definition scriptClassToName : list string :=
  [ "nonstandard"; "pubkey"; "pubkeyhash"; "scripthash"; "multisig";
    "nulldata"; "aztec"; "aztec"; "aztecadmin" ].

(** The method [String] of [ScriptClass], on the byte [t] of the class
    (a [ScriptClass] is a byte, so [t] may be any of 0..255); [None] is
    the run-time panic of the index expression [scriptClassToName[t]]. *)
Definition ScriptClass_String (t : Z) : option string :=
  if (t >? len scriptClassToName) || (t <? 0) then Some "Invalid"
  else scriptClassToName !! Z.to_nat t.

(** The errors the functions below return: the error of [ParseScript] on
    a script, and two of the package's error values. *)
Inductive ScriptError :=
| ErrParse (script : list Z)
| ErrStackNonPushOnly
| ErrStackUnderflow.

(** How a call ends: with a value, with an error, or in a run-time
    panic (an index out of range). *)
Inductive Res (A : Type) :=
| Ok (a : A)
| Err (e : ScriptError)
| Panics.
Arguments Ok {A} a.
Arguments Err {A} e.
Arguments Panics {A}.

(** What these functions call in files of the package and in packages
    that are not among the sources: [isPushOnly] and [getSigOpCount] of
    [script.go], the address constructor of [rmgutil] and the chain
    parameters it is handed.  They are parameters. *)
Class InfoEnv := {
  isPushOnly : list parsedOpcode -> bool;
  getSigOpCount : list parsedOpcode -> bool -> Z;
  Address : Type;
  ChainParams : Type;
  NewAddressAztec : list Z -> list Z -> ChainParams -> option Address
}.

(** ScriptInfo houses information about a script pair that is determined
    by CalcScriptInfo. *)
Record ScriptInfo := mkScriptInfo {
  PkScriptClass : ScriptClass;
  NumInputs : Z;
  ExpectedInputs : Z;
  SigOps : Z
}.

Section Analysis.
Context {E : ScriptEnv} {I : InfoEnv}.

(** expectedInputs returns the number of arguments required by a script,
    -1 when it can not be determined; [None] is the panic of [pops[0]] on
    an empty script. *)
Definition expectedInputs (pops : list parsedOpcode) (class : ScriptClass)
  : option Z :=
  match class with
  | AztecTy | GeneralAztecTy =>
      match pops !! 0%nat with
      | Some pop => Some (asSmallInt (pop_opcode pop) * 2)
      | None => None
      end
  | AztecAdminTy => Some 4
  | _ => Some (-1)
  end.

(** CalcScriptInfo returns a structure providing data about the provided
    script pair. *)
Definition CalcScriptInfo (sigScript pkScript : list Z) (bip16 : bool)
  : Res ScriptInfo :=
  match ParseScript sigScript with
  | None => Err (ErrParse sigScript)
  | Some sigPops =>
      match ParseScript pkScript with
      | None => Err (ErrParse pkScript)
      | Some pkPops =>
          let class := typeOfScript pkPops in
          if negb (isPushOnly sigPops) then Err ErrStackNonPushOnly
          else
            match expectedInputs pkPops class with
            | None => Panics
            | Some expected =>
                let numInputs := len sigPops in
                if bool_decide (class = ScriptHashTy) && bip16 then
                  match last sigPops with
                  | None => Panics
                  | Some lastPop =>
                      let script := data lastPop in
                      match ParseScript script with
                      | None => Err (ErrParse script)
                      | Some shPops =>
                          match expectedInputs shPops (typeOfScript shPops) with
                          | None => Panics
                          | Some shInputs =>
                              let expected' :=
                                if shInputs =? -1 then -1
                                else expected + shInputs in
                              Ok (mkScriptInfo class numInputs expected'
                                    (getSigOpCount shPops true))
                          end
                      end
                  end
                else
                  Ok (mkScriptInfo class numInputs expected
                        (getSigOpCount pkPops true))
            end
      end
  end.

(** CalcMultiSigStats returns the number of public keys and signatures
    from a multi-signature transaction script, in this order. *)
Definition CalcMultiSigStats (script : list Z) : Res (Z * Z) :=
  match ParseScript script with
  | None => Err (ErrParse script)
  | Some pops =>
      if len pops <? 4 then Err ErrStackUnderflow
      else
        let numSigs := asSmallInt (pop_opcode (at_ pops 0)) in
        let numPubKeys := asSmallInt (pop_opcode (at_ pops (len pops - 2))) in
        Ok (numPubKeys, numSigs)
  end.

(** The loop of [IsAztecTx] over the outputs; [false] is a [return false]
    inside the loop. *)
Fixpoint aztecOutputs (outs : list TxOut) : bool :=
  match outs with
  | [] => true
  | txOut :: rest =>
      let atoms := Value txOut in
      match ParseScript (PkScript txOut) with
      | None => false
      | Some pops =>
          if isNullData pops then
            if negb (atoms =? 0) then false else aztecOutputs rest
          else if negb (isGeneralAztec pops) then false
          else aztecOutputs rest
      end
  end.

(** IsAztecTx determines if a transaction is a standard aztec transaction
    consisting of only outputs to standard aztec scripts and 0-value
    nulldata scripts. *)
Definition IsAztecTx (tx : MsgTx) : bool :=
  if len (TxOuts tx) =? 0 then false
  else aztecOutputs (TxOuts tx).

(** ExtractPkScriptAddrs returns the type of script, addresses and
    required signatures associated with the passed PkScript, and the
    error ([None] is nil).  The address of an AztecTy script is appended
    only when both key ids were read and the address was built. *)
Definition ExtractPkScriptAddrs (pkScript : list Z) (chainParams : ChainParams)
  : ScriptClass * list Address * Z * option ScriptError :=
  match ParseScript pkScript with
  | None => (NonStandardTy, [], 0, Some (ErrParse pkScript))
  | Some pops =>
      let scriptClass := typeOfScript pops in
      match scriptClass with
      | AztecTy =>
          let requiredSigs := 2 in
          let addrs :=
            match asInt32 (at_ pops 2), asInt32 (at_ pops 3) with
            | Some key0, Some key1 =>
                match NewAddressAztec (data (at_ pops 1)) [key0; key1]
                                      chainParams with
                | Some addr => [addr]
                | None => []
                end
            | _, _ => []
            end in
          (scriptClass, addrs, requiredSigs, None)
      | AztecAdminTy => (scriptClass, [], 2, None)
      | _ => (scriptClass, [], 0, None)
      end
  end.

End Analysis.

End TxscriptInfo.


(* ===================================================================== *)
(** * Part II: blockchain/fullblocktests/generate.go                      *)
(* ===================================================================== *)

Module Fullblocktests.
Import Wire.

(** A Go [error], held as its message. *)
Definition error := string.

(** A Go [(v, error)] result whose error the caller keeps. *)
Inductive result (A : Type) :=
| Success (a : A)
| Failure (e : error).
Arguments Success {A} a.
Arguments Failure {A} e.

(** The value a [panic] carries, by the cases the recovery in [Generate]
    tells apart: a string, an error (the run-time panics of Go are
    errors), anything else. *)
Inductive PanicValue :=
| PanicString (s : string)
| PanicError (e : error)
| PanicOther.

Definition nilDereference : PanicValue :=
  PanicError "runtime error: invalid memory address or nil pointer dereference".
Definition indexOutOfRange : PanicValue :=
  PanicError "runtime error: index out of range".
Definition divideByZero : PanicValue :=
  PanicError "runtime error: integer divide by zero".

(** The calls the generator makes to the two routines named in the rules
    of [nextBlock], in the order they are made. *)
Inductive Call :=
| CallCalcMerkleRoot (txns : list MsgTx)
| CallSolveBlock (header : BlockHeader).

(** A computation either yields a value or panics. *)
Inductive Outcome (A : Type) :=
| Val (a : A)
| Panic (v : PanicValue).
Arguments Val {A} a.
Arguments Panic {A} v.

(** One run of a computation on a state: how it ended, the state it left
    (on a panic, the state when the panic was raised) and the calls made. *)
Record Run (S A : Type) := mkRun {
  outcome : Outcome A;
  final : S;
  calls : list Call
}.
Arguments mkRun {S A} outcome final calls.
Arguments outcome {S A} r.
Arguments final {S A} r.
Arguments calls {S A} r.

Definition M (S A : Type) : Type := S -> Run S A.

Definition ret {S A} (a : A) : M S A := fun s => mkRun (Val a) s [].

Definition bind {S A B} (m : M S A) (k : A -> M S B) : M S B :=
  fun s =>
    let r := m s in
    match outcome r with
    | Val a =>
        let r' := k a (final r) in
        mkRun (outcome r') (final r') (calls r ++ calls r')
    | Panic v => mkRun (Panic v) (final r) (calls r)
    end.

Definition panic {S A} (v : PanicValue) : M S A :=
  fun s => mkRun (Panic v) s [].
Definition get {S} : M S S := fun s => mkRun (Val s) s [].
Definition put {S} (s : S) : M S unit := fun _ => mkRun (Val tt) s [].
Definition logCall {S} (c : Call) : M S unit := fun s => mkRun (Val tt) s [c].

Notation "'let*' x := m 'in' k" := (bind m (fun x => k))
  (at level 10, x pattern, m at level 100, k at level 200).
Notation "m ;; k" := (bind m (fun _ => k))
  (at level 100, k at level 200, right associativity).

(** A computation that neither changes the state nor makes a call. *)
Definition quiet {S A} (m : M S A) : Prop :=
  forall s, final (m s) = s /\ calls (m s) = [].

(** Dereferencing a pointer that may be nil. *)
Definition deref {S A} (p : option A) : M S A :=
  match p with
  | Some a => ret a
  | None => panic nilDereference
  end.

(** The index expression [l[i]], which panics out of range. *)
Definition index {S A} (l : list A) (i : Z) : M S A :=
  if i <? 0 then panic indexOutOfRange
  else match l !! Z.to_nat i with
       | Some a => ret a
       | None => panic indexOutOfRange
       end.

(** [panic(err)] on a failed result. *)
Definition orPanic {S A} (r : result A) : M S A :=
  match r with
  | Success a => ret a
  | Failure e => panic (PanicError e)
  end.

(** The key sets and the key-id map a test instance carries. *)
Definition KeySets (PublicKey : Type) := gmap Z (list PublicKey).

(** The parameters of the chain ([chaincfg.Params]), as far as the
    generator reads them. *)
Record Params (PublicKey : Type) := mkParams {
  GenesisBlock : MsgBlock;
  PowLimitBits : Z;
  CoinbaseMaturity : Z;
  AdminKeySets : KeySets PublicKey;
  WspKeyIdMap : gmap Z PublicKey
}.
Arguments GenesisBlock {PublicKey} p.
Arguments PowLimitBits {PublicKey} p.
Arguments CoinbaseMaturity {PublicKey} p.
Arguments AdminKeySets {PublicKey} p.
Arguments WspKeyIdMap {PublicKey} p.

(** What the generator calls in the packages that are not among the
    sources ([wire], [chainhash], [blockchain], [txscript], [btcec],
    [rmgutil], [chaincfg]) and in the Go run time (the clock, the random
    source, the number of processors, the order in which the solver
    goroutines deliver): parameters, so that what is proved holds whatever
    they are. *)
Class GenEnv := {
  PublicKey : Type;
  BlockHash : BlockHeader -> Hash;
  TxHash : MsgTx -> Hash;
  SerializeSize : MsgBlock -> Z;
  signHeader : BlockHeader -> list Z;
  HashToBig : Hash -> Z;
  CompactToBig : Z -> Z;
  BuildMerkleTreeStore : list MsgTx -> list Hash;
  CalcBlockSubsidy : Z -> Params PublicKey -> Z;
  RegressionNetParams : Params PublicKey;
  NumCPU : Z;
  arrival : BlockHeader -> list nat;
  timeNow : Z;
  randRead : Hash -> list Z;
  provaScript : list Z -> list Z;
  coinbaseScriptFor : Z -> Z -> result (list Z);
  threadScriptFor : Z -> result (list Z);
  returnDataScript : list Z -> result (list Z);
  SignTxOutput : MsgTx -> Z -> list Z -> list Z;
  SerializeCompressed : PublicKey -> list Z;
  keyIDBytes : Z -> list Z;
  pubKey1 : PublicKey;
  pubKey2 : PublicKey;
  OP_ISSUINGKEYADD : Z;
  OP_ISSUINGKEYREVOKE : Z;
  OP_WSPKEYADD : Z;
  ErrMissingTx : Z
}.

Definition MaxUint32 : Z := 2 ^ 32 - 1.
Definition MaxPrevOutIndex : Z := 2 ^ 32 - 1.
Definition MaxTxInSequenceNum : Z := 2 ^ 32 - 1.

(** Modelled from the spec: the key-set tag and the two key ids of the
    tests (their constructors are in [btcec], not among the sources); the
    key ids are the numbers their four bytes spell, low byte first. *)
Definition IssueKeySet : Z := 0.
Definition keyId1 : Z := 1.
Definition keyId2 : Z := 65536.

(** Whether no function of [mungers], applied in order from [block],
    changes [field] of the block it is handed. *)
Definition noMungerChanged {A} (field : MsgBlock -> A)
    (mungers : list (MsgBlock -> MsgBlock)) (block : MsgBlock) : Prop :=
  forall (k : nat) (f : MsgBlock -> MsgBlock),
    mungers !! k = Some f ->
    field (f (foldl (fun b f => f b) block (take k mungers)))
    = field (foldl (fun b f => f b) block (take k mungers)).

Section Generator.
Context {G : GenEnv}.

(** The test instances. *)
Inductive TestInstance :=
| AcceptedBlock (Name : string) (Block : option MsgBlock) (Height : Z)
    (IsMainChain IsOrphan : bool) (AdminKeySets : KeySets PublicKey)
    (WspKeyIdMap : gmap Z PublicKey)
| RejectedBlock (Name : string) (Block : option MsgBlock) (Height : Z)
    (RejectCode : Z)
| OrphanOrRejectedBlock (Name : string) (Block : option MsgBlock) (Height : Z)
| ExpectedTip (Name : string) (Block : option MsgBlock) (Height : Z)
| RejectedNonCanonicalBlock (Name : string) (RawBlock : list Z) (Height : Z).

Record spendableOut := mkSpendableOut {
  prevOut : OutPoint;
  pkScript : list Z;
  amount : Z
}.

(** makeSpendableOutForTx returns a spendable output for the given
    transaction and transaction output index within the transaction. *)
Definition makeSpendableOutForTx {S} (tx : MsgTx) (txOutIndex : Z)
  : M S spendableOut :=
  let* out0 := index (TxOuts tx) 0 in
  let* out := index (TxOuts tx) txOutIndex in
  ret (mkSpendableOut (mkOutPoint (TxHash tx) txOutIndex)
                      (PkScript out0) (Value out)).

(** makeSpendableOut returns a spendable output for the given block,
    transaction index within the block, and transaction output index
    within the transaction. *)
Definition makeSpendableOut {S} (block : option MsgBlock) (txIndex txOutIndex : Z)
  : M S spendableOut :=
  let* b := deref block in
  let* tx := index (Transactions b) txIndex in
  makeSpendableOutForTx tx txOutIndex.

(** testGenerator houses state used to ease the process of generating
    test blocks that build from one another. *)
Record testGenerator := mkTestGenerator {
  params : Params PublicKey;
  tip : option MsgBlock;
  tipName : string;
  tipHeight : Z;
  blocks : gmap Z MsgBlock;
  blocksByName : gmap string MsgBlock;
  blockHeights : gmap string Z;
  spendableOuts : list spendableOut;
  prevCollectedHash : Hash
}.

(** Modelled from the spec: [BlockHeader.Sign] of package [wire] (not
    among the sources).  In the spec's account of building a block
    nothing between the mutators and the nonce test touches the nonce or
    the merkle root, so signing is taken to fill in the signature only. *)
Definition Sign (h : BlockHeader) : BlockHeader :=
  mkBlockHeader (Version h) (PrevBlock h) (MerkleRoot h) (Timestamp h)
                (Bits h) (Height h) (Size h) (Nonce h) (signHeader h).

Definition withHeader (b : MsgBlock) (h : BlockHeader) : MsgBlock :=
  mkMsgBlock h (Transactions b).

Definition withMerkleRoot (h : BlockHeader) (r : Hash) : BlockHeader :=
  mkBlockHeader (Version h) (PrevBlock h) r (Timestamp h)
                (Bits h) (Height h) (Size h) (Nonce h) (Signature h).

Definition withSize (h : BlockHeader) (n : Z) : BlockHeader :=
  mkBlockHeader (Version h) (PrevBlock h) (MerkleRoot h) (Timestamp h)
                (Bits h) (Height h) n (Nonce h) (Signature h).

Definition withNonce (h : BlockHeader) (n : Z) : BlockHeader :=
  mkBlockHeader (Version h) (PrevBlock h) (MerkleRoot h) (Timestamp h)
                (Bits h) (Height h) (Size h) n (Signature h).

(** makeTestGenerator returns a test generator instance initialized with
    the genesis block as the tip (its error result is always nil). *)
Definition makeTestGenerator (p : Params PublicKey) : testGenerator :=
  let genesis := withHeader (GenesisBlock p) (Sign (Header (GenesisBlock p))) in
  let genesisHash := BlockHash (Header genesis) in
  mkTestGenerator p (Some genesis) "genesis" 0
                  {[ genesisHash := genesis ]}
                  {[ "genesis" := genesis ]}
                  {[ "genesis" := 0 ]}
                  [] 0.

(** createCoinbaseTx returns a coinbase transaction paying an appropriate
    subsidy based on the passed block height. *)
Definition createCoinbaseTx (g : testGenerator) (blockHeight : Z)
  : M testGenerator MsgTx :=
  let extraNonce := 0 in
  let* coinbaseScript := orPanic (coinbaseScriptFor blockHeight extraNonce) in
  let txIn := mkTxIn (mkOutPoint 0 MaxPrevOutIndex) coinbaseScript
                     MaxTxInSequenceNum in
  let pkHash := randRead blockHeight in
  let scriptPkScript := provaScript pkHash in
  ret (mkMsgTx [txIn]
         [mkTxOut (CalcBlockSubsidy blockHeight (params g)) scriptPkScript]).

(** calcMerkleRoot creates a merkle tree from the slice of transactions
    and returns the root of the tree. *)
Definition calcMerkleRoot {S} (txns : list MsgTx) : M S Hash :=
  logCall (CallCalcMerkleRoot txns) ;;
  if Txscript.len txns =? 0 then ret 0
  else
    let merkles := BuildMerkleTreeStore txns in
    index merkles (Txscript.len merkles - 1).

(** What a solver goroutine sends on the results channel. *)
Record sbResult := mkSbResult { found : bool; nonce : Z }.

(** One turn of the loop of a solver goroutine,
    [for i := startNonce; i >= startNonce && i <= stopNonce; i++], at
    nonce [i]: the loop ends when the condition fails, a nonce that solves
    the header is sent, otherwise the loop goes on at [i + 1] (which wraps
    to 0 after the last 32-bit nonce).  The [quit] channel is closed only
    once the caller has a solution in hand, so it does not change what a
    delivered result is. *)
Definition solverStep (targetDifficulty : Z) (hdr : BlockHeader)
    (startNonce stopNonce i : Z) : Z + sbResult :=
  if (i >=? startNonce) && (i <=? stopNonce) then
    let hdr := withNonce hdr i in
    let hash := BlockHash hdr in
    if HashToBig hash <=? targetDifficulty then inr (mkSbResult true i)
    else inl (u32 (i + 1))
  else inr (mkSbResult false 0).

(** A solver goroutine on its range: the loop from [startNonce], with
    room for 2^33 turns, more than there are nonces; [None] is a loop that
    has not stopped by then (there is none, see [solver_total]). *)
Definition solver (targetDifficulty : Z) (hdr : BlockHeader)
    (startNonce stopNonce : Z) : option sbResult :=
  match loopUpTo 33 (solverStep targetDifficulty hdr startNonce stopNonce)
                 startNonce with
  | inr r => Some r
  | inl _ => None
  end.

(** The nonce range handed to goroutine [i] of [numCores]. *)
Definition coreRange (numCores i : Z) : Z * Z :=
  let startNonce := u32 1 in
  let stopNonce := u32 MaxUint32 in
  let noncesPerCore := (stopNonce - startNonce) / numCores in
  let rangeStart := u32 (startNonce + u32 (noncesPerCore * i)) in
  let rangeStop := u32 (u32 (startNonce + u32 (noncesPerCore * u32 (i + 1))) - 1) in
  if i =? u32 (numCores - 1) then (rangeStart, stopNonce)
  else (rangeStart, rangeStop).

(** Nonce [n] is in the range of goroutine [i]. *)
Definition inCoreRange (numCores i n : Z) : Prop :=
  fst (coreRange numCores i) <= n <= snd (coreRange numCores i).

(** The receiving loop of [solveBlock]: the results in the order they
    arrive, at most [n] of them. *)
Fixpoint receive (n : nat) (results : list sbResult) (header : BlockHeader)
  : bool * BlockHeader :=
  match n, results with
  | S n', r :: rest =>
      if found r then (true, withNonce header (nonce r))
      else receive n' rest header
  | _, _ => (false, header)
  end.

(** solveBlock attempts to find a nonce which makes the passed block
    header hash to a value less than the target difficulty; it yields
    whether it did and the header as it leaves it.  [order] lists the
    goroutines in the order their results reach the channel. *)
Definition solveBlockWith (numCores : Z) (order : list nat)
    (header : BlockHeader) : option (bool * BlockHeader) :=
  let targetDifficulty := CompactToBig (Bits header) in
  let worker (i : nat) : option (option sbResult) :=
    if Z.of_nat i <? numCores then
      let '(rangeStart, rangeStop) := coreRange numCores (Z.of_nat i) in
      Some (solver targetDifficulty header rangeStart rangeStop)
    else None in
  let delivered := omap worker order in
  match mapM id delivered with
  | None => None
  | Some results => Some (receive (Z.to_nat numCores) results header)
  end.

(** [solveBlock] inside the generator: the division by the number of
    cores panics when that is zero, and the call is recorded.  (The last
    case, a goroutine whose loop has not stopped, does not arise: see
    [solveBlockWith_total].) *)
Definition solveBlock {S} (header : BlockHeader) : M S (bool * BlockHeader) :=
  logCall (CallSolveBlock header) ;;
  let numCores := u32 NumCPU in
  if numCores =? 0 then panic divideByZero
  else
    match solveBlockWith numCores (arrival header) header with
    | Some r => ret r
    | None => panic PanicOther
    end.

(** additionalTx returns a function that itself takes a block and
    modifies it by adding the provided transaction. *)
Definition additionalTx (tx : MsgTx) : MsgBlock -> MsgBlock :=
  fun b => mkMsgBlock (Header b) (Transactions b ++ [tx]).

(** createSpendTx creates a transaction that spends from the provided
    spendable output. *)
Definition createSpendTx (spend : spendableOut) (fee : Z) : MsgTx :=
  let txIn := mkTxIn (prevOut spend) [] MaxTxInSequenceNum in
  let pkHash := randRead (OutHash (prevOut spend)) in
  let scriptPkScript := provaScript pkHash in
  let spendTx := mkMsgTx [txIn] [mkTxOut 0 scriptPkScript] in
  let sigScript := SignTxOutput spendTx (amount spend) (pkScript spend) in
  mkMsgTx [mkTxIn (prevOut spend) sigScript MaxTxInSequenceNum]
          [mkTxOut 0 scriptPkScript].

(** aztecThreadScript creates a new script to pay a transaction output to
    an admin thread. *)
Definition aztecThreadScript {S} (threadID : Z) : M S (list Z) :=
  orPanic (threadScriptFor threadID).

(** aztecAdminScript creates a new script that executes an admin op. *)
Definition aztecAdminScript {S} (opcode : Z) (pubKey : PublicKey)
  : M S (list Z) :=
  let data := opcode :: take 33 (SerializeCompressed pubKey ++ replicate 33 0) in
  orPanic (returnDataScript data).

(** aztecAdminWSPScript creates a new script that executes an admin op to
    provision or deprovision a WSP key. *)
Definition aztecAdminWSPScript {S} (opcode : Z) (pubKey : PublicKey) (keyID : Z)
  : M S (list Z) :=
  let data := opcode :: take 33 (SerializeCompressed pubKey ++ replicate 33 0)
                     ++ take 4 (keyIDBytes keyID ++ replicate 4 0) in
  orPanic (returnDataScript data).

(** The common body of [createAdminTx] and [createWspAdminTx]: one input
    spending [spend], the thread output, the admin output, then the
    signature script. *)
Definition adminTxOf (spend : spendableOut) (threadScript adminScript : list Z)
  : MsgTx :=
  let txValue := 0 in
  let outs := [mkTxOut txValue threadScript; mkTxOut txValue adminScript] in
  let spendTx := mkMsgTx [mkTxIn (prevOut spend) [] MaxTxInSequenceNum] outs in
  let sigScript := SignTxOutput spendTx (amount spend) (pkScript spend) in
  mkMsgTx [mkTxIn (prevOut spend) sigScript MaxTxInSequenceNum] outs.

(** createAdminTx creates an admin tx. *)
Definition createAdminTx {S} (spend : spendableOut) (threadID : Z) (op : Z)
    (pubKey : PublicKey) : M S MsgTx :=
  let* threadScript := aztecThreadScript threadID in
  let* adminScript := aztecAdminScript op pubKey in
  ret (adminTxOf spend threadScript adminScript).

(** createWspAdminTx creates an admin tx that provisions a keyID. *)
Definition createWspAdminTx {S} (spend : spendableOut) (op : Z)
    (pubKey : PublicKey) (keyID : Z) : M S MsgTx :=
  let* threadScript := aztecThreadScript Txscript.ProvisionThread in
  let* adminScript := aztecAdminWSPScript op pubKey keyID in
  ret (adminTxOf spend threadScript adminScript).

(** [coinbaseTx.TxOut[0].Value += fee]. *)
Definition addFee {S} (tx : MsgTx) (fee : Z) : M S MsgTx :=
  let* out0 := index (TxOuts tx) 0 in
  ret (mkMsgTx (TxIns tx)
         (<[0%nat := mkTxOut (Value out0 + fee) (PkScript out0)]> (TxOuts tx))).

(** The draft block of [nextBlock], before any munge function runs. *)
Definition draftBlock (g : testGenerator) (spend : option spendableOut)
  : M testGenerator MsgBlock :=
  let nextHeight := u32 (tipHeight g + 1) in
  let* coinbaseTx := createCoinbaseTx g nextHeight in
  let* txns :=
    match spend with
    | Some sp =>
        let fee := 1 in
        let* coinbaseTx' := addFee coinbaseTx fee in
        ret [coinbaseTx'; createSpendTx sp fee]
    | None => ret [coinbaseTx]
    end in
  let* ts :=
    if nextHeight =? 1 then ret timeNow
    else
      let* t := deref (tip g) in
      ret (Timestamp (Header t) + 120) in
  let* t := deref (tip g) in
  let* root := calcMerkleRoot txns in
  ret (mkMsgBlock
         (mkBlockHeader 1 (BlockHash (Header t)) root ts
                        (PowLimitBits (params g)) nextHeight 0 0 [])
         txns).

(** The munge functions, applied in order to the block. *)
Definition munge (mungers : list (MsgBlock -> MsgBlock)) (block : MsgBlock)
  : MsgBlock :=
  foldl (fun b f => f b) block mungers.

(** The first rule [nextBlock] applies after all munge functions have
    been invoked: the merkle root is recalculated unless it was manually
    changed. *)
Definition recalcMerkleRoot {S} (curMerkleRoot : Hash) (block : MsgBlock)
  : M S MsgBlock :=
  if bool_decide (MerkleRoot (Header block) = curMerkleRoot) then
    let* root := calcMerkleRoot (Transactions block) in
    ret (withHeader block (withMerkleRoot (Header block) root))
  else ret block.

(** The second rule: the block is solved unless the nonce was changed;
    an unsolved block is a panic. *)
Definition solveUnlessChanged {S} (curNonce : Z) (nextHeight : Z)
    (block : MsgBlock) : M S MsgBlock :=
  if Nonce (Header block) =? curNonce then
    let* solved := solveBlock (Header block) in
    if negb (fst solved) then
      panic (PanicString ("Unable to solve block at height " +:+ pretty nextHeight))
    else ret (withHeader block (snd solved))
  else ret block.

(** What [nextBlock] does to the block after all munge functions have
    been invoked: the first rule, the size, the signature, the second
    rule. *)
Definition sealBlock {S} (curMerkleRoot : Hash) (curNonce : Z) (nextHeight : Z)
    (block : MsgBlock) : M S MsgBlock :=
  let* block := recalcMerkleRoot curMerkleRoot block in
  let block := withHeader block
                 (withSize (Header block) (u32 (SerializeSize block))) in
  let block := withHeader block (Sign (Header block)) in
  solveUnlessChanged curNonce nextHeight block.

(** nextBlock builds a new block that extends the current tip associated
    with the generator and updates the generator's tip to the newly
    generated block. *)
Definition nextBlock (blockName : string) (spend : option spendableOut)
    (mungers : list (MsgBlock -> MsgBlock)) : M testGenerator MsgBlock :=
  let* g := get in
  let nextHeight := u32 (tipHeight g + 1) in
  let* block := draftBlock g spend in
  let curMerkleRoot := MerkleRoot (Header block) in
  let curNonce := Nonce (Header block) in
  let* block := sealBlock curMerkleRoot curNonce nextHeight
                          (munge mungers block) in
  let blockHash := BlockHash (Header block) in
  put (mkTestGenerator (params g) (Some block) blockName nextHeight
         (<[blockHash := block]> (blocks g))
         (<[blockName := block]> (blocksByName g))
         (<[blockName := nextHeight]> (blockHeights g))
         (spendableOuts g) (prevCollectedHash g)) ;;
  ret block.

(** setTip changes the tip of the instance to the block with the provided
    name.  A Go map yields the zero value for a key it does not hold: the
    nil pointer for [blocksByName], 0 for [blockHeights]. *)
Definition setTip (blockName : string) : M testGenerator unit :=
  let* g := get in
  put (mkTestGenerator (params g) (blocksByName g !! blockName) blockName
         (default 0 (blockHeights g !! blockName))
         (blocks g) (blocksByName g) (blockHeights g)
         (spendableOuts g) (prevCollectedHash g)).

(** The generator states a run can reach, with the names under which
    blocks were registered: the genesis generator, then any sequence of
    the generator's methods (a call of [nextBlock] that panics leaves the
    generator as it was, see [nextBlock_run]). *)
Inductive built : gset string -> testGenerator -> Prop :=
| built_genesis (p : Params PublicKey) :
    built {[ "genesis" ]} (makeTestGenerator p)
| built_nextBlock (names : gset string) (g : testGenerator)
    (blockName : string) (spend : option spendableOut)
    (mungers : list (MsgBlock -> MsgBlock)) (block : MsgBlock) :
    built names g ->
    outcome (nextBlock blockName spend mungers g) = Val block ->
    built ({[ blockName ]} ∪ names)
          (final (nextBlock blockName spend mungers g))
| built_setTip (names : gset string) (g : testGenerator) (blockName : string) :
    built names g ->
    built names (final (setTip blockName g))
| built_spendableOuts (names : gset string) (g : testGenerator)
    (outs : list spendableOut) (collected : Hash) :
    built names g ->
    built names
      (mkTestGenerator (params g) (tip g) (tipName g) (tipHeight g)
         (blocks g) (blocksByName g) (blockHeights g) outs collected).

(** oldestCoinbaseOut removes the oldest coinbase output that was
    previously saved to the generator and returns it. *)
Definition oldestCoinbaseOut : M testGenerator spendableOut :=
  let* g := get in
  let* op := index (spendableOuts g) 0 in
  put (mkTestGenerator (params g) (tip g) (tipName g) (tipHeight g)
         (blocks g) (blocksByName g) (blockHeights g)
         (drop 1 (spendableOuts g)) (prevCollectedHash g)) ;;
  ret op.

(** saveTipCoinbaseOut adds the coinbase tx output in the current tip
    block to the list of spendable outputs. *)
Definition saveTipCoinbaseOut : M testGenerator unit :=
  let* g := get in
  let* out := makeSpendableOut (tip g) 0 0 in
  let* t := deref (tip g) in
  put (mkTestGenerator (params g) (tip g) (tipName g) (tipHeight g)
         (blocks g) (blocksByName g) (blockHeights g)
         (spendableOuts g ++ [out]) (BlockHash (Header t))).

(** The state of a run of [Generate]: the generator [g] and the named
    result [tests] ([None] is the nil slice). *)
Record genState := mkGenState {
  gen : testGenerator;
  tests : option (list (list TestInstance))
}.

(** A method of the generator, run inside [Generate]. *)
Definition liftG {A} (m : M testGenerator A) : M genState A :=
  fun s =>
    let r := m (gen s) in
    mkRun (outcome r) (mkGenState (final r) (tests s)) (calls r).

Definition getGen : M genState testGenerator :=
  fun s => mkRun (Val (gen s)) s [].

(** [tests = append(tests, group)]. *)
Definition appendTests (group : list TestInstance) : M genState unit :=
  fun s =>
    mkRun (Val tt)
          (mkGenState (gen s) (Some (default [] (tests s) ++ [group]))) [].

Definition acceptBlock (g : testGenerator) (blockName : string)
    (block : option MsgBlock) (isMainChain isOrphan : bool) : TestInstance :=
  let blockHeight := default 0 (blockHeights g !! blockName) in
  AcceptedBlock blockName block blockHeight isMainChain isOrphan
                (AdminKeySets RegressionNetParams)
                (WspKeyIdMap RegressionNetParams).

Definition rejectBlock (g : testGenerator) (blockName : string)
    (block : option MsgBlock) (code : Z) : TestInstance :=
  let blockHeight := default 0 (blockHeights g !! blockName) in
  RejectedBlock blockName block blockHeight code.

Definition expectTipBlock (g : testGenerator) (blockName : string)
    (block : option MsgBlock) : TestInstance :=
  let blockHeight := default 0 (blockHeights g !! blockName) in
  ExpectedTip blockName block blockHeight.

Definition acceptBlockwithAdminKeys (g : testGenerator) (blockName : string)
    (block : option MsgBlock) (isMainChain isOrphan : bool)
    (adminKeySets : KeySets PublicKey) : TestInstance :=
  let blockHeight := default 0 (blockHeights g !! blockName) in
  AcceptedBlock blockName block blockHeight isMainChain isOrphan adminKeySets
                (WspKeyIdMap RegressionNetParams).

Definition acceptBlockwithWspKeys (g : testGenerator) (blockName : string)
    (block : option MsgBlock) (isMainChain isOrphan : bool)
    (adminKey : PublicKey) (keyID : Z) : TestInstance :=
  let blockHeight := default 0 (blockHeights g !! blockName) in
  AcceptedBlock blockName block blockHeight isMainChain isOrphan
                (AdminKeySets RegressionNetParams)
                (WspKeyIdMap RegressionNetParams).

Definition accepted : M genState unit :=
  let* g := getGen in
  appendTests [acceptBlock g (tipName g) (tip g) true false].

Definition acceptedWithAdminKeys (keySetType : Z)
    (adminKeys : option (list PublicKey)) : M genState unit :=
  let* g := getGen in
  let adminKeySets := AdminKeySets RegressionNetParams in
  let adminKeySets :=
    match adminKeys with
    | Some keys =>
        <[keySetType := default [] (adminKeySets !! keySetType) ++ keys]>
          adminKeySets
    | None => adminKeySets
    end in
  appendTests
    [acceptBlockwithAdminKeys g (tipName g) (tip g) true false adminKeySets].

Definition acceptedWithWspKey (adminKey : PublicKey) (keyID : Z)
  : M genState unit :=
  let* g := getGen in
  appendTests
    [acceptBlockwithWspKeys g (tipName g) (tip g) true false adminKey keyID].

Definition acceptedToSideChainWithExpectedTip (tipName' : string)
  : M genState unit :=
  let* g := getGen in
  appendTests
    [acceptBlock g (tipName g) (tip g) false false;
     expectTipBlock g tipName' (blocksByName g !! tipName')].

Definition rejected (code : Z) : M genState unit :=
  let* g := getGen in
  appendTests [rejectBlock g (tipName g) (tip g) code].

(** A computation of [Generate] that, when it returns, leaves [tests]
    allocated. *)
Definition leavesTests {A} (m : M genState A) : Prop :=
  forall s a, outcome (m s) = Val a -> is_Some (tests (final (m s))).

(** The first loop of [Generate]: [n] more blocks [bm<i>], each saved as
    a spendable coinbase and expected to be accepted. *)
Fixpoint matureBlocks (n : nat) (i : Z) (testInstances : list TestInstance)
  : M genState (list TestInstance) :=
  match n with
  | O => ret testInstances
  | S n' =>
      let blockName := "bm" +:+ pretty i in
      let* _ := liftG (nextBlock blockName None []) in
      liftG saveTipCoinbaseOut ;;
      let* g := getGen in
      matureBlocks n' (i + 1)
        (testInstances ++ [acceptBlock g (tipName g) (tip g) true false])
  end.

(** The second loop of [Generate]: collect [n] spendable outputs. *)
Fixpoint collectOuts (n : nat) (outs : list spendableOut)
  : M genState (list spendableOut) :=
  match n with
  | O => ret outs
  | S n' =>
      let* op := liftG oldestCoinbaseOut in
      collectOuts n' (outs ++ [op])
  end.

(** The body of [Generate], up to its [return tests, nil]. *)
Definition generateBody (includeLargeReorg : bool) : M genState unit :=
  let* g := getGen in
  let* rootOut := makeSpendableOut (tip g) 0 0 in
  let* provisionOut := makeSpendableOut (tip g) 0 1 in
  let* issueOut := makeSpendableOut (tip g) 0 2 in
  let outs := [rootOut; provisionOut; issueOut] in
  let coinbaseMaturity := CoinbaseMaturity (params g) in
  let* testInstances := matureBlocks (Z.to_nat coinbaseMaturity) 0 [] in
  appendTests testInstances ;;
  let* outs := collectOuts (Z.to_nat coinbaseMaturity) outs in

  let* o := index outs 3 in
  let* _ := liftG (nextBlock "b1" (Some o) []) in
  accepted ;;
  let* o := index outs 4 in
  let* _ := liftG (nextBlock "b2" (Some o) []) in
  accepted ;;

  let* o := index outs 0 in
  let* issueKeyAddTx := createAdminTx o 0 OP_ISSUINGKEYADD pubKey1 in
  let* _ := liftG (nextBlock "b3" None [additionalTx issueKeyAddTx]) in
  acceptedWithAdminKeys IssueKeySet (Some [pubKey1]) ;;

  let* provisionThreadOut := makeSpendableOutForTx issueKeyAddTx 0 in
  let* issueKeyAddTx2 :=
    createAdminTx provisionThreadOut 0 OP_ISSUINGKEYADD pubKey2 in
  let* _ := liftG (nextBlock "b4" None [additionalTx issueKeyAddTx2]) in
  acceptedWithAdminKeys IssueKeySet (Some [pubKey1; pubKey2]) ;;

  let* _ := liftG (nextBlock "b5" None []) in
  acceptedWithAdminKeys IssueKeySet (Some [pubKey1; pubKey2]) ;;

  let* provisionThreadOut := makeSpendableOutForTx issueKeyAddTx2 0 in
  let* issueKeyRevokeTx1 :=
    createAdminTx provisionThreadOut 0 OP_ISSUINGKEYREVOKE pubKey1 in
  let* provisionThreadOut := makeSpendableOutForTx issueKeyRevokeTx1 0 in
  let* issueKeyRevokeTx2 :=
    createAdminTx provisionThreadOut 0 OP_ISSUINGKEYREVOKE pubKey2 in
  let* _ := liftG (nextBlock "b6" None
                     [additionalTx issueKeyRevokeTx1;
                      additionalTx issueKeyRevokeTx2]) in
  accepted ;;

  let keyId := keyId2 in
  let* o := index outs 6 in
  let* wspKeyIdAddTx := createWspAdminTx o OP_WSPKEYADD pubKey1 keyId in
  let* _ := liftG (nextBlock "b7" None [additionalTx wspKeyIdAddTx]) in
  acceptedWithWspKey pubKey1 keyId ;;

  let* o := index outs 7 in
  let* _ := liftG (nextBlock "b8" (Some o) []) in
  accepted ;;

  let* o := index outs 8 in
  let* _ := liftG (nextBlock "b9" (Some o) []) in
  accepted ;;

  let* provisionThreadOut := makeSpendableOutForTx issueKeyRevokeTx2 0 in
  let* adminKeyAddTx :=
    createAdminTx provisionThreadOut 0 OP_ISSUINGKEYADD pubKey1 in
  let* _ := liftG (nextBlock "b10" None [additionalTx adminKeyAddTx]) in
  acceptedWithAdminKeys IssueKeySet (Some [pubKey1]) ;;

  liftG (setTip "b9") ;;
  let* o := index outs 9 in
  let* _ := liftG (nextBlock "b11" (Some o) []) in
  acceptedToSideChainWithExpectedTip "b10" ;;

  let* o := index outs 10 in
  let* _ := liftG (nextBlock "b12" (Some o) []) in
  accepted ;;

  liftG (setTip "b10") ;;
  let* o := index outs 10 in
  let* _ := liftG (nextBlock "b13" (Some o) []) in
  acceptedToSideChainWithExpectedTip "b12" ;;

  let* o := index outs 11 in
  let* _ := liftG (nextBlock "b14" (Some o) []) in
  acceptedWithAdminKeys IssueKeySet (Some [pubKey1]) ;;

  liftG (setTip "b13") ;;
  let* o := index outs 10 in
  let* _ := liftG (nextBlock "b15" (Some o) []) in
  acceptedToSideChainWithExpectedTip "b14" ;;

  let* o := index outs 12 in
  let* _ := liftG (nextBlock "b16" (Some o) []) in
  rejected ErrMissingTx.

(** The deferred function of [Generate] on a recovered panic value: the
    error it stores in the named result [err]. *)
Definition recovered (r : PanicValue) : error :=
  match r with
  | PanicString rt => rt
  | PanicError rt => rt
  | PanicOther => "Unknown panic"
  end.

(** Generate returns a slice of tests that can be used to exercise the
    consensus validation rules, and an error ([None] is nil).  The body
    runs on the generator that [makeTestGenerator] returns, with [tests]
    nil; when it panics, the deferred function sets [tests] to nil and
    [err] to the recovered error. *)
Definition Generate (includeLargeReorg : bool)
  : option (list (list TestInstance)) * option error :=
  let r := generateBody includeLargeReorg
             (mkGenState (makeTestGenerator RegressionNetParams) None) in
  match outcome r with
  | Val _ => (tests (final r), None)
  | Panic v => (None, Some (recovered v))
  end.

End Generator.

End Fullblocktests.

(* ===================================================================== *)
(** * Part II, continued: what a run of Generate leaves in [tests]        *)
(* ===================================================================== *)

Module GenerateShape.
Import Wire Fullblocktests.

(** Whether a run returned, and the value it returned ([d] for a run
    that panicked). *)
Definition isVal {A} (o : Outcome A) : bool :=
  match o with
  | Val _ => true
  | Panic _ => false
  end.

Definition valOr {A} (d : A) (o : Outcome A) : A :=
  match o with
  | Val a => a
  | Panic _ => d
  end.

Section Shape.
Context {G : GenEnv}.

(** The groups of test instances built so far (none while [tests] is
    nil). *)
Definition groupsOf (s : genState) : list (list TestInstance) :=
  default [] (tests s).

(** A computation of [Generate] that, when it returns, has appended to
    [tests] groups of the sizes [sizes], in this order, and nothing
    else. *)
Definition appendsGroups {A} (sizes : list nat) (m : M genState A) : Prop :=
  forall s a, outcome (m s) = Val a ->
    exists groups,
      groupsOf (final (m s)) = groupsOf s ++ groups /\
      map length groups = sizes.

(** A computation that returns only if [P] holds. *)
Definition returnsOnlyIf {S A} (P : Prop) (m : M S A) : Prop :=
  forall s a, outcome (m s) = Val a -> P.

End Shape.

End GenerateShape.


(* ===================================================================== *)
(** * A reference environment                                             *)
(* ===================================================================== *)

Module Std.
Import Wire Txscript.

(** Modelled from the spec: the opcode table and the helpers of package
    [txscript] that are not among the sources, for the concrete examples
    only (no universally quantified theorem below depends on them).  The
    standard opcodes have the values of the usual script opcode table; the
    "safe multisig terminator", the thread check and the eight admin
    operations are given distinct values.  A "small-int" is [OP_0] or
    [OP_1 .. OP_16]; a "4-byte KeyID" push is [OP_DATA_4] followed by four
    bytes, read little-endian. *)
Definition OP_0 : Z := 0.
Definition OP_DATA_4 : Z := 4.
Definition OP_DATA_20 : Z := 20.
Definition OP_DATA_75 : Z := 75.
Definition OP_PUSHDATA1 : Z := 76.
Definition OP_PUSHDATA2 : Z := 77.
Definition OP_1 : Z := 81.
Definition OP_4 : Z := 84.
Definition OP_16 : Z := 96.
Definition OP_NOP : Z := 97.

Definition std_isSmallInt (op : opcode) : bool :=
  (value op =? OP_0) || ((OP_1 <=? value op) && (value op <=? OP_16)).

Definition std_asSmallInt (op : opcode) : Z :=
  if value op =? OP_0 then 0 else (value op - (OP_1 - 1)) mod 256.

Definition std_isUint32 (op : opcode) : bool := value op =? OP_DATA_4.

Definition std_asInt32 (pop : parsedOpcode) : option Z :=
  match data pop with
  | [b0; b1; b2; b3] =>
      let v := b0 + 256 * b1 + 65536 * b2 + 16777216 * b3 in
      Some (if v <? 2 ^ 31 then v else v - 2 ^ 32)
  | _ => None
  end.

(** Little-endian reading of a length prefix. *)
Fixpoint leBytes (bs : list Z) : Z :=
  match bs with
  | [] => 0
  | b :: rest => b + 256 * leBytes rest
  end.

(** One operation off the front of a script: the operation and the rest,
    or [None] when the script ends inside a push. *)
Definition parseOne (script : list Z) : option (parsedOpcode * list Z) :=
  match script with
  | [] => None
  | op :: rest =>
      let push (n : Z) (body : list Z) :=
        if len body <? n then None
        else Some (mkParsedOpcode (mkOpcode op) (take (Z.to_nat n) body),
                   drop (Z.to_nat n) body) in
      if (1 <=? op) && (op <=? OP_DATA_75) then push op rest
      else if op =? OP_PUSHDATA1 then
        if len rest <? 1 then None
        else push (leBytes (take 1 rest)) (drop 1 rest)
      else if op =? OP_PUSHDATA2 then
        if len rest <? 2 then None
        else push (leBytes (take 2 rest)) (drop 2 rest)
      else if op =? 78 then
        if len rest <? 4 then None
        else push (leBytes (take 4 rest)) (drop 4 rest)
      else Some (mkParsedOpcode (mkOpcode op) [], rest)
  end.

Fixpoint parseFuel (fuel : nat) (script : list Z) : option (list parsedOpcode) :=
  match script with
  | [] => Some []
  | _ =>
      match fuel with
      | O => None
      | S fuel' =>
          match parseOne script with
          | None => None
          | Some (pop, rest) =>
              match parseFuel fuel' rest with
              | None => None
              | Some pops => Some (pop :: pops)
              end
          end
      end
  end.

Definition std_ParseScript (script : list Z) : option (list parsedOpcode) :=
  parseFuel (length script) script.

Definition std_ExtractThreadID (pops : list parsedOpcode) : option ThreadID :=
  match pops with
  | [p; _] => Some (std_asSmallInt (pop_opcode p))
  | _ => None
  end.

Definition std_ParsePubKey (bs : list Z) : option (list Z) :=
  match bs with
  | b :: _ =>
      if (len bs =? 33) && ((b =? 2) || (b =? 3)) then Some bs else None
  | [] => None
  end.

Definition env : ScriptEnv := {|
  OP_2 := 82;
  OP_3 := 83;
  OP_RETURN := 106;
  OP_PUSHDATA4 := 78;
  OP_DATA_34 := 34;
  OP_DATA_38 := 38;
  OP_CHECKSAFEMULTISIG := 186;
  OP_CHECKTHREAD := 187;
  OP_PROVISIONINGKEYADD := 1;
  OP_PROVISIONINGKEYREVOKE := 2;
  OP_ISSUINGKEYADD := 3;
  OP_ISSUINGKEYREVOKE := 4;
  OP_VALIDATEKEYADD := 17;
  OP_VALIDATEKEYREVOKE := 18;
  OP_WSPKEYADD := 19;
  OP_WSPKEYREVOKE := 20;
  isSmallInt := std_isSmallInt;
  asSmallInt := std_asSmallInt;
  isUint32 := std_isUint32;
  asInt32 := std_asInt32;
  ParseScript := std_ParseScript;
  ExtractThreadID := std_ExtractThreadID;
  PublicKey := list Z;
  ParsePubKey := std_ParsePubKey
|}.

(** Operations for the examples. *)
Definition opOnly (v : Z) : parsedOpcode := mkParsedOpcode (mkOpcode v) [].
Definition pushData (bs : list Z) : parsedOpcode :=
  mkParsedOpcode (mkOpcode (len bs)) bs.

(** [OP_2 <keyid> <keyid> OP_NOP OP_NOP OP_4 OP_CHECKSAFEMULTISIG]: two
    of the four operations between the counts are no pushes at all. *)
Definition paddedScript : list parsedOpcode :=
  [ opOnly 82; pushData [1; 0; 0; 0]; pushData [0; 0; 1; 0];
    opOnly OP_NOP; opOnly OP_NOP; opOnly OP_4; opOnly 186 ].

(** The same script as bytes. *)
Definition paddedScriptBytes : list Z :=
  [82; 4; 1; 0; 0; 0; 4; 0; 0; 1; 0; 97; 97; 84; 186].

(** The baton script of the root thread, [OP_0 OP_CHECKTHREAD]. *)
Definition rootThreadScript : list parsedOpcode := [ opOnly OP_0; opOnly 187 ].
Definition rootThreadScriptBytes : list Z := [0; 187].

(** A compressed public key (33 bytes) and the payloads built from it. *)
Definition someKey : list Z := 2 :: replicate 32 7.
Definition adminPayload (op : Z) : list Z := op :: someKey.
Definition wspPayload (op : Z) : list Z := op :: someKey ++ [0; 0; 1; 0].

(** [OP_RETURN <payload>]. *)
Definition adminScript (payload : list Z) : list parsedOpcode :=
  [ opOnly 106; pushData payload ].

(** Modelled from the spec: the collaborators of the generator
    ("a merkle-root computation over a transaction list; block/header
    serialization producing a stable identity hash", the chain
    parameters, the script builders), which are not among the sources,
    for the concrete examples only.  The identity hash is a small
    arithmetic function of the header, so that nonces solving a header can
    be found by evaluation. *)
Definition toyBlockHash (h : BlockHeader) : Hash :=
  (Nonce h * 1000003 + MerkleRoot h + PrevBlock h) mod 65536.

Definition toyTxHash (tx : MsgTx) : Hash :=
  foldr (fun o acc => Value o + len (PkScript o) + 31 * acc) 7 (TxOuts tx)
  + 17 * len (TxIns tx).

Definition toyMerkles (txns : list MsgTx) : list Hash :=
  map toyTxHash txns ++ [foldr (fun tx acc => toyTxHash tx + 3 * acc) 1 txns].

Definition genesisCoinbase : MsgTx :=
  mkMsgTx [mkTxIn (mkOutPoint 0 (2 ^ 32 - 1)) [0] (2 ^ 32 - 1)]
          [mkTxOut 0 [0; 187]; mkTxOut 0 [81; 187]; mkTxOut 0 [82; 187]].

Definition genesisBlock : MsgBlock :=
  mkMsgBlock (mkBlockHeader 1 0 0 1500000000 30000 0 0 0 []) [genesisCoinbase].

Definition regtest : Fullblocktests.Params (list Z) :=
  Fullblocktests.mkParams (list Z) genesisBlock 30000 100 ∅ ∅.

Definition genvWith
    (coinbaseScript : Z -> Z -> Fullblocktests.result (list Z))
  : Fullblocktests.GenEnv := {|
  Fullblocktests.PublicKey := list Z;
  Fullblocktests.BlockHash := toyBlockHash;
  Fullblocktests.TxHash := toyTxHash;
  Fullblocktests.SerializeSize := fun b => 80 + len (Transactions b);
  Fullblocktests.signHeader := fun h => [MerkleRoot h mod 256];
  Fullblocktests.HashToBig := fun h => h;
  Fullblocktests.CompactToBig := fun bits => bits;
  Fullblocktests.BuildMerkleTreeStore := toyMerkles;
  Fullblocktests.CalcBlockSubsidy := fun _ _ => 5000000000;
  Fullblocktests.RegressionNetParams := regtest;
  Fullblocktests.NumCPU := 4;
  Fullblocktests.arrival := fun _ => [2; 0; 3; 1]%nat;
  Fullblocktests.timeNow := 1500000000;
  Fullblocktests.randRead := fun seed => replicate 20 (seed mod 256);
  Fullblocktests.provaScript := fun pkHash =>
    [82; 20] ++ pkHash ++ [4; 1; 0; 0; 0; 4; 0; 0; 1; 0; 83; 186];
  Fullblocktests.coinbaseScriptFor := coinbaseScript;
  Fullblocktests.threadScriptFor := fun t =>
    Fullblocktests.Success [if t =? 0 then 0 else 80 + t; 187];
  Fullblocktests.returnDataScript := fun d =>
    Fullblocktests.Success (106 :: len d :: d);
  Fullblocktests.SignTxOutput := fun _ _ _ => [1];
  Fullblocktests.SerializeCompressed := fun k => k;
  Fullblocktests.keyIDBytes := fun k => [k mod 256; (k / 256) mod 256;
                                         (k / 65536) mod 256; 0];
  Fullblocktests.pubKey1 := someKey;
  Fullblocktests.pubKey2 := 3 :: replicate 32 9;
  Fullblocktests.OP_ISSUINGKEYADD := 3;
  Fullblocktests.OP_ISSUINGKEYREVOKE := 4;
  Fullblocktests.OP_WSPKEYADD := 19;
  Fullblocktests.ErrMissingTx := 9
|}.

(** The environment of the examples: every script builder succeeds. *)
Definition genv : Fullblocktests.GenEnv :=
  genvWith (fun height extraNonce =>
              Fullblocktests.Success [height mod 256; extraNonce mod 256]).

(** The same, except that the coinbase script of height 102 (block b2)
    cannot be built. *)
Definition genvFailing : Fullblocktests.GenEnv :=
  genvWith (fun height extraNonce =>
              if height =? 102
              then Fullblocktests.Failure "adding data would exceed the script size"
              else Fullblocktests.Success [height mod 256; extraNonce mod 256]).

(** A header to solve: with target 30000 the nonces 1, 2 and 4 solve it,
    3 does not. *)
Definition someHeader : BlockHeader :=
  mkBlockHeader 1 0 0 1500000120 30000 1 0 0 [].

(** Two munge functions that change the merkle root and then put it
    back, and two that do so with the nonce. *)
Definition bumpRoot (d : Z) : MsgBlock -> MsgBlock :=
  fun b => Fullblocktests.withHeader b
             (Fullblocktests.withMerkleRoot (Header b) (MerkleRoot (Header b) + d)).
Definition bumpNonce (d : Z) : MsgBlock -> MsgBlock :=
  fun b => Fullblocktests.withHeader b
             (Fullblocktests.withNonce (Header b) (Nonce (Header b) + d)).

(** The generator on the genesis block of [regtest]. *)
Definition genesisGenerator : Fullblocktests.testGenerator (G := genv) :=
  Fullblocktests.makeTestGenerator (G := genv) regtest.

End Std.

(** The parameters of [TxscriptInfo], and more inputs, for the examples. *)
Module StdInfo.
Import Wire Txscript TxscriptInfo Std.

(** An instance of the parameters, for the examples only (no universally
    quantified theorem depends on it): a script is push-only when every
    opcode is at most [OP_16]; the signature operations counted are the
    multi-signature terminators; an address is the hash and the key ids
    it was made from. *)
Definition infoEnv : InfoEnv := {|
  isPushOnly := fun pops => forallb (fun pop => value (pop_opcode pop) <=? OP_16) pops;
  getSigOpCount := fun pops _ =>
    len (filter (fun pop => value (pop_opcode pop) = 186) pops);
  Address := list Z * list Z;
  ChainParams := unit;
  NewAddressAztec := fun hash keyIDs _ =>
    if len hash =? 20 then Some (hash, keyIDs) else None
|}.

(** [OP_2 <20-byte hash> <keyid> <keyid> OP_3 OP_CHECKSAFEMULTISIG] with
    the key ids [k0] and [k1] (one byte each, then three zero bytes). *)
Definition twoOfThree (k0 k1 : Z) : list parsedOpcode :=
  [ opOnly 82; pushData (replicate 20 9);
    pushData [k0; 0; 0; 0]; pushData [k1; 0; 0; 0];
    opOnly 83; opOnly 186 ].

Definition twoOfThreeBytes (k0 k1 : Z) : list Z :=
  [82; 20] ++ replicate 20 9 ++ [4; k0; 0; 0; 0; 4; k1; 0; 0; 0; 83; 186].

(** [OP_RETURN <four bytes>]. *)
Definition returnDataBytes : list Z := [106; 4; 1; 2; 3; 4].

(** The state [Generate] starts from, on the genesis block of
    [regtest]. *)
Definition startState : Fullblocktests.genState (G := genv) :=
  Fullblocktests.mkGenState genesisGenerator None.

(** A munge function that sets the bits of the header. *)
Definition lowerBits (bits : Z) : MsgBlock -> MsgBlock :=
  fun b =>
    Fullblocktests.withHeader b
      (mkBlockHeader (Version (Header b)) (PrevBlock (Header b))
         (MerkleRoot (Header b)) (Timestamp (Header b)) bits
         (Height (Header b)) (Size (Header b)) (Nonce (Header b))
         (Signature (Header b))).

End StdInfo.


(* ===================================================================== *)
(** * Part III: what the code does                                        *)
(* ===================================================================== *)

Section ClassifierFacts.
Import Wire Txscript.
Context {E : ScriptEnv}.

Lemma len_nil {A} : len (@nil A) = 0.
Proof. reflexivity. Qed.

Lemma len_cons {A} (x : A) (l : list A) : len (x :: l) = 1 + len l.
Proof. unfold len. cbn [length]. lia. Qed.

Lemma len_app {A} (l1 l2 : list A) : len (l1 ++ l2) = len l1 + len l2.
Proof. unfold len. rewrite length_app. lia. Qed.

Lemma len_nonneg {A} (l : list A) : 0 <= len l.
Proof. unfold len. lia. Qed.

Lemma filter_Forall_id {A} (P : A -> Prop) `{forall x, Decision (P x)}
    (l : list A) :
  Forall P l -> filter P l = l.
Proof.
  induction 1 as [|x l Hx _ IH]; [done|].
  rewrite filter_cons_True by done. by rewrite IH.
Qed.

Lemma len_2_inv {A} (l : list A) : len l = 2 -> exists a b, l = [a; b].
Proof.
  destruct l as [|a [|b [|c l]]]; unfold len; cbn [length]; intros Hl;
    try lia.
  by exists a, b.
Qed.

(** A script of five operations or fewer is no generalized script. *)
Lemma isGeneralAztec_short (pops : list parsedOpcode) :
  len pops < 6 -> isGeneralAztec pops = false.
Proof.
  intros Hl. unfold isGeneralAztec.
  destruct (Z.ltb_spec (len pops) 6); [done | lia].
Qed.

Lemma isAztec_short (pops : list parsedOpcode) :
  len pops < 6 -> isAztec pops = false.
Proof.
  intros Hl. unfold isAztec.
  destruct (Z.eqb_spec (len pops) 6); [lia | done].
Qed.

(** [isAztecAdmin] is exactly the thread-script shape. *)
Lemma isAztecAdmin_iff (pops : list parsedOpcode) :
  isAztecAdmin pops = true <-> threadScriptShape pops.
Proof.
  unfold isAztecAdmin, threadScriptShape. split.
  - destruct (Z.eqb_spec (len pops) 2) as [Hl|]; cbn [negb]; [|done].
    destruct (len_2_inv _ Hl) as (p0 & p1 & ->).
    change (at_ [p0; p1] (len [p0; p1] - 1)) with p1.
    change (at_ [p0; p1] 0) with p0.
    destruct (Z.eqb_spec (value (pop_opcode p1)) OP_CHECKTHREAD);
      cbn [negb]; [|done].
    destruct (Z.ltb_spec (asSmallInt (pop_opcode p0)) RootThread);
      cbn [orb]; [done|].
    destruct (Z.gtb_spec (asSmallInt (pop_opcode p0)) IssueThread); [done|].
    intros _. exists p0, p1. repeat split; [done | lia | lia].
  - intros (p0 & p1 & -> & Hv & Hlo & Hhi).
    change (len [p0; p1]) with 2. cbn [Z.eqb Pos.eqb negb].
    change (at_ [p0; p1] (2 - 1)) with p1.
    change (at_ [p0; p1] 0) with p0.
    rewrite Hv, Z.eqb_refl. cbn [negb].
    destruct (Z.ltb_spec (asSmallInt (pop_opcode p0)) RootThread); [lia|].
    destruct (Z.gtb_spec (asSmallInt (pop_opcode p0)) IssueThread); [lia|].
    done.
Qed.

(** C6.  Classification is total and gives one class: a script that does
    not parse is [NonStandardTy]; a script that parses is classified by
    the first test that succeeds, in the order null data, 2-of-3, general
    m-of-n, admin thread, and is [NonStandardTy] when none does. *)
Theorem GetScriptClass_precedence (script : list Z) :
  (ParseScript script = None -> GetScriptClass script = NonStandardTy) /\
  (forall pops, ParseScript script = Some pops ->
     (isNullData pops = true -> GetScriptClass script = NullDataTy) /\
     (isNullData pops = false -> isAztec pops = true ->
        GetScriptClass script = AztecTy) /\
     (isNullData pops = false -> isAztec pops = false ->
        isGeneralAztec pops = true -> GetScriptClass script = GeneralAztecTy) /\
     (isNullData pops = false -> isAztec pops = false ->
        isGeneralAztec pops = false -> isAztecAdmin pops = true ->
        GetScriptClass script = AztecAdminTy) /\
     (isNullData pops = false -> isAztec pops = false ->
        isGeneralAztec pops = false -> isAztecAdmin pops = false ->
        GetScriptClass script = NonStandardTy)) /\
  (GetScriptClass script = NonStandardTy \/
   GetScriptClass script = NullDataTy \/
   GetScriptClass script = AztecTy \/
   GetScriptClass script = GeneralAztecTy \/
   GetScriptClass script = AztecAdminTy).
Proof.
  unfold GetScriptClass, typeOfScript.
  destruct (ParseScript script) as [pops|]; split_and!; try done.
  - intros pops' [= <-]. split_and!; intros; repeat
      match goal with H : _ = _ |- _ => rewrite H end; done.
  - destruct (isNullData pops), (isAztec pops), (isGeneralAztec pops),
      (isAztecAdmin pops); tauto.
  - by left.
Qed.

(** C2, as the code has it.  For a sequence that is neither null data
    nor a 2-of-3 nor a general m-of-n script, the class is [AztecAdminTy]
    exactly when the sequence is a thread script: two operations, the
    second [OP_CHECKTHREAD], the first reading as a thread id from root
    to issue. *)
Theorem typeOfScript_AztecAdmin_iff (pops : list parsedOpcode) :
  isNullData pops = false ->
  isAztec pops = false ->
  isGeneralAztec pops = false ->
  typeOfScript pops = AztecAdminTy <-> threadScriptShape pops.
Proof.
  intros Hn Ha Hg. unfold typeOfScript. rewrite Hn, Ha, Hg.
  rewrite <- isAztecAdmin_iff.
  destruct (isAztecAdmin pops); split; done.
Qed.

(** A return-marker followed by one push of at most 80 bytes, made with
    a push opcode, is null data, whatever it carries: the 34- and 38-byte
    admin payloads never reach the admin test. *)
Lemma return_push_is_NullData (p0 p1 : parsedOpcode) :
  value (pop_opcode p0) = OP_RETURN ->
  value (pop_opcode p1) <= OP_PUSHDATA4 ->
  len (data p1) <= MaxDataCarrierSize ->
  typeOfScript [p0; p1] = NullDataTy.
Proof.
  intros H0 H1 H2. unfold typeOfScript, isNullData.
  change (len [p0; p1]) with 2.
  change (at_ [p0; p1] 0) with p0. change (at_ [p0; p1] 1) with p1.
  rewrite H0, Z.eqb_refl. cbn [Z.eqb Pos.eqb andb].
  destruct (Z.leb_spec (value (pop_opcode p1)) OP_PUSHDATA4); [|lia].
  destruct (Z.leb_spec (len (data p1)) MaxDataCarrierSize); [|lia].
  done.
Qed.

(** On the issue thread no script is a valid admin operation. *)
Lemma IsValidAdminOp_issue (pops : list parsedOpcode) :
  IsValidAdminOp pops IssueThread = false.
Proof.
  unfold IsValidAdminOp.
  repeat match goal with
         | |- (if ?c then _ else _) = _ => destruct c; try done
         | |- match ?c with _ => _ end = _ => destruct c as [[? ?]|]; try done
         end.
Qed.

(** What a successful [ExtractAdminData] tells: the payload starts with
    the operation, and is 38 bytes long for a WSP operation and 34 bytes
    long for any other. *)
Lemma ExtractAdminData_Some (pops : list parsedOpcode) (op : Z) (key : PublicKey) :
  ExtractAdminData pops = Some (op, key) ->
  exists p0 p1 rest,
    pops = [p0; p1] /\ data p1 = op :: rest /\
    value (pop_opcode p0) = OP_RETURN /\
    isAdminOp op = true /\
    (if isWspOp op then len (data p1) = 38 else len (data p1) = 34).
Proof.
  unfold ExtractAdminData.
  destruct pops as [|p0 [|p1 [|? ?]]]; try done.
  destruct (data p1) as [|op' rest] eqn:Hd; [done|].
  destruct (Z.eqb_spec (value (pop_opcode p0)) OP_RETURN) as [Hret|];
    cbn [negb]; [|done].
  destruct (isAdminOp op') eqn:Hop; cbn [negb]; [|done].
  destruct (isWspOp op') eqn:Hw; cbn [negb andb orb].
  - rewrite andb_false_r, andb_true_r. cbn [orb].
    destruct (Z.eqb_spec (len (op' :: rest))
                (1 + PubKeyBytesLenCompressed + KeyIDSize)) as [Hl|];
      [|intros HN; discriminate HN].
    destruct (ParsePubKey _); [|intros HN; discriminate HN]. intros [= <- <-].
    exists p0, p1, rest. rewrite Hw, Hd.
    split_and!; [done | done | done | done | exact Hl].
  - rewrite andb_true_r, andb_false_r, orb_false_r.
    destruct (Z.eqb_spec (len (op' :: rest))
                (1 + PubKeyBytesLenCompressed)) as [Hl|];
      [|intros HN; discriminate HN].
    destruct (ParsePubKey _); [|intros HN; discriminate HN]. intros [= <- <-].
    exists p0, p1, rest. rewrite Hw, Hd.
    split_and!; [done | done | done | done | exact Hl].
Qed.

(** C3.  For a script [OP_RETURN <push>] whose push is made with
    [OP_DATA_34] or [OP_DATA_38] and whose payload decodes to operation
    [op], [IsValidAdminOp] on a thread is the spec's mapping from the
    thread to its legal operations; on the issue thread it is false for
    every script. *)
Theorem IsValidAdminOp_legal :
  (forall (pops : list parsedOpcode) (thread : ThreadID) (op : Z)
          (key : PublicKey),
     len pops = 2 ->
     value (pop_opcode (at_ pops 0)) = OP_RETURN ->
     value (pop_opcode (at_ pops 1)) = OP_DATA_34 \/
     value (pop_opcode (at_ pops 1)) = OP_DATA_38 ->
     ExtractAdminData pops = Some (op, key) ->
     IsValidAdminOp pops thread = isLegalForThread op thread) /\
  (forall pops : list parsedOpcode, IsValidAdminOp pops IssueThread = false).
Proof.
  split; [|apply IsValidAdminOp_issue].
  intros pops thread op key Hl Hret Hpush Hex.
  destruct (ExtractAdminData_Some _ _ _ Hex)
    as (p0 & p1 & rest & -> & Hd & _ & _ & Hlen).
  unfold IsValidAdminOp, isLegalForThread. rewrite Hex, Hl.
  change (at_ [p0; p1] 0) with p0 in *. change (at_ [p0; p1] 1) with p1 in *.
  rewrite Hret, !Z.eqb_refl. cbn [negb].
  assert (negb (value (pop_opcode p1) =? OP_DATA_34) &&
          negb (value (pop_opcode p1) =? OP_DATA_38) = false) as ->.
  { destruct Hpush as [-> | ->]; rewrite Z.eqb_refl; cbn [negb andb];
      [done | by rewrite andb_false_r]. }
  destruct (thread =? RootThread).
  { destruct (_ || _ || _ || _); done. }
  destruct (thread =? ProvisionThread).
  2:{ destruct (thread =? IssueThread); done. }
  unfold isWspOp in Hlen.
  destruct (op =? OP_VALIDATEKEYADD), (op =? OP_VALIDATEKEYREVOKE),
    (op =? OP_WSPKEYADD), (op =? OP_WSPKEYREVOKE); cbn [orb] in *;
    try done; rewrite Hlen; done.
Qed.

(** C4.  Whatever the thread, an admin script whose payload starts with
    a WSP operation and is not 38 bytes long is rejected, and so is one
    whose payload starts with another operation and is 38 bytes long. *)
Theorem IsValidAdminOp_length_mismatch
    (pops : list parsedOpcode) (thread : ThreadID)
    (p1 : parsedOpcode) (op : Z) (rest : list Z) :
  pops !! 1%nat = Some p1 ->
  data p1 = op :: rest ->
  (isWspOp op = true /\ len (data p1) <> 38) \/
  (isWspOp op = false /\ len (data p1) = 38) ->
  IsValidAdminOp pops thread = false.
Proof.
  intros Hp1 Hd Hmis.
  destruct (ExtractAdminData pops) as [[op' key]|] eqn:Hex.
  - destruct (ExtractAdminData_Some _ _ _ Hex)
      as (q0 & q1 & rest' & -> & Hd' & _ & _ & Hlen).
    cbn in Hp1. injection Hp1 as ->.
    rewrite Hd in Hd'. injection Hd' as <- <-.
    destruct Hmis as [[Hw Hne] | [Hw He]]; rewrite Hw in Hlen; lia.
  - unfold IsValidAdminOp. rewrite Hex.
    repeat match goal with
           | |- (if ?c then _ else _) = _ => destruct c; try done
           end.
Qed.

(** The guard in [IsValidAdminOp] itself: on the provision thread an
    operation that is not one of the two validate-key operations is
    accepted only with a payload of 38 bytes, whatever the decoder lets
    through. *)
Lemma IsValidAdminOp_provision_38 (pops : list parsedOpcode)
    (op : Z) (key : PublicKey) :
  IsValidAdminOp pops ProvisionThread = true ->
  ExtractAdminData pops = Some (op, key) ->
  (op =? OP_VALIDATEKEYADD) || (op =? OP_VALIDATEKEYREVOKE) = false ->
  len (data (at_ pops 1)) = 38.
Proof.
  unfold IsValidAdminOp. intros Hv Hex Hnv. rewrite Hex, Hnv in Hv.
  destruct (negb (len pops =? 2)); [done|].
  destruct (negb (value (pop_opcode (at_ pops 0)) =? OP_RETURN)); [done|].
  destruct (negb _ && negb _); [done|].
  change (ProvisionThread =? RootThread) with false in Hv.
  change (ProvisionThread =? ProvisionThread) with true in Hv.
  cbn iota in Hv.
  destruct ((op =? OP_WSPKEYADD) || (op =? OP_WSPKEYREVOKE)); [|done].
  destruct (Z.eqb_spec (len (data (at_ pops 1)))
              (1 + PubKeyBytesLenCompressed + KeyIDSize)) as [Hl|Hl];
    [exact Hl | done].
Qed.

(** ** GetAdminDetails *)

Lemma parseOutputs_Some (outs : list TxOut) (parsed : list (list parsedOpcode)) :
  parseOutputs outs = Some parsed <->
  Forall2 (fun o pops => ParseScript (PkScript o) = Some pops) outs parsed.
Proof.
  revert parsed. induction outs as [|o outs IH]; intros parsed; cbn.
  - split.
    + intros [= <-]. constructor.
    + intros Hf. by inversion Hf.
  - split.
    + destruct (ParseScript (PkScript o)) as [pops|] eqn:Hp; [|done].
      destruct (parseOutputs outs) as [more|] eqn:Hm; [|done].
      intros [= <-]. constructor; [done|]. by apply IH.
    + intros Hf. inversion Hf as [|? pops ? more Hp Hrest]; subst.
      rewrite Hp. apply IH in Hrest. by rewrite Hrest.
Qed.

(** [GetAdminDetails] succeeds exactly when the transaction has a first
    output that parses, is classified as the admin thread script and
    yields a thread id, and all the outputs after it parse; it then
    returns the thread id and the parsed outputs after the first. *)
Lemma GetAdminDetails_Some (tx : MsgTx) (t : Z)
    (parsed : list (list parsedOpcode)) :
  GetAdminDetails tx = (t, Some parsed) <->
  exists o rest pops,
    TxOuts tx = o :: rest /\
    ParseScript (PkScript o) = Some pops /\
    typeOfScript pops = AztecAdminTy /\
    ExtractThreadID pops = Some t /\
    parseOutputs rest = Some parsed.
Proof.
  unfold GetAdminDetails, TypeOfScript.
  destruct (TxOuts tx) as [|o rest] eqn:Houts.
  { cbn. split; [done|]. by intros (? & ? & ? & ? & _). }
  rewrite len_cons.
  destruct (Z.ltb_spec (1 + len rest) 1) as [Hlt|_].
  { pose proof (len_nonneg rest). lia. }
  change (at_ (o :: rest) 0) with o. cbn [drop]. rewrite drop_0.
  split.
  - destruct (ParseScript (PkScript o)) as [pops|] eqn:Hp; [|done].
    case_bool_decide as Hty; cbn [negb]; [|done].
    destruct (ExtractThreadID pops) as [t'|] eqn:Ht; [|done].
    destruct (parseOutputs rest) as [parsed'|] eqn:Hr; [|done].
    intros [= <- <-]. by exists o, rest, pops.
  - intros (o' & rest' & pops & [= <- <-] & Hp & Hty & Ht & Hr).
    rewrite Hp. rewrite bool_decide_eq_true_2 by done. cbn [negb].
    by rewrite Ht, Hr.
Qed.

(** Every other run of [GetAdminDetails] reports thread -1 and no
    outputs. *)
Lemma GetAdminDetails_cases (tx : MsgTx) :
  GetAdminDetails tx = (-1, None) \/
  exists t parsed, GetAdminDetails tx = (t, Some parsed).
Proof.
  unfold GetAdminDetails.
  repeat match goal with
         | |- context [if ?c then _ else _] => destruct c
         | |- context [match ?c with Some _ => _ | None => _ end] =>
             destruct c
         end; eauto.
Qed.

(** C5, where the code parts from it.  A transaction with a single
    output, that output a thread script: [GetAdminDetails] reports the
    thread id and an empty list of admin outputs, not the failure the
    comment in the code ("We expect at least one additional") calls
    for. *)
Theorem GetAdminDetails_single_output (ins : list TxIn) (o : TxOut)
    (pops : list parsedOpcode) (t : Z) :
  ParseScript (PkScript o) = Some pops ->
  typeOfScript pops = AztecAdminTy ->
  ExtractThreadID pops = Some t ->
  GetAdminDetails (mkMsgTx ins [o]) = (t, Some []).
Proof.
  intros Hp Hty Ht. apply GetAdminDetails_Some.
  by exists o, [], pops.
Qed.

(** ** The loop of isGeneralAztec *)

Lemma scanKeys_app (st : keyScan) (l1 l2 : list parsedOpcode) :
  scanKeys st (l1 ++ l2) =
  match scanKeys st l1 with
  | Some st' => scanKeys st' l2
  | None => None
  end.
Proof.
  revert st. induction l1 as [|pop l1 IH]; intros st; cbn; [done|].
  destruct (scanKey st pop); [apply IH | done].
Qed.

(** An operation the loop does not look at leaves its state as it is:
    the loop has no branch that rejects it. *)
Lemma scanKey_not_scanned (st : keyScan) (pop : parsedOpcode) :
  isScanned pop = false -> scanKey st pop = Some st.
Proof.
  unfold isScanned, isHashPush, scanKey. intros Hs.
  apply orb_false_iff in Hs as [-> ->]. done.
Qed.

Lemma scanKeys_filter (st : keyScan) (l : list parsedOpcode) :
  scanKeys st l = scanKeys st (filter (fun pop => isScanned pop = true) l).
Proof.
  revert st. induction l as [|pop l IH]; intros st; [done|].
  rewrite filter_cons. case_decide as Hs.
  - cbn. destruct (scanKey st pop); [apply IH | done].
  - cbn. rewrite scanKey_not_scanned by by destruct (isScanned pop).
    apply IH.
Qed.

Lemma scanKeys_hashes (st : keyScan) (hashes : list parsedOpcode) :
  Forall (fun pop => isHashPush pop = true) hashes ->
  nKeyIDs st <= 0 ->
  scanKeys st hashes =
  Some (mkKeyScan (nKeyIDs st) (nKeyHashes st + len hashes) (seenKeyIDs st)).
Proof.
  intros Hf. revert st. induction Hf as [|pop hashes Hp _ IH]; intros st Hn.
  - cbn. change (len (@nil parsedOpcode)) with 0. rewrite Z.add_0_r.
    by destruct st.
  - cbn. unfold scanKey. unfold isHashPush in Hp. rewrite Hp.
    destruct (Z.ltb_spec 0 (nKeyIDs st)); [lia|].
    rewrite IH by done. cbn. rewrite len_cons. do 2 f_equal. lia.
Qed.

Lemma scanKeys_keyIDs (st : keyScan) (keys : list parsedOpcode) :
  Forall (fun pop => isKeyIDPush pop = true) keys ->
  NoDup (omap asInt32 keys) ->
  (forall k, k ∈ omap asInt32 keys -> seenKeyIDs st !! k = None) ->
  exists seen,
    scanKeys st keys =
    Some (mkKeyScan (nKeyIDs st + len keys) (nKeyHashes st) seen).
Proof.
  intros Hf. revert st.
  induction Hf as [|pop keys Hp _ IH]; intros st Hnd Hfresh.
  - exists (seenKeyIDs st). cbn. change (len (@nil parsedOpcode)) with 0.
    rewrite Z.add_0_r. by destruct st.
  - unfold isKeyIDPush, isHashPush in Hp.
    apply andb_true_iff in Hp as [Hp Hsome].
    apply andb_true_iff in Hp as [Hlen Hu].
    apply bool_decide_eq_true in Hsome as [k Hk].
    apply negb_true_iff in Hlen.
    cbn in Hnd, Hfresh. rewrite Hk in Hnd, Hfresh.
    apply NoDup_cons in Hnd as [Hnotin Hnd].
    cbn. unfold scanKey. rewrite Hlen, Hu, Hk.
    rewrite (Hfresh k) by apply list_elem_of_here.
    destruct (IH (mkKeyScan (nKeyIDs st + 1) (nKeyHashes st)
                            (<[k := true]> (seenKeyIDs st)))) as [seen Hs].
    + done.
    + intros k' Hin. cbn. rewrite lookup_insert_ne.
      * apply Hfresh. by apply list_elem_of_further.
      * intros ->. done.
    + exists seen. rewrite Hs. cbn. rewrite len_cons. do 2 f_equal. lia.
Qed.

(** What a successful run of the loop over operations it looks at tells
    about them. *)
Lemma scanKeys_Some_inv (st st' : keyScan) (l : list parsedOpcode) :
  Forall (fun pop => isScanned pop = true) l ->
  0 <= nKeyIDs st ->
  scanKeys st l = Some st' ->
  exists hashes keys,
    l = hashes ++ keys /\
    Forall (fun pop => isHashPush pop = true) hashes /\
    Forall (fun pop => isKeyIDPush pop = true) keys /\
    NoDup (omap asInt32 keys) /\
    (forall k, k ∈ omap asInt32 keys -> seenKeyIDs st !! k = None) /\
    (0 < nKeyIDs st -> hashes = []) /\
    nKeyHashes st' = nKeyHashes st + len hashes /\
    nKeyIDs st' = nKeyIDs st + len keys.
Proof.
  intros Hf. revert st.
  induction Hf as [|pop l Hp _ IH]; intros st Hn Hs.
  - cbn in Hs. injection Hs as <-. exists [], [].
    change (len (@nil parsedOpcode)) with 0.
    split_and!; try done; try lia.
    + constructor.
    + intros k Hk. by apply elem_of_nil in Hk.
  - cbn in Hs. unfold scanKey in Hs. unfold isScanned, isHashPush in Hp.
    destruct (len (data pop) =? 20) eqn:Hlen.
    + destruct (Z.ltb_spec 0 (nKeyIDs st)) as [|Hz]; [done|].
      apply IH in Hs as (hs & ks & -> & Hhs & Hks & Hnd & Hfr & Hhd & Hh & Hk);
        [|cbn; lia].
      cbn in *. exists (pop :: hs), ks. rewrite len_cons.
      split_and!; try done; try lia.
      constructor; [|done]. unfold isHashPush. by rewrite Hlen.
    + cbn [orb] in Hp. rewrite Hp in Hs.
      destruct (asInt32 pop) as [k|] eqn:Hk; [|done].
      destruct (seenKeyIDs st !! k) eqn:Hseen; [done|].
      apply IH in Hs as (hs & ks & -> & Hhs & Hks & Hnd & Hfr & Hhd & Hh & Hkk);
        [|cbn; lia].
      cbn in *. rewrite Hhd in * by lia. cbn [app] in *.
      exists [], (pop :: ks). rewrite len_cons.
      change (len (@nil parsedOpcode)) with 0 in *. cbn. rewrite Hk.
      split_and!; try done; try lia.
      * constructor; [|done]. unfold isKeyIDPush, isHashPush.
        rewrite Hlen, Hp. cbn. rewrite Hk.
        by apply bool_decide_eq_true_2.
      * apply NoDup_cons. split; [|done].
        intros Hin. apply Hfr in Hin. by rewrite lookup_insert_eq in Hin.
      * intros k' [->|Hin]%elem_of_cons; [done|].
        apply Hfr in Hin. apply lookup_insert_None in Hin as [? _]. done.
Qed.

Lemma len_slice {A} (l : list A) (lo hi : Z) :
  0 <= lo -> lo <= hi -> hi <= len l -> len (slice l lo hi) = hi - lo.
Proof.
  unfold len, slice. intros ? ? ?.
  rewrite length_take, length_drop. lia.
Qed.

Lemma len_keyOps (pops : list parsedOpcode) :
  3 <= len pops -> len (keyOps pops) = len pops - 3.
Proof.
  intros Hl. unfold keyOps. rewrite len_slice; lia.
Qed.

(** [isGeneralAztec] is exactly the m-of-n shape on the operations its
    loop looks at. *)
Lemma isGeneralAztec_iff (pops : list parsedOpcode) :
  isGeneralAztec pops = true <-> generalAztecShape pops.
Proof.
  unfold isGeneralAztec, generalAztecShape, multisigFrame, hashesThenKeyIDs.
  fold (keyOps pops).
  set (nSigs := asSmallInt (pop_opcode (at_ pops 0))).
  set (nKeys := asSmallInt (pop_opcode (at_ pops (len pops - 2)))).
  rewrite (scanKeys_filter _ (keyOps pops)).
  split.
  - destruct (Z.ltb_spec (len pops) 6) as [|Hl]; [done|].
    destruct (isSmallInt (pop_opcode (at_ pops 0))); cbn [negb]; [|done].
    destruct (isSmallInt (pop_opcode (at_ pops (len pops - 2))));
      cbn [negb]; [|done].
    destruct (Z.eqb_spec (value (pop_opcode (at_ pops (len pops - 1))))
                OP_CHECKSAFEMULTISIG) as [Hop|]; cbn [negb]; [|done].
    destruct (Z.ltb_spec nSigs 2) as [|Hs]; [done|].
    destruct (Z.eqb_spec (len pops - 2 - 1) nKeys) as [Hk|]; cbn [negb];
      [|done].
    destruct (scanKeys _ _) as [st|] eqn:Hscan; [|done].
    destruct (Z.geb_spec (nKeyHashes st) nSigs) as [|Hh]; [done|].
    destruct (Z.ltb_spec (nKeyIDs st) nSigs) as [|Hi]; [done|].
    intros _.
    apply scanKeys_Some_inv in Hscan
      as (hs & ks & Heq & Hhs & Hks & Hnd & _ & _ & Hnh & Hnk); cbn in *.
    + split; [split_and!; try done; rewrite len_keyOps; lia|].
      exists hs, ks. split_and!; try done; lia.
    + apply Forall_forall. intros pop Hin.
      by apply list_elem_of_filter in Hin as [? _].
    + done.
  - intros [(Hl & Hi0 & Hs & Hop & Hi1 & Hk)
            (hs & ks & Heq & Hhs & Hks & Hnd & Hnh & Hnk)].
    destruct (Z.ltb_spec (len pops) 6); [lia|].
    rewrite Hi0, Hi1, Hop, Z.eqb_refl. cbn [negb].
    destruct (Z.ltb_spec nSigs 2); [lia|].
    rewrite len_keyOps in Hk by lia.
    destruct (Z.eqb_spec (len pops - 2 - 1) nKeys); [|lia]. cbn [negb].
    rewrite Heq, scanKeys_app, scanKeys_hashes by done. cbn.
    destruct (scanKeys_keyIDs (mkKeyScan 0 (0 + len hs) ∅) ks) as [seen ->];
      [done | done | intros; apply lookup_empty |].
    cbn.
    destruct (Z.geb_spec (0 + len hs) nSigs); [lia|].
    destruct (Z.ltb_spec (0 + len ks) nSigs); [lia|]. done.
Qed.

Lemma hashesThenKeyIDs_all (nSigs : Z) (l : list parsedOpcode) :
  hashesThenKeyIDs nSigs l ->
  Forall (fun pop => isHashPush pop || isKeyIDPush pop = true) l.
Proof.
  intros (hs & ks & -> & Hhs & Hks & _). apply Forall_app. split.
  - eapply Forall_impl; [exact Hhs|]. intros pop ->. done.
  - eapply Forall_impl; [exact Hks|]. intros pop ->. apply orb_true_r.
Qed.

(** The shape the spec gives is accepted by the code: with every
    operation between the counts a hash push or a KeyID push, the loop
    looks at all of them. *)
Lemma generalAdminAuthShape_accepted (pops : list parsedOpcode) :
  generalAdminAuthShape pops -> isGeneralAztec pops = true.
Proof.
  intros [Hframe Hkeys]. apply isGeneralAztec_iff. split; [done|].
  assert (filter (fun pop => isScanned pop = true) (keyOps pops) = keyOps pops)
    as ->; [|done].
  apply filter_Forall_id, Forall_forall.
  pose proof (hashesThenKeyIDs_all _ _ Hkeys) as Hall.
  rewrite Forall_forall in Hall. intros pop Hin. specialize (Hall pop Hin).
  unfold isScanned, isKeyIDPush in *.
  destruct (isHashPush pop); [done|].
  cbn in *. by destruct (isUint32 (pop_opcode pop)).
Qed.

(** The class is [GeneralAztecTy] exactly when the two tests before it
    fail and [isGeneralAztec] succeeds. *)
Lemma typeOfScript_GeneralAztec (pops : list parsedOpcode) :
  typeOfScript pops = GeneralAztecTy <->
  isNullData pops = false /\ isAztec pops = false /\
  isGeneralAztec pops = true.
Proof.
  unfold typeOfScript.
  destruct (isNullData pops), (isAztec pops), (isGeneralAztec pops),
    (isAztecAdmin pops); split; try done; intros (? & ? & ?); done.
Qed.

End ClassifierFacts.

(* ===================================================================== *)
(** * The classifier on concrete scripts                                  *)
(* ===================================================================== *)

Section ClassifierExamples.
Import Wire Txscript Std.

(** C1, where the code parts from it.  The script
    [OP_2 <keyid> <keyid> OP_NOP OP_NOP OP_4 OP_CHECKSAFEMULTISIG] is
    neither null data nor a 2-of-3 script and is classified
    [GeneralAztecTy], from its operations and from its bytes, although two
    of the operations between the counts are neither a hash push nor a
    KeyID push: the loop of [isGeneralAztec] has no branch that rejects
    them. *)
Theorem paddedScript_GeneralAztec :
  isNullData (E := env) paddedScript = false /\
  isAztec (E := env) paddedScript = false /\
  typeOfScript (E := env) paddedScript = GeneralAztecTy /\
  GetScriptClass (E := env) paddedScriptBytes = GeneralAztecTy /\
  ~ generalAdminAuthShape (E := env) paddedScript.
Proof.
  split_and!; [reflexivity | reflexivity | reflexivity | reflexivity |].
  intros [_ Hkeys]. apply hashesThenKeyIDs_all in Hkeys.
  rewrite Forall_forall in Hkeys.
  specialize (Hkeys (opOnly OP_NOP)).
  assert (opOnly OP_NOP ∈ keyOps paddedScript) as Hin.
  { vm_compute. do 2 apply list_elem_of_further. apply list_elem_of_here. }
  specialize (Hkeys Hin). vm_compute in Hkeys. discriminate Hkeys.
Qed.

(** C2 fails on the thread script of the root thread: none of the three
    tests before the admin test holds of it and its class is
    [AztecAdminTy], but it is no return-marker followed by a push of 34
    or 38 bytes. *)
Lemma rootThreadScript_not_adminOpShape :
  isNullData (E := env) rootThreadScript = false /\
  isAztec (E := env) rootThreadScript = false /\
  isGeneralAztec (E := env) rootThreadScript = false /\
  ~ (typeOfScript (E := env) rootThreadScript = AztecAdminTy <->
     adminOpShape (E := env) rootThreadScript).
Proof.
  split_and!; [reflexivity | reflexivity | reflexivity |].
  intros [Hto _].
  destruct Hto as (p0 & p1 & Heq & Hret & _); [vm_compute; reflexivity|].
  injection Heq as <- <-. vm_compute in Hret. discriminate Hret.
Qed.

(** The admin scripts of the spec, [OP_RETURN <34 or 38 bytes>], are
    classified as null data. *)
Lemma adminScript_NullData :
  typeOfScript (E := env) (adminScript (adminPayload 3)) = NullDataTy /\
  typeOfScript (E := env) (adminScript (wspPayload 19)) = NullDataTy.
Proof. split; vm_compute; reflexivity. Qed.

Lemma typeOfScript_AztecAdmin_iff_witness :
  isNullData (E := env) rootThreadScript = false /\
  isAztec (E := env) rootThreadScript = false /\
  isGeneralAztec (E := env) rootThreadScript = false /\
  (typeOfScript (E := env) rootThreadScript = AztecAdminTy <->
   threadScriptShape (E := env) rootThreadScript).
Proof.
  split_and!; [reflexivity | reflexivity | reflexivity |].
  apply (typeOfScript_AztecAdmin_iff (E := env) rootThreadScript);
    reflexivity.
Defined.

Lemma IsValidAdminOp_legal_witness :
  len (adminScript (wspPayload 19)) = 2 /\
  ExtractAdminData (E := env) (adminScript (wspPayload 19))
    = Some (19, someKey) /\
  IsValidAdminOp (E := env) (adminScript (wspPayload 19)) ProvisionThread
    = isLegalForThread (E := env) 19 ProvisionThread.
Proof.
  split_and!; [reflexivity | reflexivity |].
  apply (proj1 (IsValidAdminOp_legal (E := env))
           (adminScript (wspPayload 19)) ProvisionThread 19 someKey);
    [reflexivity | reflexivity | right; reflexivity | reflexivity].
Defined.

Lemma IsValidAdminOp_length_mismatch_witness :
  isWspOp (E := env) 19 = true /\
  len (data (pushData (adminPayload 19))) <> 38 /\
  IsValidAdminOp (E := env) (adminScript (adminPayload 19)) ProvisionThread
    = false.
Proof.
  split_and!; [reflexivity | vm_compute; discriminate |].
  apply (IsValidAdminOp_length_mismatch (E := env)
           (adminScript (adminPayload 19)) ProvisionThread
           (pushData (adminPayload 19)) 19 someKey);
    [reflexivity | reflexivity |].
  left. split; [reflexivity | vm_compute; discriminate].
Defined.

Lemma GetAdminDetails_single_output_witness :
  ParseScript (ScriptEnv := env) rootThreadScriptBytes = Some rootThreadScript /\
  typeOfScript (E := env) rootThreadScript = AztecAdminTy /\
  GetAdminDetails (E := env) (mkMsgTx [] [mkTxOut 0 rootThreadScriptBytes])
    = (0, Some []).
Proof.
  split_and!; [reflexivity | reflexivity |].
  apply (GetAdminDetails_single_output (E := env) []
           (mkTxOut 0 rootThreadScriptBytes) rootThreadScript 0);
    reflexivity.
Defined.

Lemma GetScriptClass_precedence_witness :
  ParseScript (ScriptEnv := env) paddedScriptBytes = Some paddedScript /\
  GetScriptClass (E := env) paddedScriptBytes = GeneralAztecTy.
Proof.
  split; [reflexivity|].
  destruct (GetScriptClass_precedence (E := env) paddedScriptBytes)
    as (_ & Hparsed & _).
  destruct (Hparsed paddedScript eq_refl) as (_ & _ & Hgen & _).
  apply Hgen; reflexivity.
Defined.

End ClassifierExamples.

(* ===================================================================== *)
(** * The generator                                                       *)
(* ===================================================================== *)

Section SolverFacts.
Import Wire Fullblocktests.
Context {G : GenEnv}.

Lemma u32_small (x : Z) : 0 <= x < 2 ^ 32 -> u32 x = x.
Proof. intros Hx. unfold u32. by apply Z.mod_small. Qed.

Lemma u32_range (x : Z) : 0 <= u32 x < 2 ^ 32.
Proof. unfold u32. apply Z.mod_pos_bound. lia. Qed.

Lemma withNonce_withNonce (h : BlockHeader) (n m : Z) :
  withNonce (withNonce h n) m = withNonce h m.
Proof. reflexivity. Qed.

Lemma Nonce_withNonce (h : BlockHeader) (n : Z) : Nonce (withNonce h n) = n.
Proof. reflexivity. Qed.

(** The range of goroutine [i], without the wrap-around: nothing wraps
    for a number of cores that fits 32 bits. *)
Lemma coreRange_eq (numCores i : Z) :
  1 <= numCores < 2 ^ 32 -> 0 <= i < numCores ->
  coreRange numCores i =
  (1 + (2 ^ 32 - 2) / numCores * i,
   if i =? numCores - 1 then 2 ^ 32 - 1
   else (2 ^ 32 - 2) / numCores * (i + 1)).
Proof.
  intros HN Hi. unfold coreRange, MaxUint32.
  rewrite (u32_small 1) by lia.
  rewrite (u32_small (2 ^ 32 - 1)) by lia.
  replace (2 ^ 32 - 1 - 1) with (2 ^ 32 - 2) by lia.
  set (npc := (2 ^ 32 - 2) / numCores).
  assert (0 <= npc) as Hnpc0 by (apply Z.div_pos; lia).
  assert (npc * numCores <= 2 ^ 32 - 2) as Hnpc.
  { unfold npc. rewrite Z.mul_comm. apply Z.mul_div_le. lia. }
  assert (npc * i <= npc * (i + 1) <= npc * numCores) as [Hm1 Hm2]
    by (split; apply Z.mul_le_mono_nonneg_l; lia).
  assert (0 <= npc * i) as Hm0 by (apply Z.mul_nonneg_nonneg; lia).
  rewrite (u32_small (numCores - 1)) by lia.
  rewrite (u32_small (i + 1)) by lia.
  rewrite (u32_small (npc * i)) by lia.
  rewrite (u32_small (npc * (i + 1))) by lia.
  rewrite (u32_small (1 + npc * i)) by lia.
  rewrite (u32_small (1 + npc * (i + 1))) by lia.
  rewrite (u32_small (1 + npc * (i + 1) - 1)) by lia.
  destruct (i =? numCores - 1); f_equal; lia.
Qed.

(** The ranges are inside [1, 2^32 - 1], each starts where the one
    before it stops, the first starts at 1, the last stops at 2^32 - 1,
    every nonce of [1, 2^32 - 1] is in a range and in one only. *)
Lemma coreRange_partition (numCores : Z) :
  1 <= numCores < 2 ^ 32 ->
  fst (coreRange numCores 0) = 1 /\
  snd (coreRange numCores (numCores - 1)) = 2 ^ 32 - 1 /\
  (forall i, 0 <= i < numCores - 1 ->
     fst (coreRange numCores (i + 1)) = snd (coreRange numCores i) + 1) /\
  (forall i n, 0 <= i < numCores -> inCoreRange numCores i n ->
     1 <= n <= 2 ^ 32 - 1) /\
  (forall n, 1 <= n <= 2 ^ 32 - 1 ->
     exists i, 0 <= i < numCores /\ inCoreRange numCores i n) /\
  (forall i j n, 0 <= i < numCores -> 0 <= j < numCores ->
     inCoreRange numCores i n -> inCoreRange numCores j n -> i = j).
Proof.
  intros HN. unfold inCoreRange.
  set (npc := (2 ^ 32 - 2) / numCores).
  assert (0 <= npc) as Hnpc0 by (apply Z.div_pos; lia).
  assert (npc * numCores <= 2 ^ 32 - 2) as Hnpc.
  { unfold npc. rewrite Z.mul_comm. apply Z.mul_div_le. lia. }
  assert (forall i, 0 <= i < numCores ->
            coreRange numCores i =
            (1 + npc * i,
             if i =? numCores - 1 then 2 ^ 32 - 1 else npc * (i + 1))) as Hr.
  { intros i Hi. by apply coreRange_eq. }
  split_and!.
  - rewrite Hr by lia. cbn. lia.
  - rewrite Hr by lia. cbn. by rewrite Z.eqb_refl.
  - intros i Hi. rewrite !Hr by lia. cbn.
    destruct (Z.eqb_spec i (numCores - 1)); lia.
  - intros i n Hi. rewrite Hr by done. cbn.
    assert (0 <= npc * i) by (apply Z.mul_nonneg_nonneg; lia).
    assert (npc * (i + 1) <= npc * numCores)
      by (apply Z.mul_le_mono_nonneg_l; lia).
    destruct (Z.eqb_spec i (numCores - 1)); lia.
  - intros n Hn.
    destruct (Z_le_gt_dec (1 + npc * (numCores - 1)) n) as [Hlast|Hbefore].
    + exists (numCores - 1). split; [lia|]. rewrite Hr by lia. cbn.
      rewrite Z.eqb_refl. lia.
    + assert (0 < npc) as Hpos.
      { destruct (Z.eq_dec npc 0) as [Hz|]; [|lia]. rewrite Hz in Hbefore. lia. }
      set (q := (n - 1) / npc).
      assert (npc * q <= n - 1 < npc * (q + 1)) as [Hq1 Hq2].
      { unfold q. split.
        - apply Z.mul_div_le. lia.
        - rewrite Z.mul_add_distr_l, Z.mul_1_r.
          pose proof (Z.mod_pos_bound (n - 1) npc Hpos).
          pose proof (Z.div_mod (n - 1) npc ltac:(lia)). lia. }
      assert (0 <= q) by (apply Z.div_pos; lia).
      assert (q < numCores - 1) by nia.
      exists q. split; [lia|]. rewrite Hr by lia. cbn.
      destruct (Z.eqb_spec q (numCores - 1)); lia.
  - intros i j n Hi Hj. rewrite !Hr by done. cbn.
    intros [Hi1 Hi2] [Hj1 Hj2].
    destruct (Z.lt_trichotomy i j) as [Hlt | [Heq | Hgt]]; [|done|].
    + exfalso. destruct (Z.eqb_spec i (numCores - 1)); [lia|].
      assert (npc * (i + 1) <= npc * j)
        by (apply Z.mul_le_mono_nonneg_l; lia). lia.
    + exfalso. destruct (Z.eqb_spec j (numCores - 1)); [lia|].
      assert (npc * (j + 1) <= npc * i)
        by (apply Z.mul_le_mono_nonneg_l; lia). lia.
Qed.

(** A result of a bounded loop is the result of one of its turns. *)
Lemma loopUpTo_inr {St R} (d : nat) (step : St -> St + R) (s : St) (r : R) :
  loopUpTo d step s = inr r -> exists s', step s' = inr r.
Proof.
  revert s. induction d as [|d IH]; intros s; cbn.
  - intros Hs. by exists s.
  - destruct (loopUpTo d step s) as [s1|r1] eqn:H1.
    + apply IH.
    + intros [= <-]. by apply (IH s).
Qed.

(** A bounded loop that has not stopped has run all its [2 ^ d] turns:
    a measure that every turn lowers has gone down by that much. *)
Lemma loopUpTo_inl {St R} (mu : St -> Z) (d : nat) (step : St -> St + R)
    (s s' : St) :
  (forall a b, step a = inl b -> 0 <= mu b < mu a) ->
  loopUpTo d step s = inl s' ->
  0 <= mu s' /\ mu s' + 2 ^ Z.of_nat d <= mu s.
Proof.
  intros Hmu. revert s s'. induction d as [|d IH]; intros s s'.
  - cbn. intros Hs. apply Hmu in Hs. lia.
  - cbn [loopUpTo]. destruct (loopUpTo d step s) as [s1|r1] eqn:H1; [|done].
    intros H2. apply IH in H1. apply IH in H2.
    rewrite Nat2Z.inj_succ, Z.pow_succ_r by lia. lia.
Qed.

(** A nonce a goroutine reports as found is in its range and solves the
    header. *)
Lemma solver_found (target : Z) (hdr : BlockHeader)
    (startNonce stopNonce : Z) (r : sbResult) :
  solver target hdr startNonce stopNonce = Some r ->
  found r = true ->
  startNonce <= nonce r <= stopNonce /\
  HashToBig (BlockHash (withNonce hdr (nonce r))) <= target.
Proof.
  unfold solver.
  destruct (loopUpTo _ _ _) as [|r'] eqn:Hloop; [done|].
  intros [= ->]. apply loopUpTo_inr in Hloop as [i Hi].
  unfold solverStep in Hi.
  destruct (Z.geb_spec i startNonce); cbn [andb] in Hi.
  2:{ injection Hi as <-. done. }
  destruct (Z.leb_spec i stopNonce).
  2:{ injection Hi as <-. done. }
  destruct (Z.leb_spec (HashToBig (BlockHash (withNonce hdr i))) target);
    [|done].
  injection Hi as <-. cbn. intros _. split; [lia | done].
Qed.

(** The loop of a goroutine ends: its range is above 0, so the nonce
    after the last 32-bit one, 0, is below the range. *)
Lemma solver_total (target : Z) (hdr : BlockHeader) (startNonce stopNonce : Z) :
  1 <= startNonce < 2 ^ 32 -> 0 <= stopNonce < 2 ^ 32 ->
  is_Some (solver target hdr startNonce stopNonce).
Proof.
  intros Hs Hp. unfold solver.
  destruct (loopUpTo _ _ _) as [i|r] eqn:Hloop; [|done].
  exfalso.
  apply (loopUpTo_inl
           (fun i => if i <? startNonce then 0 else 2 ^ 32 + 1 - i)) in Hloop.
  - destruct (Z.ltb_spec startNonce startNonce); [lia|].
    change (2 ^ Z.of_nat 33) with (2 * 2 ^ 32) in Hloop.
    destruct (i <? startNonce); lia.
  - intros a b. unfold solverStep.
    destruct (Z.geb_spec a startNonce); cbn [andb]; [|done].
    destruct (Z.leb_spec a stopNonce); [|done].
    destruct (HashToBig _ <=? target); [done|].
    intros [= <-].
    destruct (Z.ltb_spec a startNonce); [lia|].
    destruct (Z.eq_dec a (2 ^ 32 - 1)) as [->|].
    + change (u32 (2 ^ 32 - 1 + 1)) with 0.
      destruct (Z.ltb_spec 0 startNonce); lia.
    + rewrite u32_small by lia.
      destruct (Z.ltb_spec (a + 1) startNonce); lia.
Qed.

(** What the receiving loop returns with [true]: the header with the
    nonce of a delivered result that was found. *)
Lemma receive_true (n : nat) (results : list sbResult)
    (header header' : BlockHeader) :
  receive n results header = (true, header') ->
  exists r, r ∈ results /\ found r = true /\
            header' = withNonce header (nonce r).
Proof.
  revert n. induction results as [|r results IH]; intros [|n]; cbn; try done.
  destruct (found r) eqn:Hf.
  - intros [= <-]. exists r. split_and!; [apply list_elem_of_here | done | done].
  - intros Hr. destruct (IH _ Hr) as (r' & Hin & Hf' & Heq).
    exists r'. split_and!; [by apply list_elem_of_further | done | done].
Qed.

(** With a number of cores that fits 32 bits every goroutine has fuel
    for its range: [solveBlockWith] always yields a result. *)
Lemma solveBlockWith_total (numCores : Z) (order : list nat)
    (header : BlockHeader) :
  1 <= numCores < 2 ^ 32 ->
  is_Some (solveBlockWith numCores order header).
Proof.
  intros HN. unfold solveBlockWith.
  match goal with
  | |- is_Some (match mapM id ?d with _ => _ end) =>
      assert (is_Some (mapM id d)) as [results ->]; [|done]
  end.
  apply mapM_is_Some, Forall_forall. intros x Hx.
  apply list_elem_of_omap in Hx as (i & _ & Hw).
  destruct (Z.ltb_spec (Z.of_nat i) numCores) as [Hi|]; [|done].
  assert (0 <= Z.of_nat i < numCores) as Hi' by lia.
  destruct (coreRange_partition numCores HN) as (_ & _ & _ & Hin & _).
  pose proof (coreRange_eq numCores (Z.of_nat i) HN Hi') as Heq.
  destruct (coreRange numCores (Z.of_nat i)) as [rs rp] eqn:Hr.
  injection Hw as <-. cbn.
  injection Heq as -> ->.
  set (npc := (2 ^ 32 - 2) / numCores).
  assert (0 <= npc) as Hnpc0 by (apply Z.div_pos; lia).
  assert (npc * numCores <= 2 ^ 32 - 2) as Hnpc.
  { unfold npc. rewrite Z.mul_comm. apply Z.mul_div_le. lia. }
  assert (0 <= npc * Z.of_nat i) by (apply Z.mul_nonneg_nonneg; lia).
  assert (npc * Z.of_nat i <= npc * (Z.of_nat i + 1) <= npc * numCores)
    as [? ?] by (split; apply Z.mul_le_mono_nonneg_l; lia).
  apply solver_total; destruct (Z.eqb_spec (Z.of_nat i) (numCores - 1)); lia.
Qed.

(** A success of [solveBlockWith]: the header with a nonce of
    [1, 2^32 - 1] that solves it. *)
Lemma solveBlockWith_found (numCores : Z) (order : list nat)
    (header header' : BlockHeader) :
  1 <= numCores < 2 ^ 32 ->
  solveBlockWith numCores order header = Some (true, header') ->
  1 <= Nonce header' <= 2 ^ 32 - 1 /\
  header' = withNonce header (Nonce header') /\
  HashToBig (BlockHash header') <= CompactToBig (Bits header).
Proof.
  intros HN.
  destruct (coreRange_partition numCores HN) as (_ & _ & _ & Hin & _).
  unfold solveBlockWith.
  destruct (mapM id _) as [results|] eqn:Hres; [|done].
  intros [= Hrecv].
  apply receive_true in Hrecv as (r & Hr & Hfound & ->).
  apply mapM_Some in Hres.
  apply list_elem_of_lookup in Hr as [k Hk].
  destruct (Forall2_lookup_r _ _ _ _ _ Hres Hk) as (x & Hx & Hid).
  cbn in Hid. subst x.
  apply list_elem_of_lookup_2 in Hx.
  apply list_elem_of_omap in Hx as (i & _ & Hw).
  destruct (Z.ltb_spec (Z.of_nat i) numCores) as [Hi|]; [|done].
  destruct (coreRange numCores (Z.of_nat i)) as [rs rp] eqn:Hrange.
  injection Hw as Hw.
  apply solver_found in Hw as [Hnonce Hhash]; [|done].
  assert (1 <= nonce r <= 2 ^ 32 - 1) as Hb.
  { apply (Hin (Z.of_nat i)); [lia|]. unfold inCoreRange.
    by rewrite Hrange. }
  rewrite Nonce_withNonce. split_and!; [lia | lia | done | done].
Qed.

(** C8.  With a number of cores from 1 to 2^32 - 1: whenever
    [solveBlock] reports success, the header it leaves is the header it
    was given with the nonce set, that nonce lies in [1, 2^32 - 1] (so it
    is not 0), and the hash of the header as a big integer is at most the
    target of its [Bits]; the search always delivers; and the ranges of
    the goroutines start at 1, end at 2^32 - 1, follow one another without
    a gap, stay inside [1, 2^32 - 1], and every nonce of [1, 2^32 - 1] is
    in exactly one of them. *)
Theorem solveBlock_sound (numCores : Z) :
  1 <= numCores < 2 ^ 32 ->
  (forall (order : list nat) (header header' : BlockHeader),
     solveBlockWith numCores order header = Some (true, header') ->
     1 <= Nonce header' <= 2 ^ 32 - 1 /\
     Nonce header' <> 0 /\
     header' = withNonce header (Nonce header') /\
     HashToBig (BlockHash header') <= CompactToBig (Bits header)) /\
  (forall (order : list nat) (header : BlockHeader),
     is_Some (solveBlockWith numCores order header)) /\
  fst (coreRange numCores 0) = 1 /\
  snd (coreRange numCores (numCores - 1)) = 2 ^ 32 - 1 /\
  (forall i, 0 <= i < numCores - 1 ->
     fst (coreRange numCores (i + 1)) = snd (coreRange numCores i) + 1) /\
  (forall i n, 0 <= i < numCores -> inCoreRange numCores i n ->
     1 <= n <= 2 ^ 32 - 1) /\
  (forall n, 1 <= n <= 2 ^ 32 - 1 ->
     exists i, 0 <= i < numCores /\ inCoreRange numCores i n) /\
  (forall i j n, 0 <= i < numCores -> 0 <= j < numCores ->
     inCoreRange numCores i n -> inCoreRange numCores j n -> i = j).
Proof.
  intros HN.
  destruct (coreRange_partition numCores HN)
    as (Hfirst & Hlast & Hnext & Hin & Hcover & Hdisj).
  split_and!; try done; [|intros; by apply solveBlockWith_total].
  intros order header header' Hs.
  destruct (solveBlockWith_found _ _ _ _ HN Hs) as (Hn & Heq & Hh).
  split_and!; [lia | lia | lia | done | done].
Qed.

(** The same of [solveBlock] as the generator runs it. *)
Lemma solveBlock_Val {S} (s : S) (header header' : BlockHeader) :
  outcome (solveBlock header s) = Val (true, header') ->
  1 <= Nonce header' <= 2 ^ 32 - 1 /\
  header' = withNonce header (Nonce header') /\
  HashToBig (BlockHash header') <= CompactToBig (Bits header).
Proof.
  unfold solveBlock, bind, logCall. cbn.
  pose proof (u32_range NumCPU) as Hn.
  destruct (Z.eqb_spec (u32 NumCPU) 0) as [|Hz]; [done|].
  destruct (solveBlockWith _ _ _) as [res|] eqn:Hs; [|done].
  cbn. intros [= ->].
  assert (1 <= u32 NumCPU < 2 ^ 32) as HN by lia.
  exact (solveBlockWith_found _ _ _ _ HN Hs).
Qed.

End SolverFacts.

Section GeneratorFacts.
Import Wire Fullblocktests.
Context {G : GenEnv}.

(** ** Runs of computations *)

Lemma run_eta {S A} (r : Run S A) : mkRun (outcome r) (final r) (calls r) = r.
Proof. by destruct r. Qed.

Lemma bind_Val {S A B} (m : M S A) (k : A -> M S B) (s : S) (a : A) :
  outcome (m s) = Val a ->
  bind m k s =
  mkRun (outcome (k a (final (m s)))) (final (k a (final (m s))))
        (calls (m s) ++ calls (k a (final (m s)))).
Proof. intros Ho. unfold bind. cbn. by rewrite Ho. Qed.

Lemma bind_Panic {S A B} (m : M S A) (k : A -> M S B) (s : S) (v : PanicValue) :
  outcome (m s) = Panic v ->
  bind m k s = mkRun (Panic v) (final (m s)) (calls (m s)).
Proof. intros Ho. unfold bind. cbn. by rewrite Ho. Qed.

Lemma bind_outcome_Val {S A B} (m : M S A) (k : A -> M S B) (s : S) (b : B) :
  outcome (bind m k s) = Val b ->
  exists a, outcome (m s) = Val a /\
            outcome (k a (final (m s))) = Val b /\
            final (bind m k s) = final (k a (final (m s))) /\
            calls (bind m k s) = calls (m s) ++ calls (k a (final (m s))).
Proof.
  unfold bind. cbn. destruct (outcome (m s)) as [a|v] eqn:Ho; [|done].
  cbn. intros Hb. by exists a.
Qed.

Lemma quiet_ret {S A} (a : A) : quiet (@ret S A a).
Proof. by intros s. Qed.

Lemma quiet_panic {S A} (v : PanicValue) : quiet (@panic S A v).
Proof. by intros s. Qed.

Lemma quiet_get {S} : quiet (@get S).
Proof. by intros s. Qed.

Lemma quiet_bind {S A B} (m : M S A) (k : A -> M S B) :
  quiet m -> (forall a, quiet (k a)) -> quiet (bind m k).
Proof.
  intros Hm Hk s. unfold bind. cbn.
  destruct (Hm s) as [Hf Hc].
  destruct (outcome (m s)) as [a|v]; cbn; [|done].
  rewrite Hf, Hc. apply Hk.
Qed.

Lemma quiet_deref {S A} (p : option A) : quiet (@deref S A p).
Proof. destruct p; [apply quiet_ret | apply quiet_panic]. Qed.

Lemma quiet_index {S A} (l : list A) (i : Z) : quiet (@index S A l i).
Proof.
  unfold index. destruct (i <? 0); [apply quiet_panic|].
  destruct (l !! Z.to_nat i); [apply quiet_ret | apply quiet_panic].
Qed.

Lemma quiet_orPanic {S A} (r : result A) : quiet (@orPanic S A r).
Proof. destruct r; [apply quiet_ret | apply quiet_panic]. Qed.

(** Binding a quiet computation runs the rest on the same state. *)
Lemma bind_quiet {S A B} (m : M S A) (k : A -> M S B) (s : S) :
  quiet m ->
  bind m k s =
  match outcome (m s) with
  | Val a => k a s
  | Panic v => mkRun (Panic v) s []
  end.
Proof.
  intros Hm. destruct (Hm s) as [Hf Hc]. unfold bind. cbn.
  rewrite Hf, Hc. destruct (outcome (m s)); [apply run_eta | done].
Qed.

Lemma bind_ret_run {S A B} (m : M S A) (f : A -> B) (s : S) :
  bind m (fun a => ret (f a)) s =
  mkRun (match outcome (m s) with
         | Val a => Val (f a)
         | Panic v => Panic v
         end) (final (m s)) (calls (m s)).
Proof.
  unfold bind, ret. destruct (outcome (m s)); cbn [outcome final calls];
    by rewrite ?app_nil_r.
Qed.

Lemma quiet_createCoinbaseTx (g : testGenerator) (blockHeight : Z) :
  quiet (createCoinbaseTx g blockHeight).
Proof.
  unfold createCoinbaseTx. apply quiet_bind; [apply quiet_orPanic|].
  intros. apply quiet_ret.
Qed.

Lemma quiet_addFee {S} (tx : MsgTx) (fee : Z) : quiet (@addFee S tx fee).
Proof.
  unfold addFee. apply quiet_bind; [apply quiet_index|].
  intros. apply quiet_ret.
Qed.

(** ** calcMerkleRoot and solveBlock *)

Lemma calcMerkleRoot_run {S} (txns : list MsgTx) (s : S) :
  final (calcMerkleRoot txns s) = s /\
  calls (calcMerkleRoot txns s) = [CallCalcMerkleRoot txns].
Proof.
  unfold calcMerkleRoot.
  match goal with
  | |- context [bind _ (fun _ => ?rest)] =>
      assert (quiet (S := S) rest) as Hq
  end.
  { destruct (Txscript.len txns =? 0); [apply quiet_ret | apply quiet_index]. }
  unfold bind, logCall. cbn. destruct (Hq s) as [-> ->]. done.
Qed.

(** With a merkle tree that is never empty for transactions at hand,
    [calcMerkleRoot] does not panic. *)
Lemma calcMerkleRoot_Val {S} (txns : list MsgTx) (s : S) :
  (forall txns, txns <> [] -> BuildMerkleTreeStore txns <> []) ->
  exists root, outcome (calcMerkleRoot txns s) = Val root.
Proof.
  intros Hm. unfold calcMerkleRoot, bind, logCall. cbn.
  destruct (Z.eqb_spec (Txscript.len txns) 0) as [|Hl]; cbn; [by eexists|].
  assert (txns <> []) as Hne by (intros ->; done).
  specialize (Hm _ Hne).
  unfold index.
  destruct (BuildMerkleTreeStore txns) as [|h l] eqn:Hb; [done|].
  assert (Txscript.len (h :: l) - 1 = Z.of_nat (length l)) as ->.
  { unfold Txscript.len. cbn [length]. lia. }
  destruct (Z.ltb_spec (Z.of_nat (length l)) 0); [lia|].
  rewrite Nat2Z.id.
  destruct ((h :: l) !! length l) as [x|] eqn:Hx.
  - cbn. by eexists.
  - apply lookup_ge_None in Hx. cbn [length] in Hx. lia.
Qed.

Lemma solveBlock_run {S} (header : BlockHeader) (s : S) :
  final (solveBlock header s) = s /\
  calls (solveBlock header s) = [CallSolveBlock header].
Proof.
  unfold solveBlock, bind, logCall. cbn.
  destruct (u32 NumCPU =? 0); cbn; [done|].
  destruct (solveBlockWith _ _ _); cbn; done.
Qed.

(** ** nextBlock *)

Create HintDb quiet.

#[local] Hint Resolve quiet_ret quiet_panic quiet_get quiet_deref quiet_index
  quiet_orPanic quiet_createCoinbaseTx quiet_addFee : quiet.

Lemma quiet_draft_txns (coinbaseTx : MsgTx) (spend : option spendableOut) :
  quiet (S := testGenerator)
    match spend with
    | Some sp =>
        let fee := 1 in
        let* coinbaseTx' := addFee coinbaseTx fee in
        ret [coinbaseTx'; createSpendTx sp fee]
    | None => ret [coinbaseTx]
    end.
Proof.
  destruct spend; [|apply quiet_ret].
  apply quiet_bind; [apply quiet_addFee | intros; apply quiet_ret].
Qed.

Lemma quiet_draft_ts (g : testGenerator) (nextHeight : Z) :
  quiet (S := testGenerator)
    (if nextHeight =? 1 then ret timeNow
     else let* t := deref (tip g) in ret (Timestamp (Header t) + 120)).
Proof.
  destruct (nextHeight =? 1); [apply quiet_ret|].
  apply quiet_bind; [apply quiet_deref | intros; apply quiet_ret].
Qed.

#[local] Hint Resolve quiet_draft_txns quiet_draft_ts : quiet.

Ltac quiet_step :=
  cbv beta zeta;
  rewrite bind_quiet by auto with quiet;
  let a := fresh "a" in let v := fresh "v" in let Ho := fresh "Ho" in
  match goal with
  | |- context [match outcome ?r with _ => _ end] =>
      destruct (outcome r) as [a|v] eqn:Ho
  end.

(** The draft leaves the generator as it is. *)
Lemma draftBlock_final (g : testGenerator) (spend : option spendableOut)
    (s : testGenerator) :
  final (draftBlock g spend s) = s.
Proof.
  unfold draftBlock.
  quiet_step; [|done]. quiet_step; [|done]. quiet_step; [|done].
  quiet_step; [|done].
  cbv beta zeta. rewrite bind_ret_run. cbn [final].
  apply calcMerkleRoot_run.
Qed.

(** A draft that is built has nonce 0, the merkle root of its
    transactions, and cost one call of [calcMerkleRoot]; the generator
    then has a tip. *)
Lemma draftBlock_Val (g : testGenerator) (spend : option spendableOut)
    (s : testGenerator) (block : MsgBlock) :
  outcome (draftBlock g spend s) = Val block ->
  calls (draftBlock g spend s) = [CallCalcMerkleRoot (Transactions block)] /\
  Nonce (Header block) = 0 /\
  outcome (calcMerkleRoot (Transactions block) s)
    = Val (MerkleRoot (Header block)) /\
  is_Some (tip g).
Proof.
  unfold draftBlock.
  quiet_step; [|done]. quiet_step; [|done]. quiet_step; [|done].
  quiet_step; [|done].
  cbv beta zeta. rewrite bind_ret_run. cbn [final calls outcome].
  destruct (calcMerkleRoot_run a0 s) as [Hf Hc].
  destruct (outcome (calcMerkleRoot a0 s)) as [root|] eqn:Hroot; [|done].
  intros [= <-]. cbn [Header Transactions Nonce MerkleRoot].
  rewrite Hc. split_and!; try done.
  destruct (tip g); [done | discriminate Ho2].
Qed.

(** Without a tip, at height 0, no draft is built: the run panics, on
    the nil tip unless the coinbase script already failed. *)
Lemma draftBlock_no_tip (g : testGenerator) (spend : option spendableOut)
    (s : testGenerator) :
  tip g = None -> tipHeight g = 0 ->
  exists v,
    outcome (draftBlock g spend s) = Panic v /\
    (forall script, coinbaseScriptFor 1 0 = Success script ->
       v = nilDereference).
Proof.
  intros Htip Hh. unfold draftBlock. rewrite Htip, Hh.
  change (u32 (0 + 1)) with 1. change (1 =? 1) with true. cbv iota.
  quiet_step.
  2:{ exists v. split; [done|]. intros script Hs.
      unfold createCoinbaseTx in Ho. rewrite Hs in Ho. cbn in Ho. done. }
  quiet_step.
  2:{ exfalso. destruct spend as [sp|]; [|done].
      unfold createCoinbaseTx in Ho.
      destruct (coinbaseScriptFor 1 0); cbn in Ho; [|done].
      injection Ho as <-. cbn in Ho0. done. }
  quiet_step; [|done]. quiet_step; [done|].
  cbn in Ho2. injection Ho2 as <-. by exists nilDereference.
Qed.

(** The header that [sealBlock] tests for its nonce: the block's, with
    the size and the signature set. *)
Lemma Nonce_sign_size (h : BlockHeader) (n : Z) :
  Nonce (Sign (withSize h n)) = Nonce h.
Proof. reflexivity. Qed.

Lemma recalcMerkleRoot_run {S} (curMerkleRoot : Hash) (block : MsgBlock)
    (s : S) :
  final (recalcMerkleRoot curMerkleRoot block s) = s /\
  calls (recalcMerkleRoot curMerkleRoot block s) =
  (if bool_decide (MerkleRoot (Header block) = curMerkleRoot)
   then [CallCalcMerkleRoot (Transactions block)] else []) /\
  (forall block', outcome (recalcMerkleRoot curMerkleRoot block s) = Val block' ->
     Nonce (Header block') = Nonce (Header block)).
Proof.
  unfold recalcMerkleRoot. case_bool_decide as Hroot.
  - rewrite bind_ret_run. cbn [final calls outcome].
    destruct (calcMerkleRoot_run (Transactions block) s) as [-> ->].
    split_and!; [done | done |].
    intros block'. destruct (outcome _); [|done]. by intros [= <-].
  - split_and!; [done | done |]. by intros block' [= <-].
Qed.

Lemma recalcMerkleRoot_Val {S} (curMerkleRoot : Hash) (block : MsgBlock)
    (s : S) :
  (forall txns, txns <> [] -> BuildMerkleTreeStore txns <> []) ->
  exists block', outcome (recalcMerkleRoot curMerkleRoot block s) = Val block'.
Proof.
  intros Hm. unfold recalcMerkleRoot. case_bool_decide; [|by eexists].
  rewrite bind_ret_run. cbn [outcome].
  destruct (calcMerkleRoot_Val (Transactions block) s Hm) as [root ->].
  by eexists.
Qed.

Lemma solveUnlessChanged_run {S} (curNonce nextHeight : Z) (block : MsgBlock)
    (s : S) :
  final (solveUnlessChanged curNonce nextHeight block s) = s /\
  calls (solveUnlessChanged curNonce nextHeight block s) =
  (if Nonce (Header block) =? curNonce
   then [CallSolveBlock (Header block)] else []).
Proof.
  unfold solveUnlessChanged.
  destruct (Nonce (Header block) =? curNonce); [|done].
  destruct (solveBlock_run (S := S) (Header block) s) as [Hf Hc].
  unfold bind. cbn [outcome final calls]. rewrite Hc.
  destruct (outcome (solveBlock (Header block) s)) as [[ok h']|];
    cbn [outcome final calls]; [|done].
  rewrite Hf. destruct ok; cbn; by rewrite ?app_nil_r.
Qed.

(** [sealBlock] leaves the generator as it is. *)
Lemma sealBlock_final {S} (curMerkleRoot : Hash) (curNonce nextHeight : Z)
    (block : MsgBlock) (s : S) :
  final (sealBlock curMerkleRoot curNonce nextHeight block s) = s.
Proof.
  unfold sealBlock.
  destruct (recalcMerkleRoot_run curMerkleRoot block s) as (Hf & _ & _).
  unfold bind. cbn [outcome final calls].
  destruct (outcome (recalcMerkleRoot curMerkleRoot block s));
    cbn [outcome final calls]; [|done].
  rewrite Hf. apply solveUnlessChanged_run.
Qed.

(** What [sealBlock] calls, when the merkle tree is never empty: one
    [calcMerkleRoot] on the block's transactions if the block's merkle root
    is [curMerkleRoot], then one [solveBlock] if the block's nonce is
    [curNonce]. *)
Lemma sealBlock_calls {S} (curMerkleRoot : Hash) (curNonce nextHeight : Z)
    (block : MsgBlock) (s : S) :
  (forall txns, txns <> [] -> BuildMerkleTreeStore txns <> []) ->
  exists header,
    calls (sealBlock curMerkleRoot curNonce nextHeight block s) =
    (if bool_decide (MerkleRoot (Header block) = curMerkleRoot)
     then [CallCalcMerkleRoot (Transactions block)] else []) ++
    (if Nonce (Header block) =? curNonce
     then [CallSolveBlock header] else []).
Proof.
  intros Hm. unfold sealBlock.
  destruct (recalcMerkleRoot_run curMerkleRoot block s) as (Hf & Hc & Hn).
  destruct (recalcMerkleRoot_Val curMerkleRoot block s Hm) as [block' Hv].
  rewrite (bind_Val _ _ _ _ Hv). cbn [calls]. rewrite Hf, Hc.
  specialize (Hn _ Hv).
  match goal with
  | |- context [solveUnlessChanged curNonce nextHeight ?b s] =>
      destruct (solveUnlessChanged_run curNonce nextHeight b s) as [_ ->];
      exists (Header b)
  end.
  cbn [Header withHeader]. rewrite Nonce_sign_size, Hn. done.
Qed.

(** A run of [nextBlock], from the run of its draft and the run of the
    rules on the munged draft: a panic of either is a panic of
    [nextBlock] and leaves the generator as it was; otherwise the block is
    registered under its hash and its name and becomes the tip. *)
Lemma nextBlock_run (blockName : string) (spend : option spendableOut)
    (mungers : list (MsgBlock -> MsgBlock)) (g : testGenerator) :
  nextBlock blockName spend mungers g =
  match outcome (draftBlock g spend g) with
  | Panic v => mkRun (Panic v) g (calls (draftBlock g spend g))
  | Val draft =>
      let nextHeight := u32 (tipHeight g + 1) in
      let sealed := sealBlock (MerkleRoot (Header draft)) (Nonce (Header draft))
                              nextHeight (munge mungers draft) g in
      match outcome sealed with
      | Panic v =>
          mkRun (Panic v) g (calls (draftBlock g spend g) ++ calls sealed)
      | Val block =>
          mkRun (Val block)
            (mkTestGenerator (params g) (Some block) blockName nextHeight
               (<[BlockHash (Header block) := block]> (blocks g))
               (<[blockName := block]> (blocksByName g))
               (<[blockName := nextHeight]> (blockHeights g))
               (spendableOuts g) (prevCollectedHash g))
            (calls (draftBlock g spend g) ++ calls sealed)
      end
  end.
Proof.
  unfold nextBlock. rewrite bind_quiet by apply quiet_get.
  cbn [outcome get]. cbv beta zeta.
  pose proof (draftBlock_final g spend g) as Hdf.
  destruct (outcome (draftBlock g spend g)) as [draft|v] eqn:Hd.
  2:{ rewrite (bind_Panic _ _ _ _ Hd), Hdf. done. }
  rewrite (bind_Val _ _ _ _ Hd), Hdf. cbv zeta.
  pose proof (sealBlock_final (MerkleRoot (Header draft)) (Nonce (Header draft))
                (u32 (tipHeight g + 1)) (munge mungers draft) g) as Hsf.
  destruct (outcome (sealBlock (MerkleRoot (Header draft))
                       (Nonce (Header draft)) (u32 (tipHeight g + 1))
                       (munge mungers draft) g)) as [block|v] eqn:Hs.
  2:{ rewrite (bind_Panic _ _ _ _ Hs), Hsf. done. }
  rewrite (bind_Val _ _ _ _ Hs), Hsf. cbn. by rewrite !app_nil_r.
Qed.

(** ** The rules of nextBlock *)

Lemma munge_snoc (mungers : list (MsgBlock -> MsgBlock))
    (f : MsgBlock -> MsgBlock) (block : MsgBlock) :
  munge (mungers ++ [f]) block = f (munge mungers block).
Proof. unfold munge. by rewrite foldl_snoc. Qed.

(** When no munge function changes a field of the block it is handed,
    the field is the same after all of them. *)
Lemma noMungerChanged_munge {A} (field : MsgBlock -> A)
    (mungers : list (MsgBlock -> MsgBlock)) (block : MsgBlock) :
  noMungerChanged field mungers block ->
  field (munge mungers block) = field block.
Proof.
  induction mungers as [|f mungers IH] using rev_ind; [done|].
  intros Hno. rewrite munge_snoc. unfold munge in *.
  pose proof (Hno (length mungers) f) as Hlast.
  rewrite lookup_app_r, Nat.sub_diag in Hlast by done.
  rewrite take_app_length in Hlast.
  rewrite (Hlast eq_refl). apply IH.
  intros k g Hk.
  pose proof (lookup_lt_Some _ _ _ Hk) as Hlt.
  specialize (Hno k g). rewrite lookup_app_l in Hno by done.
  rewrite take_app_le in Hno by lia. by apply Hno.
Qed.

(** C7, as the code has it.  When the draft of [nextBlock] is built (and
    the merkle tree of a non-empty list is never empty): after the call of
    [calcMerkleRoot] for the draft, [nextBlock] calls [calcMerkleRoot]
    once more, on the transactions left by the munge functions, exactly
    when the merkle root after all munge functions equals the draft's, and
    then calls [solveBlock] exactly when the nonce after all munge
    functions is 0; it makes no other call. *)
Theorem nextBlock_rules (blockName : string) (spend : option spendableOut)
    (mungers : list (MsgBlock -> MsgBlock)) (g : testGenerator)
    (draft : MsgBlock) :
  (forall txns, txns <> [] -> BuildMerkleTreeStore txns <> []) ->
  outcome (draftBlock g spend g) = Val draft ->
  let block := munge mungers draft in
  let post := drop 1 (calls (nextBlock blockName spend mungers g)) in
  (exists header,
     calls (nextBlock blockName spend mungers g) =
     [CallCalcMerkleRoot (Transactions draft)] ++
     (if bool_decide (MerkleRoot (Header block) = MerkleRoot (Header draft))
      then [CallCalcMerkleRoot (Transactions block)] else []) ++
     (if bool_decide (Nonce (Header block) = 0)
      then [CallSolveBlock header] else [])) /\
  (CallCalcMerkleRoot (Transactions block) ∈ post <->
   MerkleRoot (Header block) = MerkleRoot (Header draft)) /\
  ((exists header, CallSolveBlock header ∈ post) <->
   Nonce (Header block) = 0).
Proof.
  intros Hm Hd block post.
  destruct (draftBlock_Val _ _ _ _ Hd) as (Hdc & Hn0 & _ & _).
  destruct (sealBlock_calls (MerkleRoot (Header draft)) (Nonce (Header draft))
              (u32 (tipHeight g + 1)) block g Hm) as [header Hsc].
  assert (calls (nextBlock blockName spend mungers g) =
          [CallCalcMerkleRoot (Transactions draft)] ++
          (if bool_decide (MerkleRoot (Header block) = MerkleRoot (Header draft))
           then [CallCalcMerkleRoot (Transactions block)] else []) ++
          (if bool_decide (Nonce (Header block) = 0)
           then [CallSolveBlock header] else [])) as Hcalls.
  { rewrite nextBlock_run, Hd. cbv zeta. fold block.
    assert (calls (draftBlock g spend g) ++
            calls (sealBlock (MerkleRoot (Header draft)) (Nonce (Header draft))
                     (u32 (tipHeight g + 1)) block g) = _) as Hall
      by (rewrite Hdc, Hsc, Hn0; reflexivity).
    destruct (outcome (sealBlock _ _ _ block g)); cbn [calls]; rewrite Hall;
      (do 2 f_equal); destruct (Z.eqb_spec (Nonce (Header block)) 0);
      by rewrite ?bool_decide_eq_true_2, ?bool_decide_eq_false_2 by done. }
  split; [by exists header|].
  subst post. rewrite Hcalls.
  destruct (bool_decide (MerkleRoot (Header block) = MerkleRoot (Header draft)))
    eqn:Hroot;
  destruct (bool_decide (Nonce (Header block) = 0)) eqn:Hnonce;
    cbn [app drop]; rewrite ?drop_0;
    [apply bool_decide_eq_true in Hroot | apply bool_decide_eq_true in Hroot
    |apply bool_decide_eq_false in Hroot | apply bool_decide_eq_false in Hroot];
    [apply bool_decide_eq_true in Hnonce | apply bool_decide_eq_false in Hnonce
    |apply bool_decide_eq_true in Hnonce | apply bool_decide_eq_false in Hnonce].
  - split; [split; [done | intros _; apply list_elem_of_here]|].
    split; [done|]. intros _. exists header.
    apply list_elem_of_further, list_elem_of_here.
  - split; [split; [done | intros _; apply list_elem_of_here]|].
    split; [|done]. intros [h Hin].
    apply elem_of_cons in Hin as [Hin|Hin]; [done | by apply elem_of_nil in Hin].
  - split.
    + split; [|done]. intros Hin.
      apply elem_of_cons in Hin as [Hin|Hin]; [done | by apply elem_of_nil in Hin].
    + split; [done|]. intros _. exists header. apply list_elem_of_here.
  - split.
    + split; [|done]. intros Hin. by apply elem_of_nil in Hin.
    + split; [|done]. intros [h Hin]. by apply elem_of_nil in Hin.
Qed.

(** A block that [solveBlock] does not solve is a panic of the second
    rule, carrying the message with the height; [Generate] turns it into
    the error with that message. *)
Lemma solveUnlessChanged_unsolved {S} (curNonce nextHeight : Z)
    (block : MsgBlock) (header' : BlockHeader) (s : S) :
  Nonce (Header block) = curNonce ->
  outcome (solveBlock (Header block) s) = Val (false, header') ->
  outcome (solveUnlessChanged curNonce nextHeight block s)
  = Panic (PanicString ("Unable to solve block at height " +:+ pretty nextHeight)) /\
  recovered (PanicString ("Unable to solve block at height " +:+ pretty nextHeight))
  = "Unable to solve block at height " +:+ pretty nextHeight.
Proof.
  intros Hn Hs. split; [|done]. unfold solveUnlessChanged.
  rewrite Hn, Z.eqb_refl. rewrite (bind_Val _ _ _ _ Hs). done.
Qed.

(** ** setTip *)

Lemma nextBlock_Val_final (blockName : string) (spend : option spendableOut)
    (mungers : list (MsgBlock -> MsgBlock)) (g : testGenerator)
    (block : MsgBlock) :
  outcome (nextBlock blockName spend mungers g) = Val block ->
  final (nextBlock blockName spend mungers g) =
  mkTestGenerator (params g) (Some block) blockName (u32 (tipHeight g + 1))
    (<[BlockHash (Header block) := block]> (blocks g))
    (<[blockName := block]> (blocksByName g))
    (<[blockName := u32 (tipHeight g + 1)]> (blockHeights g))
    (spendableOuts g) (prevCollectedHash g).
Proof.
  rewrite nextBlock_run.
  destruct (outcome (draftBlock g spend g)); [|done]. cbv zeta.
  destruct (outcome (sealBlock _ _ _ _ g)); [|done].
  cbn. by intros [= ->].
Qed.

(** The two maps by name hold exactly the registered names. *)
Lemma built_dom (names : gset string) (g : testGenerator) :
  built names g ->
  dom (blocksByName g) = names /\ dom (blockHeights g) = names.
Proof.
  induction 1 as [p | names g blockName spend mungers block _ [IH1 IH2] Hv
                  | names g blockName _ IH | names g outs collected _ IH].
  - cbn. by rewrite !dom_singleton_L.
  - rewrite (nextBlock_Val_final _ _ _ _ _ Hv). cbn.
    by rewrite !dom_insert_L, IH1, IH2.
  - done.
  - done.
Qed.

Lemma built_genesis_in (names : gset string) (g : testGenerator) :
  built names g -> "genesis" ∈ names.
Proof. induction 1; set_solver. Qed.

(** C10.  In a generator reached from the genesis generator, [setTip]
    with a name that was never registered (so not "genesis" either)
    returns normally and leaves the tip nil, the tip height 0 and the tip
    name that name; every [nextBlock] after it panics, on the nil tip
    (unless the coinbase script already failed). *)
Theorem setTip_unregistered (names : gset string) (g : testGenerator)
    (blockName : string) :
  built names g ->
  blockName ∉ names ->
  let r := setTip blockName g in
  outcome r = Val tt /\
  tip (final r) = None /\
  tipHeight (final r) = 0 /\
  tipName (final r) = blockName /\
  blocksByName (final r) = blocksByName g /\
  blockHeights (final r) = blockHeights g /\
  (forall (nextName : string) (spend : option spendableOut)
          (mungers : list (MsgBlock -> MsgBlock)),
     exists v,
       outcome (nextBlock nextName spend mungers (final r)) = Panic v /\
       (forall script, coinbaseScriptFor 1 0 = Success script ->
          v = nilDereference)).
Proof.
  intros Hb Hnot r.
  destruct (built_dom _ _ Hb) as [Hd1 Hd2].
  assert (blocksByName g !! blockName = None) as Hn1
    by (apply not_elem_of_dom; by rewrite Hd1).
  assert (blockHeights g !! blockName = None) as Hn2
    by (apply not_elem_of_dom; by rewrite Hd2).
  subst r. unfold setTip. rewrite bind_quiet by apply quiet_get.
  cbn [outcome get put final]. rewrite Hn1, Hn2. cbn [default].
  split_and!; try done.
  intros nextName spend mungers. rewrite nextBlock_run.
  set (g' := mkTestGenerator _ _ _ _ _ _ _ _ _).
  destruct (draftBlock_no_tip g' spend g') as (v & Hv & Hnil); [done | done |].
  exists v. by rewrite Hv.
Qed.

(** ** Generate *)

Lemma leavesTests_bind {A B} (m : M genState A) (k : A -> M genState B) :
  (forall a, leavesTests (k a)) -> leavesTests (bind m k).
Proof.
  intros Hk s b Hb.
  apply bind_outcome_Val in Hb as (a & _ & Hkb & -> & _).
  by apply (Hk a _ b).
Qed.

Lemma leavesTests_appendTests (group : list TestInstance) :
  leavesTests (appendTests group).
Proof. intros s a _. cbn. done. Qed.

Lemma leavesTests_rejected (code : Z) : leavesTests (rejected code).
Proof.
  unfold rejected. apply leavesTests_bind. intros g.
  apply leavesTests_appendTests.
Qed.

(** When the body of [Generate] returns, [tests] is not nil: its last
    statement appends to it. *)
Lemma generateBody_leavesTests (includeLargeReorg : bool) :
  leavesTests (generateBody includeLargeReorg).
Proof.
  unfold generateBody.
  repeat first
    [ apply leavesTests_rejected
    | apply leavesTests_bind; intros ?; cbv zeta ].
Qed.

(** C9.  Every run of [Generate] returns either tests that are not nil
    with a nil error, or nil tests with an error that is not nil; the
    second is what it returns whenever its body panics, whatever the panic
    carries and whatever tests had been built by then. *)
Theorem Generate_all_or_nothing (includeLargeReorg : bool) :
  let body := generateBody includeLargeReorg
                (mkGenState (makeTestGenerator RegressionNetParams) None) in
  (is_Some (fst (Generate includeLargeReorg)) /\
   snd (Generate includeLargeReorg) = None \/
   fst (Generate includeLargeReorg) = None /\
   is_Some (snd (Generate includeLargeReorg))) /\
  (forall v, outcome body = Panic v ->
     Generate includeLargeReorg = (None, Some (recovered v))) /\
  (forall u, outcome body = Val u ->
     Generate includeLargeReorg = (tests (final body), None)).
Proof.
  intros body. unfold Generate. fold body.
  destruct (outcome body) as [u|v] eqn:Hb.
  - split_and!; [left | done | by intros ? [= <-]].
    split; [|done]. cbn [fst]. exact (generateBody_leavesTests _ _ u Hb).
  - split_and!; [right | by intros ? [= <-] | done].
    split; [done|]. cbn [snd]. done.
Qed.

End GeneratorFacts.

(* ===================================================================== *)
(** * The generator on concrete inputs                                    *)
(* ===================================================================== *)

Section GeneratorExamples.
Import Wire Fullblocktests Std.

Lemma toyMerkles_nonempty (txns : list MsgTx) :
  txns <> [] -> BuildMerkleTreeStore (GenEnv := genv) txns <> [].
Proof.
  intros _. cbn. unfold toyMerkles. intros Heq.
  apply app_eq_nil in Heq as [_ Heq]. discriminate Heq.
Qed.

(** C7 fails on two munge functions that change a field and put it
    back.  With a first function adding 1 to the merkle root and a second
    taking 1 off, the first changes the merkle root of the block it is
    handed, yet [nextBlock] recalculates the merkle root (two calls of
    [calcMerkleRoot], then the solver); with the same two on the nonce,
    the first moves the nonce off 0, yet [nextBlock] calls the solver. *)
Lemma nextBlock_change_and_restore :
  exists draft,
    outcome (draftBlock (G := genv) genesisGenerator None genesisGenerator)
      = Val draft /\
    ~ noMungerChanged (fun b => MerkleRoot (Header b))
        [bumpRoot 1; bumpRoot (-1)] draft /\
    (exists header,
       calls (nextBlock (G := genv) "b1" None [bumpRoot 1; bumpRoot (-1)]
                genesisGenerator)
       = [CallCalcMerkleRoot (Transactions draft);
          CallCalcMerkleRoot (Transactions draft);
          CallSolveBlock header]) /\
    ~ noMungerChanged (fun b => Nonce (Header b))
        [bumpNonce 1; bumpNonce (-1)] draft /\
    (exists header,
       calls (nextBlock (G := genv) "b1" None [bumpNonce 1; bumpNonce (-1)]
                genesisGenerator)
       = [CallCalcMerkleRoot (Transactions draft);
          CallCalcMerkleRoot (Transactions draft);
          CallSolveBlock header]).
Proof.
  eexists. split; [lazy; reflexivity|]. split_and!.
  - intros Hno. specialize (Hno 0%nat (bumpRoot 1) eq_refl).
    cbn in Hno. discriminate Hno.
  - eexists. lazy. reflexivity.
  - intros Hno. specialize (Hno 0%nat (bumpNonce 1) eq_refl).
    cbn in Hno. discriminate Hno.
  - eexists. lazy. reflexivity.
Qed.

Lemma nextBlock_rules_witness :
  exists draft,
    outcome (draftBlock (G := genv) genesisGenerator None genesisGenerator)
      = Val draft /\
    (CallCalcMerkleRoot (Transactions (munge [bumpRoot 1] draft))
       ∈ drop 1 (calls (nextBlock (G := genv) "b1" None [bumpRoot 1]
                          genesisGenerator))
     <-> MerkleRoot (Header (munge [bumpRoot 1] draft))
         = MerkleRoot (Header draft)).
Proof.
  eexists. split; [lazy; reflexivity|].
  apply (nextBlock_rules (G := genv) "b1" None [bumpRoot 1] genesisGenerator);
    [apply toyMerkles_nonempty | lazy; reflexivity].
Defined.

Lemma solveBlock_sound_witness :
  1 <= 4 < 2 ^ 32 /\
  solveBlockWith (G := genv) 4 [2; 0; 3; 1]%nat someHeader
    = Some (true, withNonce someHeader 2147483648) /\
  1 <= Nonce (withNonce someHeader 2147483648) <= 2 ^ 32 - 1 /\
  HashToBig (GenEnv := genv)
    (BlockHash (GenEnv := genv) (withNonce someHeader 2147483648))
    <= CompactToBig (GenEnv := genv) (Bits someHeader).
Proof.
  assert (1 <= 4 < 2 ^ 32) as H4 by lia.
  assert (solveBlockWith (G := genv) 4 [2; 0; 3; 1]%nat someHeader
          = Some (true, withNonce someHeader 2147483648)) as Hs
    by (lazy; reflexivity).
  split; [exact H4|]. split; [exact Hs|].
  destruct (proj1 (solveBlock_sound (G := genv) 4 H4) _ _ _ Hs)
    as (Hn & _ & _ & Hh).
  split; [exact Hn | exact Hh].
Defined.

Lemma setTip_unregistered_witness :
  built (G := genv) {[ "genesis" ]} genesisGenerator /\
  ("b99" ∉ ({[ "genesis" ]} : gset string)) /\
  tip (final (setTip (G := genv) "b99" genesisGenerator)) = None /\
  tipHeight (final (setTip (G := genv) "b99" genesisGenerator)) = 0.
Proof.
  assert (built (G := genv) {[ "genesis" ]} genesisGenerator) as Hb
    by apply built_genesis.
  assert ("b99" ∉ ({[ "genesis" ]} : gset string)) as Hn
    by (apply not_elem_of_singleton; discriminate).
  split; [exact Hb|]. split; [exact Hn|].
  destruct (setTip_unregistered (G := genv) _ _ "b99" Hb Hn)
    as (_ & Ht & Hh & _).
  split; [exact Ht | exact Hh].
Defined.

(** On a nil tip with the coinbase script built, [nextBlock] panics on
    the nil pointer. *)
Lemma nextBlock_after_setTip_unregistered :
  outcome (nextBlock (G := genv) "b17" None []
             (final (setTip (G := genv) "b99" genesisGenerator)))
  = Panic nilDereference.
Proof. vm_compute. reflexivity. Qed.

(** A run of [Generate] in which nothing fails: the 100 blocks of the
    maturity group, then the groups of b1 to b16. *)
Lemma Generate_runs :
  match Generate (G := genv) false with
  | (Some groups, None) => Some (map length groups)
  | _ => None
  end
  = Some [100; 1; 1; 1; 1; 1; 1; 1; 1; 1; 1; 2; 1; 2; 1; 2; 1]%nat.
Proof. vm_compute. reflexivity. Qed.

(** A run of [Generate] that panics at block b2: two groups of tests
    had been built by then, and [Generate] returns none of them. *)
Lemma Generate_discards_partial_tests :
  outcome (generateBody (G := genvFailing) false
             (mkGenState (makeTestGenerator (G := genvFailing) regtest) None))
  = Panic (PanicError "adding data would exceed the script size") /\
  length <$> tests (final (generateBody (G := genvFailing) false
               (mkGenState (makeTestGenerator (G := genvFailing) regtest) None)))
  = Some 2%nat /\
  match Generate (G := genvFailing) false with
  | (None, Some err) => Some err
  | _ => None
  end = Some "adding data would exceed the script size".
Proof. split; [|split]; vm_compute; reflexivity. Qed.

End GeneratorExamples.

(* ===================================================================== *)
(** * More of the classifier: lengths, analysis, addresses                *)
(* ===================================================================== *)

Section AnalysisFacts.
Import Wire Txscript TxscriptInfo.
Context {E : ScriptEnv} {I : InfoEnv}.

Lemma isNullData_len (pops : list parsedOpcode) :
  isNullData pops = true -> len pops = 1 \/ len pops = 2.
Proof.
  unfold isNullData.
  destruct (len pops =? 1) eqn:H1; [apply Z.eqb_eq in H1; auto|].
  cbn [andb].
  destruct (len pops =? 2) eqn:H2; [apply Z.eqb_eq in H2; auto|].
  cbn [andb]. discriminate.
Qed.

Lemma isAztec_inv (pops : list parsedOpcode) :
  isAztec pops = true -> len pops = 6 /\ isGeneralAztec pops = true.
Proof.
  unfold isAztec. rewrite !andb_true_iff, Z.eqb_eq. tauto.
Qed.

Lemma isAztecAdmin_len (pops : list parsedOpcode) :
  isAztecAdmin pops = true -> len pops = 2.
Proof.
  unfold isAztecAdmin.
  destruct (len pops =? 2) eqn:H2; [apply Z.eqb_eq in H2; auto|].
  cbn [negb]. discriminate.
Qed.

Lemma typeOfScript_cases (pops : list parsedOpcode) :
  typeOfScript pops = NullDataTy /\ isNullData pops = true \/
  typeOfScript pops = AztecTy /\ isNullData pops = false /\
    isAztec pops = true \/
  typeOfScript pops = GeneralAztecTy /\ isNullData pops = false /\
    isAztec pops = false /\ isGeneralAztec pops = true \/
  typeOfScript pops = AztecAdminTy /\ isNullData pops = false /\
    isGeneralAztec pops = false /\ isAztecAdmin pops = true \/
  typeOfScript pops = NonStandardTy /\ isNullData pops = false /\
    isGeneralAztec pops = false /\ isAztecAdmin pops = false.
Proof.
  unfold typeOfScript.
  destruct (isNullData pops); [left; done|right].
  destruct (isAztec pops); [left; done|right].
  destruct (isGeneralAztec pops); [left; done|right].
  destruct (isAztecAdmin pops); [left; done|right; done].
Qed.

(** The two multi-signature classes are exactly the scripts
    [isGeneralAztec] accepts. *)
Lemma multisig_class_iff (pops : list parsedOpcode) :
  typeOfScript pops = AztecTy \/ typeOfScript pops = GeneralAztecTy <->
  isGeneralAztec pops = true.
Proof.
  split.
  - destruct (typeOfScript_cases pops)
      as [[Ht _]|[[Ht (_ & HA)]|[[Ht (_ & _ & HG)]|[[Ht _]|[Ht _]]]]];
      rewrite Ht; intros [?|?]; try discriminate.
    + apply isAztec_inv in HA. tauto.
    + exact HG.
  - intros HG.
    destruct (typeOfScript_cases pops)
      as [[Ht HN]|[[Ht _]|[[Ht _]|[[Ht (_ & HG' & _)]|[Ht (_ & HG' & _)]]]]];
      try congruence; auto.
    apply isNullData_len in HN.
    rewrite isGeneralAztec_short in HG by lia. discriminate.
Qed.

(** X1: the class of a script bounds its number of operations: null data
    has one or two, a thread script two, the 2-of-3 script six, the
    generalized script at least six; a script of no operation, or of three
    to five, is non-standard. *)
Theorem typeOfScript_by_length (pops : list parsedOpcode) :
  (typeOfScript pops = NullDataTy -> len pops = 1 \/ len pops = 2) /\
  (typeOfScript pops = AztecAdminTy -> len pops = 2) /\
  (typeOfScript pops = AztecTy -> len pops = 6) /\
  (typeOfScript pops = GeneralAztecTy -> 6 <= len pops) /\
  (len pops = 0 \/ 3 <= len pops <= 5 -> typeOfScript pops = NonStandardTy).
Proof.
  pose proof (isGeneralAztec_short pops) as Hshort.
  destruct (typeOfScript_cases pops)
    as [[Ht HN]|[[Ht (_ & HA)]|[[Ht (_ & _ & HG)]|[[Ht (_ & _ & HD)]|[Ht _]]]]];
    rewrite Ht.
  - apply isNullData_len in HN.
    repeat split; try discriminate; auto. intros; lia.
  - apply isAztec_inv in HA as [H6 _].
    repeat split; try discriminate; auto. intros; lia.
  - assert (6 <= len pops).
    { destruct (Z_lt_le_dec (len pops) 6) as [Hlt|]; [|done].
      rewrite Hshort in HG by done. discriminate. }
    repeat split; try discriminate; auto. intros; lia.
  - apply isAztecAdmin_len in HD.
    repeat split; try discriminate; auto. intros; lia.
  - repeat split; try discriminate; auto.
Qed.

(** X2: the 2-of-3 class is a part of the generalized one, and the order
    of the tests in [typeOfScript] hides neither: a script is AztecTy
    exactly when [isAztec] accepts it, GeneralAztecTy exactly when
    [isGeneralAztec] accepts it and [isAztec] does not, and a script
    [isGeneralAztec] accepts is neither null data nor a thread script. *)
Theorem typeOfScript_multisig (pops : list parsedOpcode) :
  (isAztec pops = true -> isGeneralAztec pops = true) /\
  (typeOfScript pops = AztecTy <-> isAztec pops = true) /\
  (typeOfScript pops = GeneralAztecTy <->
   isGeneralAztec pops = true /\ isAztec pops = false) /\
  (isGeneralAztec pops = true ->
   isNullData pops = false /\ isAztecAdmin pops = false).
Proof.
  assert (HGN : isGeneralAztec pops = true ->
                isNullData pops = false /\ isAztecAdmin pops = false).
  { intros HG. split.
    - destruct (isNullData pops) eqn:HN; [|done].
      apply isNullData_len in HN.
      rewrite isGeneralAztec_short in HG by lia. discriminate.
    - destruct (isAztecAdmin pops) eqn:HD; [|done].
      apply isAztecAdmin_len in HD.
      rewrite isGeneralAztec_short in HG by lia. discriminate. }
  split; [intros HA; apply isAztec_inv in HA; tauto|].
  split; [|split; [|exact HGN]].
  - split.
    + destruct (typeOfScript_cases pops)
        as [[Ht _]|[[Ht (_ & HA)]|[[Ht _]|[[Ht _]|[Ht _]]]]];
        rewrite Ht; intros; try discriminate; done.
    + intros HA. pose proof HA as HA'.
      apply isAztec_inv in HA' as [_ HG].
      destruct (HGN HG) as [HN _].
      unfold typeOfScript. rewrite HN, HA. done.
  - rewrite typeOfScript_GeneralAztec. split.
    + tauto.
    + intros [HG HA]. destruct (HGN HG). tauto.
Qed.

(** The script [n h k0 k1 m c], by the tests of [isGeneralAztec]. *)
Lemma isGeneralAztec_twoOfThree (n h k0 k1 m c : parsedOpcode) (i0 i1 : Z) :
  isSmallInt (pop_opcode n) = true ->
  asSmallInt (pop_opcode n) = 2 ->
  isSmallInt (pop_opcode m) = true ->
  asSmallInt (pop_opcode m) = 3 ->
  value (pop_opcode c) = OP_CHECKSAFEMULTISIG ->
  len (data h) = 20 ->
  len (data k0) <> 20 -> isUint32 (pop_opcode k0) = true ->
  asInt32 k0 = Some i0 ->
  len (data k1) <> 20 -> isUint32 (pop_opcode k1) = true ->
  asInt32 k1 = Some i1 ->
  isGeneralAztec [n; h; k0; k1; m; c] = bool_decide (i0 <> i1).
Proof.
  intros Hn1 Hn2 Hm1 Hm2 Hc Hh Hk0 Hu0 Ha0 Hk1 Hu1 Ha1.
  unfold isGeneralAztec.
  change (len [n; h; k0; k1; m; c]) with 6.
  change (at_ [n; h; k0; k1; m; c] 0) with n.
  change (at_ [n; h; k0; k1; m; c] (6 - 2)) with m.
  change (at_ [n; h; k0; k1; m; c] (6 - 1)) with c.
  change (slice [n; h; k0; k1; m; c] 1 (6 - 2)) with [h; k0; k1].
  rewrite Hn1, Hm1, Hc, Z.eqb_refl, Hn2, Hm2.
  change (6 <? 6) with false. change (2 <? 2) with false.
  change (6 - 2 - 1 =? 3) with true.
  cbn [negb scanKeys].
  unfold scanKey at 1. cbn [nKeyIDs nKeyHashes seenKeyIDs].
  rewrite Hh. change (20 =? 20) with true. change (0 <? 0) with false.
  cbv iota.
  unfold scanKey at 1. cbn [nKeyIDs nKeyHashes seenKeyIDs].
  apply Z.eqb_neq in Hk0. rewrite Hk0, Hu0, Ha0, lookup_empty.
  unfold scanKey at 1. cbn [nKeyIDs nKeyHashes seenKeyIDs].
  apply Z.eqb_neq in Hk1. rewrite Hk1, Hu1, Ha1.
  case_bool_decide as Hd.
  - rewrite lookup_insert_ne by done. rewrite lookup_empty.
    cbn [nKeyIDs nKeyHashes]. reflexivity.
  - assert (i0 = i1) as -> by (destruct (decide (i0 = i1)); [done|tauto]).
    rewrite lookup_insert_eq. reflexivity.
Qed.

(** X3: a script [OP_2 <20-byte hash> <keyid> <keyid> OP_3
    OP_CHECKSAFEMULTISIG] is AztecTy exactly when its two key ids differ;
    with twice the same key id it is non-standard. *)
Theorem twoOfThree_distinct_keyIDs (n h k0 k1 m c : parsedOpcode) (i0 i1 : Z) :
  value (pop_opcode n) = OP_2 ->
  isSmallInt (pop_opcode n) = true ->
  asSmallInt (pop_opcode n) = 2 ->
  value (pop_opcode m) = OP_3 ->
  isSmallInt (pop_opcode m) = true ->
  asSmallInt (pop_opcode m) = 3 ->
  value (pop_opcode c) = OP_CHECKSAFEMULTISIG ->
  len (data h) = 20 ->
  len (data k0) <> 20 -> isUint32 (pop_opcode k0) = true ->
  asInt32 k0 = Some i0 ->
  len (data k1) <> 20 -> isUint32 (pop_opcode k1) = true ->
  asInt32 k1 = Some i1 ->
  typeOfScript [n; h; k0; k1; m; c] =
  if bool_decide (i0 <> i1) then AztecTy else NonStandardTy.
Proof.
  intros Hn0 Hn1 Hn2 Hm0 Hm1 Hm2 Hc Hh Hk0 Hu0 Ha0 Hk1 Hu1 Ha1.
  pose proof (isGeneralAztec_twoOfThree n h k0 k1 m c i0 i1
                Hn1 Hn2 Hm1 Hm2 Hc Hh Hk0 Hu0 Ha0 Hk1 Hu1 Ha1) as HG.
  unfold typeOfScript.
  assert (HN : isNullData [n; h; k0; k1; m; c] = false).
  { destruct (isNullData _) eqn:HN; [|done].
    apply isNullData_len in HN. vm_compute in HN. destruct HN; discriminate. }
  assert (HD : isAztecAdmin [n; h; k0; k1; m; c] = false).
  { destruct (isAztecAdmin _) eqn:HD; [|done].
    apply isAztecAdmin_len in HD. vm_compute in HD. discriminate. }
  rewrite HN, HD. unfold isAztec. rewrite HG.
  change (len [n; h; k0; k1; m; c]) with 6.
  change (at_ [n; h; k0; k1; m; c] 0) with n.
  change (at_ [n; h; k0; k1; m; c] 4) with m.
  rewrite Hn0, Hm0, !Z.eqb_refl.
  change (6 =? 6) with true. cbn [andb].
  case_bool_decide; reflexivity.
Qed.

(** The number of scanned operations is at most the number of operations
    between the counts. *)
Lemma isGeneralAztec_counts (pops : list parsedOpcode) :
  isGeneralAztec pops = true ->
  6 <= len pops /\
  2 <= asSmallInt (pop_opcode (at_ pops 0)) /\
  asSmallInt (pop_opcode (at_ pops 0)) <= len pops - 3 /\
  asSmallInt (pop_opcode (at_ pops (len pops - 2))) = len pops - 3.
Proof.
  intros HG. apply isGeneralAztec_iff in HG.
  destruct HG as [(H6 & _ & H2 & _ & _ & HK) (hashes & keys & Hf & _ & _ & _ & _ & Hle)].
  rewrite len_keyOps in HK by lia.
  split; [done|]. split; [done|]. split; [|done].
  assert (len (filter (fun pop => isScanned pop = true) (keyOps pops))
          <= len (keyOps pops)) as Hfl.
  { unfold len. apply inj_le, length_filter. }
  rewrite Hf, len_app, len_keyOps in Hfl by lia.
  pose proof (len_nonneg hashes). lia.
Qed.

(** X4: on a script [isGeneralAztec] accepts, [CalcMultiSigStats] returns
    as number of keys the number of operations between the counts and as
    number of signatures a number from 2 to that number of keys. *)
Theorem CalcMultiSigStats_general (script : list Z) (pops : list parsedOpcode) :
  ParseScript script = Some pops ->
  isGeneralAztec pops = true ->
  exists numPubKeys numSigs,
    CalcMultiSigStats script = Ok (numPubKeys, numSigs) /\
    numPubKeys = len pops - 3 /\
    2 <= numSigs <= numPubKeys.
Proof.
  intros HP HG. apply isGeneralAztec_counts in HG as (H6 & H2 & Hle & HK).
  unfold CalcMultiSigStats. rewrite HP.
  destruct (len pops <? 4) eqn:H4; [apply Z.ltb_lt in H4; lia|].
  eexists _, _. split; [reflexivity|]. lia.
Qed.


(** The expected inputs of a script of its real class. *)
Lemma expectedInputs_real (pops : list parsedOpcode) :
  exists n,
    expectedInputs pops (typeOfScript pops) = Some n /\
    (typeOfScript pops = NullDataTy \/ typeOfScript pops = NonStandardTy ->
     n = -1) /\
    (typeOfScript pops = AztecAdminTy -> n = 4) /\
    (typeOfScript pops = AztecTy \/ typeOfScript pops = GeneralAztecTy ->
     n = 2 * asSmallInt (pop_opcode (at_ pops 0)) /\ 4 <= n).
Proof.
  destruct (typeOfScript_cases pops)
    as [[Ht _]|[[Ht _]|[[Ht _]|[[Ht _]|[Ht _]]]]].
  1,4,5: rewrite Ht; eexists; (split; [reflexivity|]);
    repeat split; intros; intuition (discriminate || lia).
  all: assert (HG : isGeneralAztec pops = true)
         by (apply multisig_class_iff; rewrite Ht; auto);
       apply isGeneralAztec_counts in HG as (H6 & H2 & _ & _);
       rewrite Ht; unfold expectedInputs;
       destruct pops as [|p rest]; [rewrite len_nil in H6; lia|];
       change (at_ (p :: rest) 0) with p in *; cbn [lookup list_lookup];
       eexists; (split; [reflexivity|]);
       repeat split; intros; intuition (discriminate || lia).
Qed.

(** [typeOfScript] never answers with one of the four classes of the
    original enumeration that it has no test for. *)
Lemma typeOfScript_not_ScriptHash (pops : list parsedOpcode) :
  typeOfScript pops <> ScriptHashTy.
Proof.
  destruct (typeOfScript_cases pops)
    as [[Ht _]|[[Ht _]|[[Ht _]|[[Ht _]|[Ht _]]]]]; rewrite Ht; discriminate.
Qed.

(** What [CalcScriptInfo] returns, with the pay-to-script-hash branch
    left out. *)
Lemma CalcScriptInfo_eq (sigScript pkScript : list Z) (bip16 : bool) :
  CalcScriptInfo sigScript pkScript bip16 =
  match ParseScript sigScript with
  | None => Err (ErrParse sigScript)
  | Some sigPops =>
      match ParseScript pkScript with
      | None => Err (ErrParse pkScript)
      | Some pkPops =>
          if isPushOnly sigPops then
            Ok (mkScriptInfo (typeOfScript pkPops) (len sigPops)
                  (default (-1) (expectedInputs pkPops (typeOfScript pkPops)))
                  (getSigOpCount pkPops true))
          else Err ErrStackNonPushOnly
      end
  end.
Proof.
  unfold CalcScriptInfo.
  destruct (ParseScript sigScript) as [sigPops|]; [|done].
  destruct (ParseScript pkScript) as [pkPops|]; [|done].
  destruct (isPushOnly sigPops); [|done]. cbn [negb].
  destruct (expectedInputs_real pkPops) as (n & -> & _).
  rewrite bool_decide_eq_false_2 by apply typeOfScript_not_ScriptHash.
  reflexivity.
Qed.

(** X6: [CalcScriptInfo] never takes its pay-to-script-hash branch, since
    no script is classified ScriptHashTy: the result is the same with and
    without [bip16], the signature operations are always those of the
    public-key script, and the index expressions never panic. *)
Theorem CalcScriptInfo_ignores_bip16 (sigScript pkScript : list Z) (bip16 : bool) :
  CalcScriptInfo sigScript pkScript bip16 =
  CalcScriptInfo sigScript pkScript false /\
  CalcScriptInfo sigScript pkScript bip16 <> Panics /\
  (forall si sigPops pkPops,
     CalcScriptInfo sigScript pkScript bip16 = Ok si ->
     ParseScript sigScript = Some sigPops ->
     ParseScript pkScript = Some pkPops ->
     SigOps si = getSigOpCount pkPops true /\
     PkScriptClass si <> ScriptHashTy).
Proof.
  rewrite !CalcScriptInfo_eq.
  split; [done|]. split.
  - destruct (ParseScript sigScript); [|done].
    destruct (ParseScript pkScript); [|done].
    destruct (isPushOnly _); done.
  - intros si sigPops pkPops H HS HK. rewrite HS, HK in H.
    destruct (isPushOnly _); [|done].
    injection H as <-. split; [done|]. apply typeOfScript_not_ScriptHash.
Qed.

(** X7: [CalcScriptInfo] succeeds exactly when both scripts parse and the
    signature script is push-only, the parse error of the signature
    script coming first; on success the class is the one [GetScriptClass]
    gives the public-key script, the number of inputs is the number of
    operations of the signature script, and the expected inputs are -1
    for null data and non-standard scripts, 4 for a thread script and
    twice the signature count, at least 4, for the multi-signature
    classes. *)
Theorem CalcScriptInfo_result (sigScript pkScript : list Z) (bip16 : bool) :
  match CalcScriptInfo sigScript pkScript bip16 with
  | Ok si =>
      exists sigPops pkPops,
        ParseScript sigScript = Some sigPops /\
        ParseScript pkScript = Some pkPops /\
        isPushOnly sigPops = true /\
        PkScriptClass si = GetScriptClass pkScript /\
        NumInputs si = len sigPops /\
        (PkScriptClass si = NullDataTy \/ PkScriptClass si = NonStandardTy ->
         ExpectedInputs si = -1) /\
        (PkScriptClass si = AztecAdminTy -> ExpectedInputs si = 4) /\
        (PkScriptClass si = AztecTy \/ PkScriptClass si = GeneralAztecTy ->
         ExpectedInputs si = 2 * asSmallInt (pop_opcode (at_ pkPops 0)) /\
         4 <= ExpectedInputs si)
  | Err e =>
      ParseScript sigScript = None /\ e = ErrParse sigScript \/
      is_Some (ParseScript sigScript) /\ ParseScript pkScript = None /\
        e = ErrParse pkScript \/
      (exists sigPops, ParseScript sigScript = Some sigPops /\
                       isPushOnly sigPops = false) /\
        is_Some (ParseScript pkScript) /\ e = ErrStackNonPushOnly
  | Panics => False
  end.
Proof.
  rewrite CalcScriptInfo_eq. unfold GetScriptClass.
  destruct (ParseScript sigScript) as [sigPops|]; [|auto].
  destruct (ParseScript pkScript) as [pkPops|]; [|right; left; eauto].
  destruct (isPushOnly sigPops) eqn:HP.
  - destruct (expectedInputs_real pkPops) as (n & Hn & H1 & H2 & H3).
    exists sigPops, pkPops. rewrite Hn. cbn. auto 10.
  - right. right. eauto 10.
Qed.

(** The outputs [IsAztecTx] lets pass, by the class of their script. *)
Lemma aztecOutputs_iff (outs : list TxOut) :
  aztecOutputs outs = true <->
  Forall (fun o =>
            GetScriptClass (PkScript o) = NullDataTy /\ Value o = 0 \/
            GetScriptClass (PkScript o) = AztecTy \/
            GetScriptClass (PkScript o) = GeneralAztecTy) outs.
Proof.
  induction outs as [|o rest IH]; cbn [aztecOutputs].
  - split; [constructor|done].
  - rewrite Forall_cons, <- IH. unfold GetScriptClass.
    destruct (ParseScript (PkScript o)) as [pops|].
    + pose proof (multisig_class_iff pops) as HM.
      destruct (typeOfScript_cases pops)
        as [[Ht HN]|[[Ht (HN & _)]|[[Ht (HN & _)]|[[Ht (HN & _)]|[Ht (HN & _)]]]]];
        rewrite Ht in *; rewrite HN.
      * destruct (Value o =? 0) eqn:Hv; cbn [negb].
        -- apply Z.eqb_eq in Hv. intuition discriminate.
        -- apply Z.eqb_neq in Hv. intuition (discriminate || lia).
      * destruct HM as [HM _]. rewrite HM by auto. cbn [negb]. intuition discriminate.
      * destruct HM as [HM _]. rewrite HM by auto. cbn [negb]. intuition discriminate.
      * destruct (isGeneralAztec pops); cbn [negb];
          intuition (discriminate || congruence).
      * destruct (isGeneralAztec pops); cbn [negb];
          intuition (discriminate || congruence).
    + intuition discriminate.
Qed.

(** X8: [IsAztecTx] holds exactly of a transaction with at least one
    output whose every output either is null data of value 0 or has one
    of the two multi-signature classes; an output that does not parse, a
    thread script or null data carrying value makes it false. *)
Theorem IsAztecTx_iff (tx : MsgTx) :
  IsAztecTx tx = true <->
  TxOuts tx <> [] /\
  Forall (fun o =>
            GetScriptClass (PkScript o) = NullDataTy /\ Value o = 0 \/
            GetScriptClass (PkScript o) = AztecTy \/
            GetScriptClass (PkScript o) = GeneralAztecTy) (TxOuts tx).
Proof.
  unfold IsAztecTx. rewrite <- aztecOutputs_iff.
  destruct (TxOuts tx) as [|o rest].
  - change (len [] =? 0) with true. split; [discriminate|]. intros [? _]. done.
  - assert ((len (o :: rest) =? 0) = false) as ->.
    { apply Z.eqb_neq. rewrite len_cons. pose proof (len_nonneg rest). lia. }
    split; [intros ->; done|]. tauto.
Qed.

(** X9: [ExtractPkScriptAddrs] fails exactly when the script does not
    parse; the class it returns is the one of [GetScriptClass]; two
    signatures are required for the 2-of-3 class and for a thread script
    and none otherwise, the generalized class included; at most one
    address is returned, and only for the 2-of-3 class, whose script has
    the six operations the index expressions need. *)
Theorem ExtractPkScriptAddrs_result (pkScript : list Z) (chainParams : ChainParams) :
  let '(class, addrs, requiredSigs, err) :=
    ExtractPkScriptAddrs pkScript chainParams in
  class = GetScriptClass pkScript /\
  (err = None <-> is_Some (ParseScript pkScript)) /\
  (err <> None -> err = Some (ErrParse pkScript) /\ class = NonStandardTy) /\
  requiredSigs =
    (if bool_decide (class = AztecTy \/ class = AztecAdminTy) then 2 else 0) /\
  (length addrs <= 1)%nat /\
  (addrs <> [] ->
   class = AztecTy /\
   exists pops, ParseScript pkScript = Some pops /\ len pops = 6).
Proof.
  unfold ExtractPkScriptAddrs, GetScriptClass.
  destruct (ParseScript pkScript) as [pops|].
  - destruct (typeOfScript_cases pops)
      as [[Ht _]|[[Ht (_ & HA)]|[[Ht _]|[[Ht _]|[Ht _]]]]]; rewrite Ht.
    2: apply isAztec_inv in HA as [H6 _].
    all: (split; [done|]); (split; [split; eauto|]); (split; [done|]);
      (split;
       [case_bool_decide as Hd;
        first [reflexivity | destruct Hd; discriminate
              | exfalso; apply Hd; auto]|]).
    2: { split; [repeat case_match; cbn; lia|]. intros _. eauto. }
    all: split; [cbn; lia|done].
  - split; [done|]. split; [split; [discriminate|intros [? ?]; discriminate]|].
    split; [done|]. split; [reflexivity|]. split; [cbn; lia|done].
Qed.

(** X10: [String] gives each of the nine classes its name, the two
    multi-signature classes the same one, and "Invalid" to every byte
    above 9; for the byte 9, the length of the table, the bound test lets
    the index through and the call panics. *)
Theorem ScriptClass_String_cases :
  (forall c : ScriptClass,
     exists name, ScriptClass_String (classByte c) = Some name /\
                  name <> "Invalid" /\
                  scriptClassToName !! Z.to_nat (classByte c) = Some name) /\
  ScriptClass_String (classByte AztecTy)
    = ScriptClass_String (classByte GeneralAztecTy) /\
  (forall t, 9 < t -> ScriptClass_String t = Some "Invalid") /\
  (forall t, t < 0 -> ScriptClass_String t = Some "Invalid") /\
  (forall t, ScriptClass_String t = None <-> t = 9).
Proof.
  split; [|split; [|split; [|split]]].
  - intros c. destruct c; eexists; (split; [reflexivity|]); split; done.
  - reflexivity.
  - intros t Ht. unfold ScriptClass_String.
    change (len scriptClassToName) with 9.
    destruct (t >? 9) eqn:H9; [done|]. rewrite Z.gtb_ltb in H9.
    apply Z.ltb_ge in H9. lia.
  - intros t Ht. unfold ScriptClass_String.
    apply Z.ltb_lt in Ht. rewrite Ht, orb_true_r. done.
  - intros t. unfold ScriptClass_String.
    change (len scriptClassToName) with 9.
    rewrite Z.gtb_ltb.
    destruct (9 <? t) eqn:H9; [split; [discriminate|]; apply Z.ltb_lt in H9; lia|].
    destruct (t <? 0) eqn:H0; [split; [discriminate|]; apply Z.ltb_lt in H0; lia|].
    apply Z.ltb_ge in H9, H0. cbn [orb].
    rewrite lookup_ge_None. change (length scriptClassToName) with 9%nat. lia.
Qed.

(** X11: an admin operation [IsValidAdminOp] accepts sits on the root or
    the provisioning thread and has two operations; where the thread
    check is not one of the two push opcodes, it is no thread script, so
    that its class is null data or non-standard. *)
Theorem IsValidAdminOp_class (pops : list parsedOpcode) (threadID : ThreadID) :
  OP_CHECKTHREAD <> OP_DATA_34 ->
  OP_CHECKTHREAD <> OP_DATA_38 ->
  IsValidAdminOp pops threadID = true ->
  (threadID = RootThread \/ threadID = ProvisionThread) /\
  len pops = 2 /\
  isAztecAdmin pops = false /\
  (typeOfScript pops = NullDataTy \/ typeOfScript pops = NonStandardTy).
Proof.
  intros H34 H38 HV.
  assert (len pops = 2 /\
          (value (pop_opcode (at_ pops 1)) = OP_DATA_34 \/
           value (pop_opcode (at_ pops 1)) = OP_DATA_38) /\
          (threadID = RootThread \/ threadID = ProvisionThread))
    as (H2 & Hop & Ht).
  { revert HV. unfold IsValidAdminOp.
    destruct (len pops =? 2) eqn:H2; [|discriminate].
    apply Z.eqb_eq in H2. cbn [negb].
    destruct (value (pop_opcode (at_ pops 0)) =? OP_RETURN); [|discriminate].
    cbn [negb].
    destruct (value (pop_opcode (at_ pops 1)) =? OP_DATA_34) eqn:Ha;
      destruct (value (pop_opcode (at_ pops 1)) =? OP_DATA_38) eqn:Hb;
      cbn [negb andb]; try discriminate;
      rewrite ?Z.eqb_eq in *;
      (destruct (ExtractAdminData pops) as [[op key]|]; [|discriminate]);
      (destruct (threadID =? RootThread) eqn:Hr;
       [apply Z.eqb_eq in Hr; auto|]);
      (destruct (threadID =? ProvisionThread) eqn:Hp;
       [apply Z.eqb_eq in Hp; auto|]);
      destruct (threadID =? IssueThread); discriminate. }
  assert (HD : isAztecAdmin pops = false).
  { unfold isAztecAdmin. rewrite H2. change (2 =? 2) with true.
    change (2 - 1) with 1. cbn [negb].
    destruct (value (pop_opcode (at_ pops 1)) =? OP_CHECKTHREAD) eqn:Hc;
      [|done].
    apply Z.eqb_eq in Hc. destruct Hop; congruence. }
  split; [done|]. split; [done|]. split; [done|].
  destruct (typeOfScript_cases pops)
    as [[Ht' _]|[[Ht' (_ & HA)]|[[Ht' (_ & _ & HG)]|[[Ht' (_ & _ & HD')]|[Ht' _]]]]];
    auto.
  - apply isAztec_inv in HA as [H6 _]. lia.
  - rewrite isGeneralAztec_short in HG by lia. discriminate.
  - congruence.
Qed.

(** X12: an admin transaction, one from which [GetAdminDetails] reads a
    thread and its admin outputs, is never a standard aztec transaction:
    its first output is a thread script, which [IsAztecTx] does not let
    pass. *)
Theorem admin_tx_not_aztec (tx : MsgTx) (threadID : Z)
    (adminOutputs : list (list parsedOpcode)) :
  GetAdminDetails tx = (threadID, Some adminOutputs) ->
  IsAztecTx tx = false /\
  exists o rest,
    TxOuts tx = o :: rest /\ GetScriptClass (PkScript o) = AztecAdminTy.
Proof.
  intros H. apply GetAdminDetails_Some in H
    as (o & rest & pops & Houts & Hp & Ht & _ & _).
  assert (GetScriptClass (PkScript o) = AztecAdminTy) as Hc
    by (unfold GetScriptClass; by rewrite Hp).
  split; [|eauto].
  destruct (IsAztecTx tx) eqn:Hz; [|done].
  unfold IsAztecTx in Hz. rewrite Houts in Hz.
  destruct (len (o :: rest) =? 0); [done|].
  apply aztecOutputs_iff, Forall_cons in Hz as [Ho _].
  rewrite Hc in Ho. intuition discriminate.
Qed.

End AnalysisFacts.

(* ===================================================================== *)
(** * More of the generator                                               *)
(* ===================================================================== *)

Section SolverCompleteness.
Import Wire Fullblocktests.
Context {G : GenEnv}.

(** An invariant of the turns of a bounded loop holds where the loop
    stands, and held where it stopped. *)
Lemma loopUpTo_invariant {St R} (Inv : St -> Prop) (d : nat)
    (step : St -> St + R) (s : St) :
  (forall a b, Inv a -> step a = inl b -> Inv b) ->
  Inv s ->
  match loopUpTo d step s with
  | inl s' => Inv s'
  | inr r => exists s', Inv s' /\ step s' = inr r
  end.
Proof.
  intros Hstep. revert s. induction d as [|d IH]; intros s Hs; cbn [loopUpTo].
  - destruct (step s) eqn:H1; eauto.
  - pose proof (IH s Hs) as H1.
    destruct (loopUpTo d step s) as [s1|r1]; [|done].
    by apply IH.
Qed.

(** A goroutine that reports no solution has tried every nonce of its
    range. *)
Lemma solver_exhausted (target : Z) (hdr : BlockHeader)
    (startNonce stopNonce : Z) (r : sbResult) :
  1 <= startNonce -> stopNonce < 2 ^ 32 ->
  solver target hdr startNonce stopNonce = Some r ->
  found r = false ->
  forall n, startNonce <= n <= stopNonce ->
    target < HashToBig (BlockHash (withNonce hdr n)).
Proof.
  intros Hs Hp. unfold solver.
  set (fails := fun n => target < HashToBig (BlockHash (withNonce hdr n))).
  set (Inv := fun i : Z =>
    (startNonce <= i /\
     forall n, startNonce <= n < i -> n <= stopNonce -> fails n) \/
    (i < startNonce /\ forall n, startNonce <= n <= stopNonce -> fails n)).
  assert (Hinv : forall a b, Inv a ->
            solverStep target hdr startNonce stopNonce a = inl b -> Inv b).
  { intros a b Ha. unfold solverStep.
    destruct (Z.geb_spec a startNonce); cbn [andb]; [|done].
    destruct (Z.leb_spec a stopNonce); [|done].
    destruct (Z.leb_spec (HashToBig (BlockHash (withNonce hdr a))) target);
      [done|].
    intros [= <-].
    destruct Ha as [[_ Ha]|[? _]]; [|lia].
    assert (forall n, startNonce <= n < a + 1 -> n <= stopNonce -> fails n)
      as Ha'.
    { intros n Hn1 Hn2. destruct (Z.eq_dec n a) as [->|]; [done|].
      apply Ha; lia. }
    destruct (Z.eq_dec a (2 ^ 32 - 1)) as [->|].
    - change (u32 (2 ^ 32 - 1 + 1)) with 0. right. split; [lia|].
      intros n Hn. apply Ha'; lia.
    - rewrite u32_small by lia. left. split; [lia|done]. }
  pose proof (loopUpTo_invariant Inv 33 _ startNonce Hinv) as Hloop.
  destruct (loopUpTo 33 _ startNonce) as [|r'] eqn:Hl; [done|].
  intros [= ->] Hf n Hn.
  destruct Hloop as (i & Hi & Hstep).
  { left. split; [lia|]. intros; lia. }
  unfold solverStep in Hstep.
  destruct (Z.geb_spec i startNonce); cbn [andb] in Hstep.
  - destruct (Z.leb_spec i stopNonce).
    + destruct (HashToBig _ <=? target); [|done].
      injection Hstep as <-. done.
    + destruct Hi as [[_ Hi]|[? _]]; [|lia]. apply Hi; lia.
  - destruct Hi as [[? _]|[_ Hi]]; [lia|]. by apply Hi.
Qed.

(** What the receiving loop returns with [false]: the header as it was,
    none of the results it looked at being a solution. *)
Lemma receive_false (n : nat) (results : list sbResult)
    (header header' : BlockHeader) :
  receive n results header = (false, header') ->
  header' = header /\ Forall (fun r => found r = false) (take n results).
Proof.
  revert n. induction results as [|r results IH]; intros [|n]; cbn;
    try (intros [= <-]; split; [done|constructor]).
  destruct (found r) eqn:Hf; [done|].
  intros Hr. destruct (IH _ Hr) as [-> Hall]. split; [done|].
  by constructor.
Qed.

Lemma length_omap_total {A B} (f : A -> option B) (l : list A) :
  Forall (fun x => is_Some (f x)) l -> length (omap f l) = length l.
Proof.
  induction 1 as [|x l [y Hy] _ IH]; [done|].
  cbn [omap list_omap]. rewrite Hy. cbn [length]. by rewrite IH.
Qed.

Lemma mapM_id_Some {A} (l : list (option A)) (k : list A) :
  mapM id l = Some k -> l = Some <$> k.
Proof.
  intros H. apply mapM_Some in H.
  induction H as [|x y l k Hxy _ IH]; [done|].
  cbn [fmap list_fmap]. unfold id in Hxy. by rewrite Hxy, IH.
Qed.

(** With every goroutine delivering, a failure means that no goroutine
    found a solution in its range. *)
Lemma solveBlockWith_false (numCores : Z) (order : list nat)
    (header header' : BlockHeader) :
  1 <= numCores < 2 ^ 32 ->
  order ≡ₚ seq 0 (Z.to_nat numCores) ->
  solveBlockWith numCores order header = Some (false, header') ->
  header' = header /\
  forall n, 1 <= n <= 2 ^ 32 - 1 ->
    CompactToBig (Bits header) < HashToBig (BlockHash (withNonce header n)).
Proof.
  intros HN Hperm.
  destruct (coreRange_partition numCores HN) as (_ & _ & _ & Hin & Hcover & _).
  unfold solveBlockWith.
  set (worker := fun i : nat =>
    if Z.of_nat i <? numCores
    then let '(rangeStart, rangeStop) := coreRange numCores (Z.of_nat i) in
         Some (solver (CompactToBig (Bits header)) header rangeStart rangeStop)
    else None).
  destruct (mapM id (omap worker order)) as [results|] eqn:Hres; [|done].
  intros [= Hrecv]. apply receive_false in Hrecv as [-> Hall].
  split; [done|]. intros n Hn.
  apply mapM_id_Some in Hres.
  assert (Hlen : length results = Z.to_nat numCores).
  { rewrite <- (length_fmap Some results), <- Hres, length_omap_total.
    - by rewrite Hperm, length_seq.
    - apply Forall_forall. intros i Hi. rewrite Hperm in Hi.
      apply elem_of_seq in Hi. unfold worker.
      destruct (Z.ltb_spec (Z.of_nat i) numCores); [|lia].
      destruct (coreRange numCores (Z.of_nat i)). eauto. }
  rewrite take_ge in Hall by lia.
  destruct (Hcover n Hn) as (i & Hi & Hrange).
  assert (Z.to_nat i ∈ order) as Hio.
  { rewrite Hperm. apply elem_of_seq. lia. }
  destruct (coreRange numCores i) as [rs rp] eqn:Hcr.
  assert (solver (CompactToBig (Bits header)) header rs rp
          ∈ omap worker order) as Hd.
  { apply list_elem_of_omap. exists (Z.to_nat i). split; [done|].
    unfold worker. rewrite Z2Nat.id by lia.
    destruct (Z.ltb_spec i numCores); [|lia]. by rewrite Hcr. }
  rewrite Hres in Hd. apply list_elem_of_fmap in Hd as (r & Hid & Hr).
  assert (found r = false) as Hf.
  { rewrite Forall_forall in Hall. by apply Hall. }
  unfold inCoreRange in Hrange. rewrite Hcr in Hrange. cbn [fst snd] in Hrange.
  assert (1 <= rs /\ rp <= 2 ^ 32 - 1) as [? ?].
  { split.
    - apply (Hin i rs); [done|]. unfold inCoreRange. rewrite Hcr. cbn [fst snd]. lia.
    - apply (Hin i rp); [done|]. unfold inCoreRange. rewrite Hcr. cbn [fst snd]. lia. }
  apply (solver_exhausted _ _ rs rp r); [lia | lia | exact Hid | exact Hf | exact Hrange].
Qed.

(** X13: when every goroutine delivers its result, [solveBlock] reports
    success exactly when some nonce of [1, 2^32 - 1] solves the header,
    and on a failure it leaves the header as it was: "False is returned
    if no solution exists". *)
Theorem solveBlock_complete (numCores : Z) (order : list nat)
    (header : BlockHeader) :
  1 <= numCores < 2 ^ 32 ->
  order ≡ₚ seq 0 (Z.to_nat numCores) ->
  exists ok header',
    solveBlockWith numCores order header = Some (ok, header') /\
    (ok = true <->
     exists n, 1 <= n <= 2 ^ 32 - 1 /\
       HashToBig (BlockHash (withNonce header n))
       <= CompactToBig (Bits header)) /\
    (ok = false -> header' = header).
Proof.
  intros HN Hperm.
  destruct (solveBlockWith_total numCores order header HN) as [[ok header'] Hs].
  exists ok, header'. split; [done|]. destruct ok.
  - destruct (solveBlockWith_found _ _ _ _ HN Hs) as (Hn & Heq & Hh).
    split; [|done]. split; [|done]. intros _.
    exists (Nonce header'). split; [done|]. by rewrite <- Heq.
  - destruct (solveBlockWith_false _ _ _ _ HN Hperm Hs) as [-> Hall].
    split; [|done]. split; [done|].
    intros (n & Hn & Hh). specialize (Hall n Hn). lia.
Qed.

End SolverCompleteness.

Section GeneratorMore.
Import Wire Fullblocktests GenerateShape.
Context {G : GenEnv}.

Create HintDb quietly.

#[local] Hint Resolve quiet_ret quiet_panic quiet_get quiet_deref quiet_index
  quiet_orPanic quiet_createCoinbaseTx quiet_addFee quiet_draft_txns
  quiet_draft_ts : quietly.

Ltac step_quiet :=
  cbv beta zeta;
  rewrite bind_quiet by auto with quietly;
  let a := fresh "a" in let v := fresh "v" in let Ho := fresh "Ho" in
  match goal with
  | |- context [match outcome ?r with _ => _ end] =>
      destruct (outcome r) as [a|v] eqn:Ho
  end.

(** ** The tip and the maps by name *)

(** The tip of a reachable generator is what the maps hold under the tip
    name. *)
Lemma built_coherent (names : gset string) (g : testGenerator) :
  built names g ->
  tip g = blocksByName g !! tipName g /\
  tipHeight g = default 0 (blockHeights g !! tipName g).
Proof.
  induction 1 as [p | names g blockName spend mungers block _ _ Hv
                  | names g blockName _ _ | names g outs collected _ IH].
  - cbn. by rewrite !lookup_singleton_eq.
  - rewrite (nextBlock_Val_final _ _ _ _ _ Hv). cbn.
    by rewrite !lookup_insert_eq.
  - unfold setTip. rewrite bind_quiet by apply quiet_get. done.
  - done.
Qed.

Lemma setTip_final (blockName : string) (g : testGenerator) :
  setTip blockName g =
  mkRun (Val tt)
    (mkTestGenerator (params g) (blocksByName g !! blockName) blockName
       (default 0 (blockHeights g !! blockName))
       (blocks g) (blocksByName g) (blockHeights g)
       (spendableOuts g) (prevCollectedHash g)) [].
Proof. unfold setTip. rewrite bind_quiet by apply quiet_get. done. Qed.

(** X14: in a generator reached from the genesis generator the tip and
    the tip height are what the two maps by name hold under the tip name,
    the tip is nil exactly when the tip name was never registered, and
    [setTip] back to the tip name undoes any [setTip]. *)
Theorem setTip_round_trip (names : gset string) (g : testGenerator) :
  built names g ->
  tip g = blocksByName g !! tipName g /\
  tipHeight g = default 0 (blockHeights g !! tipName g) /\
  (tip g = None <-> tipName g ∉ names) /\
  (forall other : string,
     final (setTip (tipName g) (final (setTip other g))) = g).
Proof.
  intros Hb. destruct (built_coherent _ _ Hb) as [Ht Hh].
  destruct (built_dom _ _ Hb) as [Hd _].
  split; [done|]. split; [done|]. split.
  - rewrite Ht, <- Hd, not_elem_of_dom. done.
  - intros other. rewrite !setTip_final. cbn.
    rewrite <- Ht, <- Hh. by destruct g.
Qed.

(** X15: [setTip] to a name that was registered makes the block and the
    height registered under it the tip; the tip is nil afterwards exactly
    when the name was never registered; the maps are left as they
    were. *)
Theorem setTip_registered (names : gset string) (g : testGenerator)
    (blockName : string) :
  built names g ->
  (blockName ∈ names ->
   exists block height,
     blocksByName g !! blockName = Some block /\
     blockHeights g !! blockName = Some height /\
     tip (final (setTip blockName g)) = Some block /\
     tipHeight (final (setTip blockName g)) = height) /\
  (tip (final (setTip blockName g)) = None <-> blockName ∉ names) /\
  tipName (final (setTip blockName g)) = blockName /\
  blocks (final (setTip blockName g)) = blocks g /\
  blocksByName (final (setTip blockName g)) = blocksByName g /\
  blockHeights (final (setTip blockName g)) = blockHeights g /\
  built names (final (setTip blockName g)).
Proof.
  intros Hb. destruct (built_dom _ _ Hb) as [Hd1 Hd2].
  split; [|split; [|split; [|split; [|split; [|split]]]]].
  - intros Hin.
    assert (is_Some (blocksByName g !! blockName)) as [block Hblock]
      by (apply elem_of_dom; by rewrite Hd1).
    assert (is_Some (blockHeights g !! blockName)) as [height Hheight]
      by (apply elem_of_dom; by rewrite Hd2).
    exists block, height. rewrite setTip_final. cbn.
    by rewrite Hblock, Hheight.
  - rewrite setTip_final. cbn. by rewrite <- Hd1, not_elem_of_dom.
  - by rewrite setTip_final.
  - by rewrite setTip_final.
  - by rewrite setTip_final.
  - by rewrite setTip_final.
  - by apply built_setTip.
Qed.

(** ** nextBlock *)

(** X16: a call of [nextBlock] that panics leaves the generator as it
    was; one that returns makes the block the tip at the next height,
    registers it under its name and its hash, and leaves what is
    registered under every other name, the parameters and the spendable
    outputs as they were. *)
Theorem nextBlock_frame (blockName : string) (spend : option spendableOut)
    (mungers : list (MsgBlock -> MsgBlock)) (g : testGenerator) :
  let r := nextBlock blockName spend mungers g in
  (forall v, outcome r = Panic v -> final r = g) /\
  (forall block, outcome r = Val block ->
     tip (final r) = Some block /\
     tipName (final r) = blockName /\
     tipHeight (final r) = u32 (tipHeight g + 1) /\
     blocksByName (final r) !! blockName = Some block /\
     blockHeights (final r) !! blockName = Some (u32 (tipHeight g + 1)) /\
     blocks (final r) !! BlockHash (Header block) = Some block /\
     (forall other, other <> blockName ->
        blocksByName (final r) !! other = blocksByName g !! other /\
        blockHeights (final r) !! other = blockHeights g !! other) /\
     params (final r) = params g /\
     spendableOuts (final r) = spendableOuts g /\
     prevCollectedHash (final r) = prevCollectedHash g).
Proof.
  intros r. split.
  - subst r. rewrite nextBlock_run.
    destruct (outcome (draftBlock g spend g)); [|done]. cbv zeta.
    destruct (outcome (sealBlock _ _ _ _ g)); done.
  - intros block Hv. subst r. rewrite (nextBlock_Val_final _ _ _ _ _ Hv). cbn.
    rewrite !lookup_insert_eq.
    split_and!; try done.
    intros other Ho. by rewrite !lookup_insert_ne.
Qed.

(** What [sealBlock] returns: the transactions of the block it was
    handed, under a header with the merkle root by the first rule, the
    size and the signature, and the nonce by the second rule. *)
Lemma sealBlock_Val {S} (curMerkleRoot : Hash) (curNonce nextHeight : Z)
    (m block : MsgBlock) (s : S) :
  outcome (sealBlock curMerkleRoot curNonce nextHeight m s) = Val block ->
  exists root,
    (if bool_decide (MerkleRoot (Header m) = curMerkleRoot)
     then outcome (calcMerkleRoot (Transactions m) s) = Val root
     else root = MerkleRoot (Header m)) /\
    Transactions block = Transactions m /\
    let sized :=
      withSize (withMerkleRoot (Header m) root)
        (u32 (SerializeSize
                (mkMsgBlock (withMerkleRoot (Header m) root) (Transactions m)))) in
    if Nonce (Header m) =? curNonce
    then 1 <= Nonce (Header block) <= 2 ^ 32 - 1 /\
         Header block = withNonce (Sign sized) (Nonce (Header block)) /\
         HashToBig (BlockHash (Header block)) <= CompactToBig (Bits (Header m))
    else Header block = Sign sized.
Proof.
  unfold sealBlock. intros H.
  apply bind_outcome_Val in H as (b1 & Hb1 & H & _).
  pose proof (recalcMerkleRoot_run curMerkleRoot m s) as (Hf & _ & _).
  rewrite Hf in H. clear Hf.
  assert (exists root,
            (if bool_decide (MerkleRoot (Header m) = curMerkleRoot)
             then outcome (calcMerkleRoot (Transactions m) s) = Val root
             else root = MerkleRoot (Header m)) /\
            b1 = mkMsgBlock (withMerkleRoot (Header m) root) (Transactions m))
    as (root & Hroot & ->).
  { revert Hb1. unfold recalcMerkleRoot. case_bool_decide.
    - rewrite bind_ret_run. cbn [outcome].
      destruct (outcome (calcMerkleRoot (Transactions m) s)) as [root|];
        [|done].
      intros [= <-]. by exists root.
    - intros [= <-]. exists (MerkleRoot (Header m)). split; [done|].
      by destruct m as [[] ?]. }
  exists root. split; [done|].
  revert H. unfold solveUnlessChanged. cbn [Header Transactions withHeader].
  rewrite Nonce_sign_size. cbn [Nonce withMerkleRoot].
  destruct (Nonce (Header m) =? curNonce).
  - intros H. apply bind_outcome_Val in H as ([ok h'] & Hs & H & _).
    cbn [fst snd] in H. destruct ok; cbn [negb] in H; [|done].
    injection H as <-. cbn [Transactions Header withHeader].
    apply solveBlock_Val in Hs as (Hn & Heq & Hh).
    split; [done|]. split; [done|]. split; [exact Heq|]. exact Hh.
  - intros [= <-]. done.
Qed.

(** X17: the block [nextBlock] returns has the transactions of the munged
    draft; its merkle root is the one computed from them if the munge
    functions left the draft's root in place, and the munged root
    otherwise; if they left the nonce at 0, its nonce is one of
    [1, 2^32 - 1] under which the header hashes to at most the target of
    its bits, and otherwise its nonce is the munged one, unsolved; the
    other fields of the header that link it to the chain are those of the
    munged draft. *)
Theorem nextBlock_sealed (blockName : string) (spend : option spendableOut)
    (mungers : list (MsgBlock -> MsgBlock)) (g : testGenerator)
    (block : MsgBlock) :
  outcome (nextBlock blockName spend mungers g) = Val block ->
  exists draft,
    outcome (draftBlock g spend g) = Val draft /\
    let m := munge mungers draft in
    Transactions block = Transactions m /\
    (MerkleRoot (Header m) = MerkleRoot (Header draft) ->
     outcome (calcMerkleRoot (Transactions m) g)
     = Val (MerkleRoot (Header block))) /\
    (MerkleRoot (Header m) <> MerkleRoot (Header draft) ->
     MerkleRoot (Header block) = MerkleRoot (Header m)) /\
    (Nonce (Header m) = 0 ->
     1 <= Nonce (Header block) <= 2 ^ 32 - 1 /\
     HashToBig (BlockHash (Header block)) <= CompactToBig (Bits (Header m))) /\
    (Nonce (Header m) <> 0 -> Nonce (Header block) = Nonce (Header m)) /\
    Version (Header block) = Version (Header m) /\
    PrevBlock (Header block) = PrevBlock (Header m) /\
    Timestamp (Header block) = Timestamp (Header m) /\
    Bits (Header block) = Bits (Header m) /\
    Height (Header block) = Height (Header m).
Proof.
  rewrite nextBlock_run.
  destruct (outcome (draftBlock g spend g)) as [draft|] eqn:Hd; [|done].
  cbv zeta.
  destruct (outcome (sealBlock _ _ _ _ g)) as [b|] eqn:Hs; [|done].
  cbn [outcome]. intros [= ->]. exists draft. split; [done|].
  destruct (draftBlock_Val _ _ _ _ Hd) as (_ & Hn0 & _ & _).
  apply sealBlock_Val in Hs as (root & Hroot & Htx & Hhdr).
  cbv zeta in Hhdr |- *. rewrite Hn0 in Hhdr.
  set (m := munge mungers draft) in *.
  assert (Hfields :
    MerkleRoot (Header block) = root /\
    (if Nonce (Header m) =? 0
     then 1 <= Nonce (Header block) <= 2 ^ 32 - 1 /\
          HashToBig (BlockHash (Header block)) <= CompactToBig (Bits (Header m))
     else Nonce (Header block) = Nonce (Header m)) /\
    Version (Header block) = Version (Header m) /\
    PrevBlock (Header block) = PrevBlock (Header m) /\
    Timestamp (Header block) = Timestamp (Header m) /\
    Bits (Header block) = Bits (Header m) /\
    Height (Header block) = Height (Header m)).
  { destruct (Nonce (Header m) =? 0).
    - destruct Hhdr as (Hn & Heq & Hh). rewrite Heq. cbn.
      rewrite Heq in Hh. cbn in Hn. done.
    - rewrite Hhdr. done. }
  destruct Hfields as (Hmr & Hnonce & Hv & Hp & Hts & Hbits & Hheight).
  split; [done|]. split; [|split; [|split; [|split]]].
  - intros Heq. rewrite bool_decide_eq_true_2 in Hroot by done.
    by rewrite Hmr.
  - intros Hne. rewrite bool_decide_eq_false_2 in Hroot by done.
    by rewrite Hmr.
  - intros H0. rewrite H0 in Hnonce. exact Hnonce.
  - intros Hne. apply Z.eqb_neq in Hne. by rewrite Hne in Hnonce.
  - done.
Qed.

(** ** The queue of spendable outputs *)

Lemma quiet_makeSpendableOutForTx {S} (tx : MsgTx) (txOutIndex : Z) :
  quiet (@makeSpendableOutForTx G S tx txOutIndex).
Proof.
  unfold makeSpendableOutForTx.
  repeat (apply quiet_bind; [auto with quietly|intros ?]). auto with quietly.
Qed.

Lemma quiet_makeSpendableOut {S} (block : option MsgBlock) (txIndex txOutIndex : Z) :
  quiet (@makeSpendableOut G S block txIndex txOutIndex).
Proof.
  unfold makeSpendableOut.
  apply quiet_bind; [auto with quietly|intros ?].
  apply quiet_bind; [auto with quietly|intros ?].
  apply quiet_makeSpendableOutForTx.
Qed.

(** A run of [saveTipCoinbaseOut] that returns has appended one output
    to the queue and changed nothing else but the collected hash. *)
Lemma saveTipCoinbaseOut_Val (g : testGenerator) (u : unit) :
  outcome (saveTipCoinbaseOut g) = Val u ->
  exists out t,
    tip g = Some t /\
    outcome (makeSpendableOut (S := testGenerator) (tip g) 0 0 g) = Val out /\
    final (saveTipCoinbaseOut g) =
    mkTestGenerator (params g) (tip g) (tipName g) (tipHeight g)
      (blocks g) (blocksByName g) (blockHeights g)
      (spendableOuts g ++ [out]) (BlockHash (Header t)).
Proof.
  unfold saveTipCoinbaseOut. rewrite bind_quiet by apply quiet_get.
  cbn [outcome get]. rewrite bind_quiet by apply quiet_makeSpendableOut.
  destruct (outcome (makeSpendableOut (tip g) 0 0 g)) as [out|] eqn:Ho; [|done].
  rewrite bind_quiet by apply quiet_deref.
  destruct (tip g) as [t|] eqn:Ht; [|done].
  cbn. intros _. by exists out, t.
Qed.

(** A run of [oldestCoinbaseOut]: a panic on the empty queue, otherwise
    the head of the queue, which it removes. *)
Lemma oldestCoinbaseOut_run (g : testGenerator) :
  oldestCoinbaseOut g =
  match spendableOuts g with
  | [] => mkRun (Panic indexOutOfRange) g []
  | op :: rest =>
      mkRun (Val op)
        (mkTestGenerator (params g) (tip g) (tipName g) (tipHeight g)
           (blocks g) (blocksByName g) (blockHeights g)
           rest (prevCollectedHash g)) []
  end.
Proof.
  unfold oldestCoinbaseOut. rewrite bind_quiet by apply quiet_get.
  cbn [outcome get]. rewrite bind_quiet by apply quiet_index.
  destruct (spendableOuts g) as [|op rest]; done.
Qed.

(** The second loop of [Generate], by the length of the queue. *)
Lemma collectOuts_run (n : nat) (outs : list spendableOut) (s : genState) :
  let queue := spendableOuts (gen s) in
  let r := collectOuts n outs s in
  ((n <= length queue)%nat ->
   outcome r = Val (outs ++ take n queue) /\
   spendableOuts (gen (final r)) = drop n queue /\
   tests (final r) = tests s /\
   tip (gen (final r)) = tip (gen s) /\
   tipName (gen (final r)) = tipName (gen s) /\
   tipHeight (gen (final r)) = tipHeight (gen s) /\
   blocksByName (gen (final r)) = blocksByName (gen s) /\
   blockHeights (gen (final r)) = blockHeights (gen s)) /\
  ((length queue < n)%nat -> outcome r = Panic indexOutOfRange).
Proof.
  revert outs s. induction n as [|n IH]; intros outs s; cbv zeta.
  - cbn [collectOuts]. split; [|lia]. intros _.
    cbn. rewrite take_0, drop_0, app_nil_r. done.
  - cbn [collectOuts].
    assert (Hl : liftG oldestCoinbaseOut s =
                 mkRun (outcome (oldestCoinbaseOut (gen s)))
                       (mkGenState (final (oldestCoinbaseOut (gen s))) (tests s))
                       (calls (oldestCoinbaseOut (gen s)))) by done.
    rewrite oldestCoinbaseOut_run in Hl.
    destruct (spendableOuts (gen s)) as [|op rest] eqn:Hq.
    + split; [cbn; lia|]. intros _.
      rewrite (bind_Panic _ _ _ indexOutOfRange); [done|]. by rewrite Hl.
    + rewrite (bind_Val _ _ _ op) by (by rewrite Hl). rewrite Hl.
      cbn [outcome final calls].
      specialize (IH (outs ++ [op])
                     (mkGenState
                        (mkTestGenerator (params (gen s)) (tip (gen s))
                           (tipName (gen s)) (tipHeight (gen s))
                           (blocks (gen s)) (blocksByName (gen s))
                           (blockHeights (gen s)) rest
                           (prevCollectedHash (gen s))) (tests s))).
      cbv zeta in IH. cbn [gen spendableOuts tests tip tipName tipHeight
                           blocksByName blockHeights] in IH.
      destruct IH as [IH1 IH2]. split.
      * intros Hn. cbn [length] in Hn.
        destruct IH1 as (Ho & Hs & Hrest); [lia|].
        rewrite Ho, Hs, <- app_assoc. done.
      * intros Hn. cbn [length] in Hn. apply IH2. lia.
Qed.

(** X18: the second loop of [Generate] takes the outputs off the queue
    oldest first: with at least [n] outputs saved it returns the first
    [n] of them, in the order they were saved, after the outputs it was
    handed, and leaves the rest in the queue, the tip and [tests] as they
    were; with fewer it panics, with an index out of range. *)
Theorem collectOuts_fifo (n : nat) (outs : list spendableOut) (s : genState) :
  let queue := spendableOuts (gen s) in
  let r := collectOuts n outs s in
  outcome r =
    (if decide (n <= length queue)%nat then Val (outs ++ take n queue)
     else Panic indexOutOfRange) /\
  ((n <= length queue)%nat ->
   spendableOuts (gen (final r)) = drop n queue /\
   tests (final r) = tests s /\
   tip (gen (final r)) = tip (gen s) /\
   tipName (gen (final r)) = tipName (gen s) /\
   tipHeight (gen (final r)) = tipHeight (gen s)).
Proof.
  intros queue r. destruct (collectOuts_run n outs s) as [Hok Hfail].
  fold queue in Hok, Hfail. fold r in Hok, Hfail.
  destruct (decide (n <= length queue)%nat) as [Hn|Hn].
  - destruct (Hok Hn) as (Ho & Hq & Ht & Htip & Hname & Hh & _).
    split; [done|]. intros _. done.
  - split; [apply Hfail; lia|]. intros ?. lia.
Qed.

(** ** The block nextBlock builds *)

(** The draft of [nextBlock]: it extends the tip, one height up, with the
    coinbase transaction and, when an output is spent, the transaction
    that spends it, whose fee of 1 goes to the coinbase. *)
Lemma draftBlock_fields (g : testGenerator) (spend : option spendableOut)
    (s : testGenerator) (draft : MsgBlock) :
  outcome (draftBlock g spend s) = Val draft ->
  let nextHeight := u32 (tipHeight g + 1) in
  exists t coinbaseScript,
    tip g = Some t /\
    coinbaseScriptFor nextHeight 0 = Success coinbaseScript /\
    Header draft =
      mkBlockHeader 1 (BlockHash (Header t)) (MerkleRoot (Header draft))
        (if nextHeight =? 1 then timeNow else Timestamp (Header t) + 120)
        (PowLimitBits (params g)) nextHeight 0 0 [] /\
    Transactions draft =
      mkMsgTx [mkTxIn (mkOutPoint 0 MaxPrevOutIndex) coinbaseScript
                      MaxTxInSequenceNum]
              [mkTxOut (CalcBlockSubsidy nextHeight (params g)
                        + match spend with Some _ => 1 | None => 0 end)
                       (provaScript (randRead nextHeight))]
      :: match spend with
         | Some sp => [createSpendTx sp 1]
         | None => []
         end.
Proof.
  unfold draftBlock. cbv zeta.
  step_quiet; [|done]. step_quiet; [|done]. step_quiet; [|done].
  step_quiet; [|done].
  cbv beta zeta. rewrite bind_ret_run. cbn [outcome].
  destruct (outcome (calcMerkleRoot a0 s)) as [root|]; [|done].
  intros [= <-]. cbn [Header Transactions MerkleRoot].
  destruct (tip g) as [t|]; [|discriminate Ho2].
  injection Ho2 as <-.
  unfold createCoinbaseTx in Ho.
  destruct (coinbaseScriptFor (u32 (tipHeight g + 1)) 0) as [script|] eqn:Hcs;
    [|discriminate Ho].
  cbn in Ho. injection Ho as <-.
  exists t, script. split; [done|]. split; [done|]. split.
  - f_equal. destruct (u32 (tipHeight g + 1) =? 1).
    + by injection Ho1 as <-.
    + cbn in Ho1. by injection Ho1 as <-.
  - destruct spend as [sp|].
    + cbn in Ho0. injection Ho0 as <-. done.
    + injection Ho0 as <-. cbn. by rewrite Z.add_0_r.
Qed.


Lemma recalcMerkleRoot_Bits {S} (curMerkleRoot : Hash) (block block' : MsgBlock)
    (s : S) :
  outcome (recalcMerkleRoot curMerkleRoot block s) = Val block' ->
  Bits (Header block') = Bits (Header block) /\
  Nonce (Header block') = Nonce (Header block).
Proof.
  unfold recalcMerkleRoot. case_bool_decide.
  - rewrite bind_ret_run. cbn [outcome].
    destruct (outcome (calcMerkleRoot (Transactions block) s)); [|done].
    by intros [= <-].
  - by intros [= <-].
Qed.

(** With at least one core, [solveBlock] returns. *)
Lemma solveBlock_returns {S} (header : BlockHeader) (s : S) :
  u32 NumCPU <> 0 ->
  exists ok header', outcome (solveBlock header s) = Val (ok, header').
Proof.
  intros Hz. unfold solveBlock, bind, logCall. cbn [outcome final calls].
  apply Z.eqb_neq in Hz. rewrite Hz.
  apply Z.eqb_neq in Hz. pose proof (u32_range NumCPU) as Hr.
  assert (1 <= u32 NumCPU < 2 ^ 32) as HN by lia.
  destruct (solveBlockWith_total (u32 NumCPU) (arrival header) header HN)
    as [[ok header'] ->].
  by exists ok, header'.
Qed.

(** X20: when the munge functions leave the nonce at 0 and no nonce of
    [1, 2^32 - 1] solves a header of the block's bits, [nextBlock] aborts:
    it panics with the message "Unable to solve block at height" and the
    height, and leaves the generator as it was. *)
Theorem nextBlock_unsolved (blockName : string) (spend : option spendableOut)
    (mungers : list (MsgBlock -> MsgBlock)) (g : testGenerator)
    (draft : MsgBlock) :
  (forall txns, txns <> [] -> BuildMerkleTreeStore txns <> []) ->
  u32 NumCPU <> 0 ->
  outcome (draftBlock g spend g) = Val draft ->
  Nonce (Header (munge mungers draft)) = 0 ->
  (forall hdr n,
     Bits hdr = Bits (Header (munge mungers draft)) ->
     1 <= n <= 2 ^ 32 - 1 ->
     CompactToBig (Bits hdr) < HashToBig (BlockHash (withNonce hdr n))) ->
  outcome (nextBlock blockName spend mungers g)
  = Panic (PanicString ("Unable to solve block at height "
                        +:+ pretty (u32 (tipHeight g + 1)))) /\
  final (nextBlock blockName spend mungers g) = g.
Proof.
  intros Hm Hcpu Hd Hn0 Hnone.
  rewrite nextBlock_run, Hd. cbv zeta.
  destruct (draftBlock_Val _ _ _ _ Hd) as (_ & Hdn & _ & _).
  set (m := munge mungers draft) in *.
  assert (outcome (sealBlock (MerkleRoot (Header draft)) (Nonce (Header draft))
                     (u32 (tipHeight g + 1)) m g)
          = Panic (PanicString ("Unable to solve block at height "
                                +:+ pretty (u32 (tipHeight g + 1))))) as ->;
    [|done].
  unfold sealBlock.
  destruct (recalcMerkleRoot_Val (MerkleRoot (Header draft)) m g Hm)
    as [b1 Hb1].
  destruct (recalcMerkleRoot_Bits _ _ _ _ Hb1) as [Hbits Hnonce].
  destruct (recalcMerkleRoot_run (MerkleRoot (Header draft)) m g) as (Hf & _ & _).
  rewrite (bind_Val _ _ _ _ Hb1). cbn [outcome]. rewrite Hf.
  match goal with
  | |- outcome (solveUnlessChanged _ _ ?b g) = _ => set (sealed := b)
  end.
  assert (Nonce (Header sealed) = Nonce (Header draft)) as Hsn
    by (subst sealed; cbn [Header withHeader]; rewrite Nonce_sign_size; congruence).
  assert (Bits (Header sealed) = Bits (Header m)) as Hsb
    by (subst sealed; cbn; congruence).
  destruct (solveBlock_returns (Header sealed) g Hcpu) as (ok & header' & Hs).
  destruct ok.
  - exfalso. apply solveBlock_Val in Hs as (Hr & Heq & Hh).
    specialize (Hnone (Header sealed) (Nonce header') Hsb Hr).
    rewrite <- Heq in Hnone. lia.
  - by destruct (solveUnlessChanged_unsolved _ (u32 (tipHeight g + 1))
                   _ _ g Hsn Hs).
Qed.

(** The munge functions of [additionalTx] add their transactions, in
    order, behind those of the block and leave the header alone. *)
Lemma munge_additionalTx (txs : list MsgTx) (block : MsgBlock) :
  munge (map additionalTx txs) block
  = mkMsgBlock (Header block) (Transactions block ++ txs).
Proof.
  revert block. induction txs as [|tx txs IH]; intros block.
  - cbn. rewrite app_nil_r. by destruct block.
  - cbn [map]. unfold munge in *. cbn [foldl]. rewrite IH.
    unfold additionalTx. cbn [Header Transactions].
    by rewrite <- app_assoc.
Qed.

(** X21: with munge functions made by [additionalTx], the block has the
    transactions of the draft followed by the added ones, in order; as
    these functions touch neither the merkle root nor the nonce, the root
    of the block is the one computed over all those transactions and the
    block is solved under the proof-of-work limit. *)
Theorem nextBlock_additionalTx (blockName : string) (spend : option spendableOut)
    (txs : list MsgTx) (g : testGenerator) (block : MsgBlock) :
  outcome (nextBlock blockName spend (map additionalTx txs) g) = Val block ->
  exists draft,
    outcome (draftBlock g spend g) = Val draft /\
    Transactions block = Transactions draft ++ txs /\
    outcome (calcMerkleRoot (Transactions draft ++ txs) g)
      = Val (MerkleRoot (Header block)) /\
    1 <= Nonce (Header block) <= 2 ^ 32 - 1 /\
    HashToBig (BlockHash (Header block))
      <= CompactToBig (PowLimitBits (params g)) /\
    PrevBlock (Header block) = PrevBlock (Header draft) /\
    Height (Header block) = u32 (tipHeight g + 1).
Proof.
  rewrite nextBlock_run.
  destruct (outcome (draftBlock g spend g)) as [draft|] eqn:Hd; [|done].
  cbv zeta.
  destruct (outcome (sealBlock _ _ _ _ g)) as [b|] eqn:Hs; [|done].
  cbn [outcome]. intros [= ->]. exists draft. split; [done|].
  destruct (draftBlock_Val _ _ _ _ Hd) as (_ & Hn0 & _ & _).
  destruct (draftBlock_fields _ _ _ _ Hd) as (t & script & _ & _ & Hh & _).
  cbv zeta in Hh.
  apply sealBlock_Val in Hs as (root & Hroot & Htx & Hhdr).
  rewrite munge_additionalTx in Hroot, Htx, Hhdr.
  cbn [Header Transactions] in Hroot, Htx, Hhdr.
  rewrite bool_decide_eq_true_2 in Hroot by done.
  cbv zeta in Hhdr. rewrite Hn0 in Hhdr. change (0 =? 0) with true in Hhdr.
  destruct Hhdr as (Hn & Heq & Hhash).
  assert (Hfields :
    MerkleRoot (Header block) = root /\
    PrevBlock (Header block) = PrevBlock (Header draft) /\
    Height (Header block) = Height (Header draft)).
  { rewrite Heq. cbn. done. }
  destruct Hfields as (Hmr & Hp & Hhe).
  assert (Bits (Header draft) = PowLimitBits (params g)) as Hb
    by (by rewrite Hh).
  assert (Height (Header draft) = u32 (tipHeight g + 1)) as Hhd
    by (by rewrite Hh).
  rewrite Hb in Hhash. rewrite Hmr, Hhe.
  split_and!; try done; lia.
Qed.

End GeneratorMore.

Section GenerateMore.
Import Wire Fullblocktests GenerateShape.
Context {G : GenEnv}.

Create HintDb quietly2.

#[local] Hint Resolve quiet_ret quiet_panic quiet_get quiet_deref quiet_index
  quiet_orPanic quiet_makeSpendableOutForTx quiet_makeSpendableOut : quietly2.

(** ** The first loop of Generate *)

Lemma liftG_run {A} (m : M testGenerator A) (s : genState) :
  liftG m s =
  mkRun (outcome (m (gen s))) (mkGenState (final (m (gen s))) (tests s))
        (calls (m (gen s))).
Proof. reflexivity. Qed.

Lemma u32_succ (h : Z) (n : nat) :
  u32 (u32 (h + 1) + Z.of_nat n) = u32 (h + Z.of_nat (S n)).
Proof.
  unfold u32. rewrite Zplus_mod_idemp_l. f_equal. lia.
Qed.

(** The first loop of [Generate], when it has run its [n] turns. *)
Lemma matureBlocks_Val (n : nat) (i : Z) (testInstances : list TestInstance)
    (s : genState) (l : list TestInstance) :
  outcome (matureBlocks n i testInstances s) = Val l ->
  let r := matureBlocks n i testInstances s in
  (exists new,
     l = testInstances ++ new /\ length new = n /\
     Forall (fun t => exists name block height keySets keyIds,
                 t = AcceptedBlock name (Some block) height true false
                       keySets keyIds) new) /\
  (exists saved,
     spendableOuts (gen (final r)) = spendableOuts (gen s) ++ saved /\
     length saved = n) /\
  u32 (tipHeight (gen (final r))) = u32 (tipHeight (gen s) + Z.of_nat n) /\
  tests (final r) = tests s.
Proof.
  revert i testInstances s. induction n as [|n IH]; intros i acc s.
  - cbn. intros [= <-]. split; [|split; [|split; [|done]]].
    + exists []. rewrite app_nil_r. split; [done|]. split; [done|constructor].
    + exists []. by rewrite app_nil_r.
    + f_equal. lia.
  - intros H.
    assert (exists g2 b out,
              tip g2 = Some b /\
              tipHeight g2 = u32 (tipHeight (gen s) + 1) /\
              spendableOuts g2 = spendableOuts (gen s) ++ [out] /\
              outcome (matureBlocks n (i + 1)
                         (acc ++ [acceptBlock g2 (tipName g2) (tip g2) true false])
                         (mkGenState g2 (tests s))) = Val l /\
              final (matureBlocks (S n) i acc s) =
              final (matureBlocks n (i + 1)
                       (acc ++ [acceptBlock g2 (tipName g2) (tip g2) true false])
                       (mkGenState g2 (tests s))))
      as (g2 & b & out & Htip2 & Hh2 & Hq2 & H' & Hfin).
    { cbn [matureBlocks] in H |- *. cbv zeta in H |- *.
      apply bind_outcome_Val in H as (b & Hb & H & Hf1 & _).
      rewrite Hf1. clear Hf1.
      rewrite liftG_run in Hb, H |- *. cbn [outcome final] in Hb, H |- *.
      apply bind_outcome_Val in H as (u & Hu & H & Hf2 & _).
      rewrite Hf2. clear Hf2.
      rewrite liftG_run in Hu, H |- *. cbn [outcome final gen tests] in Hu, H |- *.
      pose proof (nextBlock_Val_final _ _ _ _ _ Hb) as Hnext.
      destruct (saveTipCoinbaseOut_Val _ _ Hu) as (out & t & Htip & _ & Hsave).
      unfold bind at 1 in H. cbn [getGen outcome final calls gen] in H.
      unfold bind at 1. cbn [getGen outcome final calls gen].
      eexists _, b, out.
      split; [|split; [|split; [|split; [exact H|reflexivity]]]].
      - rewrite Hsave. cbn [tip]. by rewrite Hnext.
      - rewrite Hsave. cbn [tipHeight]. by rewrite Hnext.
      - rewrite Hsave. cbn [spendableOuts]. by rewrite Hnext. }
    cbv zeta. rewrite Hfin. clear Hfin H.
    specialize (IH _ _ _ H'). cbv zeta in IH.
    destruct IH as ((new & -> & Hlen & Hall) & (saved & Hq & Hsl) & Hh & Ht).
    cbn [gen tests] in Hq, Hh, Ht.
    split; [|split; [|split]].
    + eexists (_ :: new). rewrite <- app_assoc. split; [reflexivity|].
      split; [cbn; by rewrite Hlen|].
      constructor; [|done]. unfold acceptBlock. rewrite Htip2. eauto 10.
    + exists (out :: saved). rewrite Hq, Hq2, <- app_assoc.
      split; [done|]. cbn. by rewrite Hsl.
    + rewrite Hh, Hh2. apply u32_succ.
    + exact Ht.
Qed.

(** X22: when the first loop of [Generate] has run its [n] turns, it has
    appended [n] test instances to the ones it was handed, each expecting
    a block to be accepted on the main chain; it has saved [n] more
    spendable outputs behind those of the queue, so that the second loop,
    run for [n] turns on an empty queue, collects exactly those and
    empties the queue again; the tip height has gone up by [n] (in 32
    bits); [tests] is as it was. *)
Theorem matureBlocks_counts (n : nat) (i : Z) (testInstances : list TestInstance)
    (outs : list spendableOut) (s : genState) (l : list TestInstance) :
  outcome (matureBlocks n i testInstances s) = Val l ->
  let r := matureBlocks n i testInstances s in
  (exists new,
     l = testInstances ++ new /\ length new = n /\
     Forall (fun t => exists name block height keySets keyIds,
                 t = AcceptedBlock name (Some block) height true false
                       keySets keyIds) new) /\
  (exists saved,
     spendableOuts (gen (final r)) = spendableOuts (gen s) ++ saved /\
     length saved = n /\
     (spendableOuts (gen s) = [] ->
      outcome (collectOuts n outs (final r)) = Val (outs ++ saved) /\
      spendableOuts (gen (final (collectOuts n outs (final r)))) = [])) /\
  u32 (tipHeight (gen (final r))) = u32 (tipHeight (gen s) + Z.of_nat n) /\
  tests (final r) = tests s.
Proof.
  intros H r.
  destruct (matureBlocks_Val _ _ _ _ _ H)
    as (Hnew & (saved & Hq & Hsl) & Hh & Ht).
  fold r in Hq, Hh, Ht.
  split; [done|]. split; [|done].
  exists saved. split; [done|]. split; [done|].
  intros Hempty. rewrite Hempty, app_nil_l in Hq.
  destruct (collectOuts_run n outs (final r)) as [Hok _].
  rewrite Hq in Hok. destruct Hok as (Ho & Hd & _); [lia|].
  rewrite Ho, Hd, <- Hsl, firstn_all, drop_all. done.
Qed.

(** ** Admin transactions *)

Lemma length_padded {A} (n : nat) (l : list A) (x : A) :
  length (take n (l ++ replicate n x)) = n.
Proof.
  rewrite length_take, length_app, length_replicate. lia.
Qed.

(** The spendable output made from output [k] of a transaction: its
    script is the script of output 0, whatever [k] is. *)
Lemma makeSpendableOutForTx_outcome {S} (tx : MsgTx) (k : Z) (s : S) :
  outcome (makeSpendableOutForTx tx k s) =
  match TxOuts tx !! 0%nat with
  | None => Panic indexOutOfRange
  | Some out0 =>
      if k <? 0 then Panic indexOutOfRange
      else match TxOuts tx !! Z.to_nat k with
           | Some out =>
               Val (mkSpendableOut (mkOutPoint (TxHash tx) k)
                                   (PkScript out0) (Value out))
           | None => Panic indexOutOfRange
           end
  end.
Proof.
  unfold makeSpendableOutForTx. rewrite bind_quiet by apply quiet_index.
  unfold index at 1. change (0 <? 0) with false.
  change (Z.to_nat 0) with 0%nat. cbv iota.
  destruct (TxOuts tx !! 0%nat) as [out0|]; [|done].
  cbn [ret outcome]. rewrite bind_quiet by apply quiet_index.
  unfold index. destruct (k <? 0); [done|].
  destruct (TxOuts tx !! Z.to_nat k); done.
Qed.

(** X23: an admin transaction that [createAdminTx] builds has one input,
    which spends the output it was handed, and two outputs of value 0:
    the thread script, then the return-data script of a payload of
    exactly 34 bytes that starts with the operation.  The spendable
    output made from either of its outputs carries the thread script of
    output 0, and there is no third output to make one from. *)
Theorem createAdminTx_shape {S} (spend : spendableOut) (threadID op : Z)
    (pubKey : PublicKey) (s : S) (tx : MsgTx) :
  outcome (createAdminTx spend threadID op pubKey s) = Val tx ->
  exists threadScript adminScript payload sigScript,
    threadScriptFor threadID = Success threadScript /\
    returnDataScript payload = Success adminScript /\
    length payload = 34%nat /\
    payload !! 0%nat = Some op /\
    TxIns tx = [mkTxIn (prevOut spend) sigScript MaxTxInSequenceNum] /\
    TxOuts tx = [mkTxOut 0 threadScript; mkTxOut 0 adminScript] /\
    (forall k, 0 <= k <= 1 ->
       outcome (makeSpendableOutForTx tx k s)
       = Val (mkSpendableOut (mkOutPoint (TxHash tx) k) threadScript 0)) /\
    (forall k, 2 <= k ->
       outcome (makeSpendableOutForTx tx k s) = Panic indexOutOfRange).
Proof.
  unfold createAdminTx, aztecThreadScript, aztecAdminScript. intros H.
  apply bind_outcome_Val in H as (threadScript & Ht & H & _).
  apply bind_outcome_Val in H as (adminScript & Ha & H & _).
  injection H as <-.
  destruct (threadScriptFor threadID) as [ts|] eqn:Hts; [|done].
  injection Ht as ->.
  match type of Ha with
  | outcome (orPanic (returnDataScript ?d) _) = _ => set (payload := d) in *
  end.
  destruct (returnDataScript payload) as [as'|] eqn:Has; [|done].
  injection Ha as ->.
  eexists threadScript, adminScript, payload, _.
  split; [done|]. split; [done|]. split.
  { subst payload. cbn [length]. by rewrite length_padded. }
  split; [done|]. split; [reflexivity|]. split; [reflexivity|]. split.
  - intros k Hk. assert (k = 0 \/ k = 1) as [-> | ->] by lia; reflexivity.
  - intros k Hk. rewrite makeSpendableOutForTx_outcome.
    cbn [adminTxOf TxOuts lookup list_lookup].
    destruct (Z.ltb_spec k 0); [lia|].
    rewrite (proj2 (lookup_ge_None _ _)); [done|]. cbn [length]. lia.
Qed.

(** X24: an admin transaction that [createWspAdminTx] builds is on the
    provisioning thread whatever the operation, and its payload has
    exactly 38 bytes: the operation, 33 bytes for the key and 4 for the
    key id. *)
Theorem createWspAdminTx_shape {S} (spend : spendableOut) (op : Z)
    (pubKey : PublicKey) (keyID : Z) (s : S) (tx : MsgTx) :
  outcome (createWspAdminTx spend op pubKey keyID s) = Val tx ->
  exists threadScript adminScript payload sigScript,
    threadScriptFor Txscript.ProvisionThread = Success threadScript /\
    returnDataScript payload = Success adminScript /\
    length payload = 38%nat /\
    payload !! 0%nat = Some op /\
    TxIns tx = [mkTxIn (prevOut spend) sigScript MaxTxInSequenceNum] /\
    TxOuts tx = [mkTxOut 0 threadScript; mkTxOut 0 adminScript].
Proof.
  unfold createWspAdminTx, aztecThreadScript, aztecAdminWSPScript. intros H.
  apply bind_outcome_Val in H as (threadScript & Ht & H & _).
  apply bind_outcome_Val in H as (adminScript & Ha & H & _).
  injection H as <-.
  destruct (threadScriptFor Txscript.ProvisionThread) as [ts|] eqn:Hts; [|done].
  injection Ht as ->.
  match type of Ha with
  | outcome (orPanic (returnDataScript ?d) _) = _ => set (payload := d) in *
  end.
  destruct (returnDataScript payload) as [as'|] eqn:Has; [|done].
  injection Ha as ->.
  eexists threadScript, adminScript, payload, _.
  split; [done|]. split; [done|]. split.
  { subst payload. cbn [length]. rewrite length_app, !length_padded. done. }
  split; [done|]. split; reflexivity.
Qed.

End GenerateMore.

Section GenerateShapeFacts.
Import Wire Fullblocktests GenerateShape.
Context {G : GenEnv}.

(** ** What a run of Generate appends *)

Lemma quiet_getGen : quiet getGen.
Proof. intros s. done. Qed.

Lemma quiet_createAdminTx {S} (spend : spendableOut) (threadID op : Z)
    (pubKey : PublicKey) :
  quiet (@createAdminTx G S spend threadID op pubKey).
Proof.
  unfold createAdminTx, aztecThreadScript, aztecAdminScript.
  apply quiet_bind; [apply quiet_orPanic|intros ?].
  apply quiet_bind; [apply quiet_orPanic|intros ?]. apply quiet_ret.
Qed.

Lemma quiet_createWspAdminTx {S} (spend : spendableOut) (op : Z)
    (pubKey : PublicKey) (keyID : Z) :
  quiet (@createWspAdminTx G S spend op pubKey keyID).
Proof.
  unfold createWspAdminTx, aztecThreadScript, aztecAdminWSPScript.
  apply quiet_bind; [apply quiet_orPanic|intros ?].
  apply quiet_bind; [apply quiet_orPanic|intros ?]. apply quiet_ret.
Qed.

Lemma appendsGroups_weaken {A} (l l' : list nat) (m : M genState A) :
  appendsGroups l m -> l = l' -> appendsGroups l' m.
Proof. by intros H <-. Qed.

Lemma appendsGroups_bind_post {A B} (Q : A -> Prop) (l1 l2 : list nat)
    (m : M genState A) (k : A -> M genState B) :
  (forall s a, outcome (m s) = Val a -> Q a) ->
  appendsGroups l1 m ->
  (forall a, Q a -> appendsGroups l2 (k a)) ->
  appendsGroups (l1 ++ l2) (bind m k).
Proof.
  intros HQ Hm Hk s b Hb.
  apply bind_outcome_Val in Hb as (a & Ha & Hkb & -> & _).
  destruct (Hm s a Ha) as (g1 & E1 & L1).
  destruct (Hk a (HQ _ _ Ha) _ b Hkb) as (g2 & E2 & L2).
  exists (g1 ++ g2). rewrite E2, E1, app_assoc, map_app, L1, L2. done.
Qed.

Lemma appendsGroups_bind {A B} (l1 l2 : list nat)
    (m : M genState A) (k : A -> M genState B) :
  appendsGroups l1 m ->
  (forall a, appendsGroups l2 (k a)) ->
  appendsGroups (l1 ++ l2) (bind m k).
Proof.
  intros Hm Hk. apply (appendsGroups_bind_post (fun _ => True)); auto.
Qed.

Lemma appendsGroups_same {A} (m : M genState A) :
  (forall s a, outcome (m s) = Val a -> tests (final (m s)) = tests s) ->
  appendsGroups [] m.
Proof.
  intros Hm s a Ha. exists []. unfold groupsOf.
  rewrite (Hm s a Ha), app_nil_r. done.
Qed.

Lemma appendsGroups_liftG {A} (m : M testGenerator A) :
  appendsGroups [] (liftG m).
Proof. apply appendsGroups_same. done. Qed.

Lemma appendsGroups_quiet {A} (m : M genState A) :
  quiet m -> appendsGroups [] m.
Proof.
  intros Hq. apply appendsGroups_same. intros s a _.
  by rewrite (proj1 (Hq s)).
Qed.

Lemma appendsGroups_appendTests (group : list TestInstance) (n : nat) :
  length group = n -> appendsGroups [n] (appendTests group).
Proof.
  intros <- s a _. exists [group]. done.
Qed.

Lemma appendsGroups_getGen_appendTests (n : nat)
    (group : testGenerator -> list TestInstance) :
  (forall g, length (group g) = n) ->
  appendsGroups [n] (let* g := getGen in appendTests (group g)).
Proof.
  intros Hn s a _. exists [group (gen s)]. split; [done|].
  cbn. by rewrite Hn.
Qed.

Lemma appendsGroups_accepted : appendsGroups [1%nat] accepted.
Proof. by apply appendsGroups_getGen_appendTests. Qed.

Lemma appendsGroups_acceptedWithAdminKeys (keySetType : Z)
    (adminKeys : option (list PublicKey)) :
  appendsGroups [1%nat] (acceptedWithAdminKeys keySetType adminKeys).
Proof.
  unfold acceptedWithAdminKeys. cbv zeta.
  by apply appendsGroups_getGen_appendTests.
Qed.

Lemma appendsGroups_acceptedWithWspKey (adminKey : PublicKey) (keyID : Z) :
  appendsGroups [1%nat] (acceptedWithWspKey adminKey keyID).
Proof. by apply appendsGroups_getGen_appendTests. Qed.

Lemma appendsGroups_sideChain (tipName' : string) :
  appendsGroups [2%nat] (acceptedToSideChainWithExpectedTip tipName').
Proof. by apply appendsGroups_getGen_appendTests. Qed.

Lemma appendsGroups_rejected (code : Z) : appendsGroups [1%nat] (rejected code).
Proof. by apply appendsGroups_getGen_appendTests. Qed.

Lemma appendsGroups_matureBlocks (n : nat) (i : Z) (acc : list TestInstance) :
  appendsGroups [] (matureBlocks n i acc).
Proof.
  apply appendsGroups_same. intros s l Hl.
  by destruct (matureBlocks_Val _ _ _ _ _ Hl) as (_ & _ & _ & Ht).
Qed.

Lemma collectOuts_Val (n : nat) (outs : list spendableOut) (s : genState)
    (l : list spendableOut) :
  outcome (collectOuts n outs s) = Val l ->
  length l = (length outs + n)%nat /\
  tests (final (collectOuts n outs s)) = tests s.
Proof.
  intros Hl. destruct (collectOuts_run n outs s) as [Hok Hfail].
  destruct (decide (n <= length (spendableOuts (gen s)))%nat) as [Hn|Hn].
  - destruct (Hok Hn) as (Ho & _ & Ht & _). rewrite Ho in Hl.
    injection Hl as <-. split; [|done].
    rewrite length_app, length_take. lia.
  - rewrite Hfail in Hl by lia. done.
Qed.

Lemma appendsGroups_collectOuts (n : nat) (outs : list spendableOut) :
  appendsGroups [] (collectOuts n outs).
Proof.
  apply appendsGroups_same. intros s l Hl.
  by destruct (collectOuts_Val _ _ _ _ Hl).
Qed.

Create HintDb quiet3.

#[local] Hint Resolve quiet_ret quiet_index quiet_makeSpendableOutForTx
  quiet_makeSpendableOut quiet_createAdminTx quiet_createWspAdminTx
  quiet_getGen : quiet3.

Ltac groups_leaf :=
  first
    [ apply appendsGroups_liftG
    | apply appendsGroups_accepted
    | apply appendsGroups_acceptedWithAdminKeys
    | apply appendsGroups_acceptedWithWspKey
    | apply appendsGroups_sideChain
    | apply appendsGroups_quiet; solve [auto with quiet3] ].

(** The sizes of the groups the body of [Generate] appends to [tests]. *)
Lemma generateBody_groups (includeLargeReorg : bool) (s : genState) (u : unit) :
  outcome (generateBody includeLargeReorg s) = Val u ->
  exists groups,
    groupsOf (final (generateBody includeLargeReorg s)) = groupsOf s ++ groups /\
    map length groups =
      Z.to_nat (CoinbaseMaturity (params (gen s)))
      :: [1; 1; 1; 1; 1; 1; 1; 1; 1; 1; 2; 1; 2; 1; 2; 1]%nat /\
    exists first rest,
      groups = first :: rest /\
      Forall (fun t => exists name block height keySets keyIds,
                  t = AcceptedBlock name (Some block) height true false
                        keySets keyIds) first.
Proof.
  unfold generateBody.
  rewrite bind_quiet by apply quiet_getGen. cbn [outcome getGen].
  rewrite bind_quiet by apply quiet_makeSpendableOut.
  destruct (outcome (makeSpendableOut (tip (gen s)) 0 0 s)) as [rootOut|];
    [|done].
  rewrite bind_quiet by apply quiet_makeSpendableOut.
  destruct (outcome (makeSpendableOut (tip (gen s)) 0 1 s)) as [provisionOut|];
    [|done].
  rewrite bind_quiet by apply quiet_makeSpendableOut.
  destruct (outcome (makeSpendableOut (tip (gen s)) 0 2 s)) as [issueOut|];
    [|done].
  cbv zeta.
  set (n := Z.to_nat (CoinbaseMaturity (params (gen s)))).
  intros H.
  apply bind_outcome_Val in H as (testInstances & Hm & H & -> & _).
  destruct (matureBlocks_Val _ _ _ _ _ Hm)
    as ((new & Hnew & Hlen & Hall) & _ & _ & Ht).
  cbn [app] in Hnew. subst new.
  set (s1 := final (matureBlocks n 0 [] s)) in *.
  apply bind_outcome_Val in H as ([] & _ & H & -> & _).
  set (s2 := final (appendTests testInstances s1)) in *.
  assert (Hs2 : groupsOf s2 = groupsOf s ++ [testInstances]).
  { unfold groupsOf, s2. cbn. by rewrite Ht. }
  match type of H with
  | outcome (?m s2) = Val u =>
      assert (appendsGroups
                [1; 1; 1; 1; 1; 1; 1; 1; 1; 1; 2; 1; 2; 1; 2; 1]%nat m)
        as Hgroups
  end.
  { eapply appendsGroups_weaken.
    - eapply appendsGroups_bind;
        [apply appendsGroups_collectOuts | intros outs].
      repeat first
        [ apply appendsGroups_rejected
        | eapply appendsGroups_bind; [groups_leaf | intros ?; cbv zeta] ].
    - reflexivity. }
  destruct (Hgroups s2 u H) as (groups & Hg & Hsizes).
  exists (testInstances :: groups).
  rewrite Hg, Hs2, <- app_assoc. split; [done|]. split.
  - cbn [map]. by rewrite Hlen, Hsizes.
  - eauto.
Qed.

(** X25: when [Generate] returns without an error, it returns 17 groups
    of test instances: first one with as many instances as the coinbase
    maturity of the parameters, each expecting a block to be accepted on
    the main chain, then 16 groups of one instance, or of two where a
    block goes to a side chain (the groups of b11, b13 and b15). *)
Theorem Generate_group_sizes (includeLargeReorg : bool) :
  snd (Generate includeLargeReorg) = None ->
  exists first rest,
    fst (Generate includeLargeReorg) = Some (first :: rest) /\
    length first = Z.to_nat (CoinbaseMaturity RegressionNetParams) /\
    Forall (fun t => exists name block height keySets keyIds,
                t = AcceptedBlock name (Some block) height true false
                      keySets keyIds) first /\
    map length rest = [1; 1; 1; 1; 1; 1; 1; 1; 1; 1; 2; 1; 2; 1; 2; 1]%nat.
Proof.
  unfold Generate.
  destruct (outcome (generateBody includeLargeReorg _)) as [u|v] eqn:Hb;
    [|done].
  intros _. cbn [fst].
  destruct (generateBody_groups _ _ _ Hb)
    as (groups & Hg & Hsizes & first & rest & -> & Hall).
  destruct (generateBody_leavesTests _ _ _ Hb) as [l Hl].
  unfold groupsOf in Hg. rewrite Hl in Hg. cbn in Hg. subst l.
  exists first, rest. split; [done|].
  cbn [map] in Hsizes. injection Hsizes as Hfirst Hrest. done.
Qed.

(** ** What a run of Generate needs *)

Lemma returnsOnlyIf_bind_l {S A B} (P : Prop) (m : M S A) (k : A -> M S B) :
  returnsOnlyIf P m -> returnsOnlyIf P (bind m k).
Proof.
  intros Hm s b Hb. apply bind_outcome_Val in Hb as (a & Ha & _). eauto.
Qed.

Lemma returnsOnlyIf_bind_r {S A B} (P : Prop) (m : M S A) (k : A -> M S B) :
  (forall a, returnsOnlyIf P (k a)) -> returnsOnlyIf P (bind m k).
Proof.
  intros Hk s b Hb. apply bind_outcome_Val in Hb as (a & _ & Hkb & _).
  exact (Hk a _ _ Hkb).
Qed.

Lemma returnsOnlyIf_bind_post {S A B} (Q : A -> Prop) (P : Prop)
    (m : M S A) (k : A -> M S B) :
  (forall s a, outcome (m s) = Val a -> Q a) ->
  (forall a, Q a -> returnsOnlyIf P (k a)) ->
  returnsOnlyIf P (bind m k).
Proof.
  intros HQ Hk s b Hb. apply bind_outcome_Val in Hb as (a & Ha & Hkb & _).
  exact (Hk a (HQ _ _ Ha) _ _ Hkb).
Qed.

Lemma returnsOnlyIf_index {S A} (P : Prop) (l : list A) (i : Z) :
  ((Z.to_nat i < length l)%nat -> P) -> returnsOnlyIf (S := S) P (index l i).
Proof.
  intros HP s a. unfold index. destruct (i <? 0); [done|].
  destruct (l !! Z.to_nat i) eqn:Hi; [|done].
  intros _. apply HP. by apply lookup_lt_Some in Hi.
Qed.

(** The body of [Generate] returns only with a coinbase maturity of at
    least 10: it indexes the thirteenth collected output. *)
Lemma generateBody_maturity (includeLargeReorg : bool) (s : genState)
    (u : unit) :
  outcome (generateBody includeLargeReorg s) = Val u ->
  10 <= CoinbaseMaturity (params (gen s)).
Proof.
  unfold generateBody.
  rewrite bind_quiet by apply quiet_getGen. cbn [outcome getGen].
  rewrite bind_quiet by apply quiet_makeSpendableOut.
  destruct (outcome (makeSpendableOut (tip (gen s)) 0 0 s)) as [rootOut|];
    [|done].
  rewrite bind_quiet by apply quiet_makeSpendableOut.
  destruct (outcome (makeSpendableOut (tip (gen s)) 0 1 s)) as [provisionOut|];
    [|done].
  rewrite bind_quiet by apply quiet_makeSpendableOut.
  destruct (outcome (makeSpendableOut (tip (gen s)) 0 2 s)) as [issueOut|];
    [|done].
  cbv zeta.
  set (n := Z.to_nat (CoinbaseMaturity (params (gen s)))).
  assert (Hn : (10 <= n)%nat -> 10 <= CoinbaseMaturity (params (gen s)))
    by (unfold n; lia).
  revert u.
  match goal with
  | |- forall u, outcome (?m s) = Val u -> _ =>
      assert (returnsOnlyIf (10 <= CoinbaseMaturity (params (gen s))) m)
        as Hm; [|intros u; apply Hm]
  end.
  apply returnsOnlyIf_bind_r. intros testInstances.
  apply returnsOnlyIf_bind_r. intros _.
  apply (returnsOnlyIf_bind_post (fun outs => length outs = (3 + n)%nat)).
  { intros s0 outs Ho. apply collectOuts_Val in Ho as [Ho _]. exact Ho. }
  intros outs Hlen.
  repeat first
    [ apply returnsOnlyIf_bind_l; apply returnsOnlyIf_index;
      intros; apply Hn; lia
    | apply returnsOnlyIf_bind_r; intros ?; cbv zeta ].
Qed.

(** X26: [Generate] returns without an error only if the coinbase
    maturity of the parameters is at least 10: with 3 outputs of the
    genesis block and one per matured block it spends the collected
    output of index 12. *)
Theorem Generate_needs_maturity (includeLargeReorg : bool) :
  snd (Generate includeLargeReorg) = None ->
  10 <= CoinbaseMaturity RegressionNetParams.
Proof.
  unfold Generate.
  destruct (outcome (generateBody includeLargeReorg _)) as [u|v] eqn:Hb;
    [|done].
  intros _.
  exact (generateBody_maturity _ _ u Hb).
Qed.


End GenerateShapeFacts.

(* ===================================================================== *)
(** * More of both parts on concrete inputs                               *)
(* ===================================================================== *)

Section AnalysisExamples.
Import Wire Txscript TxscriptInfo Std StdInfo.

Lemma twoOfThree_distinct_keyIDs_witness :
  typeOfScript (E := env) (twoOfThree 1 2) = AztecTy /\
  typeOfScript (E := env) (twoOfThree 7 7) = NonStandardTy.
Proof.
  split.
  - apply (twoOfThree_distinct_keyIDs (E := env)
             (opOnly 82) (pushData (replicate 20 9))
             (pushData [1; 0; 0; 0]) (pushData [2; 0; 0; 0])
             (opOnly 83) (opOnly 186) 1 2);
      first [reflexivity | vm_compute; discriminate].
  - apply (twoOfThree_distinct_keyIDs (E := env)
             (opOnly 82) (pushData (replicate 20 9))
             (pushData [7; 0; 0; 0]) (pushData [7; 0; 0; 0])
             (opOnly 83) (opOnly 186) 7 7);
      first [reflexivity | vm_compute; discriminate].
Defined.

Lemma CalcMultiSigStats_general_witness :
  ParseScript (ScriptEnv := env) paddedScriptBytes = Some paddedScript /\
  isGeneralAztec (E := env) paddedScript = true /\
  exists numPubKeys numSigs,
    CalcMultiSigStats (E := env) paddedScriptBytes = Ok (numPubKeys, numSigs) /\
    numPubKeys = len paddedScript - 3 /\
    2 <= numSigs <= numPubKeys.
Proof.
  split; [vm_compute; reflexivity|]. split; [vm_compute; reflexivity|].
  apply (CalcMultiSigStats_general (E := env) paddedScriptBytes paddedScript);
    vm_compute; reflexivity.
Defined.

Lemma IsValidAdminOp_class_witness :
  IsValidAdminOp (E := env) (adminScript (adminPayload 3)) RootThread = true /\
  isAztecAdmin (E := env) (adminScript (adminPayload 3)) = false /\
  (typeOfScript (E := env) (adminScript (adminPayload 3)) = NullDataTy \/
   typeOfScript (E := env) (adminScript (adminPayload 3)) = NonStandardTy).
Proof.
  split; [vm_compute; reflexivity|].
  apply (IsValidAdminOp_class (E := env) (adminScript (adminPayload 3)) RootThread);
    first [vm_compute; reflexivity | vm_compute; discriminate].
Defined.

(** The analysis functions on the scripts of the examples. *)
Lemma analysis_examples :
  CalcScriptInfo (E := env) (I := infoEnv) [] (twoOfThreeBytes 1 2) true
    = Ok (mkScriptInfo AztecTy 0 4 1) /\
  CalcScriptInfo (E := env) (I := infoEnv) [186] (twoOfThreeBytes 1 2) false
    = Err ErrStackNonPushOnly /\
  CalcScriptInfo (E := env) (I := infoEnv) [] [4; 1] true = Err (ErrParse [4; 1]) /\
  CalcMultiSigStats (E := env) rootThreadScriptBytes = Err ErrStackUnderflow /\
  ExtractPkScriptAddrs (E := env) (I := infoEnv) (twoOfThreeBytes 1 2) tt
    = (AztecTy, [(replicate 20 9, [1; 2])], 2, None) /\
  ExtractPkScriptAddrs (E := env) (I := infoEnv) paddedScriptBytes tt
    = (GeneralAztecTy, [], 0, None) /\
  IsAztecTx (E := env)
    (mkMsgTx [] [mkTxOut 5 (twoOfThreeBytes 1 2); mkTxOut 0 returnDataBytes])
    = true /\
  IsAztecTx (E := env)
    (mkMsgTx [] [mkTxOut 5 (twoOfThreeBytes 1 2); mkTxOut 1 returnDataBytes])
    = false /\
  IsAztecTx (E := env) (mkMsgTx [] [mkTxOut 0 rootThreadScriptBytes]) = false /\
  IsAztecTx (E := env) (mkMsgTx [] []) = false.
Proof.
  repeat (split; [vm_compute; reflexivity|]). vm_compute; reflexivity.
Qed.

End AnalysisExamples.

Section GeneratorMoreExamples.
Import Wire Fullblocktests GenerateShape Std StdInfo.

(** A run that evaluates to a value returned that value. *)
Lemma outcome_isVal {A} (d : A) (o : Outcome A) :
  isVal o = true -> o = Val (valOr d o).
Proof. by destruct o. Qed.

Lemma solveBlock_complete_witness :
  1 <= 4 < 2 ^ 32 /\
  exists ok header',
    solveBlockWith (G := genv) 4 [0; 1; 2; 3]%nat someHeader
      = Some (ok, header') /\
    (ok = true <->
     exists n, 1 <= n <= 2 ^ 32 - 1 /\
       HashToBig (GenEnv := genv)
         (BlockHash (GenEnv := genv) (withNonce someHeader n))
       <= CompactToBig (GenEnv := genv) (Bits someHeader)) /\
    (ok = false -> header' = someHeader).
Proof.
  split; [lia|].
  apply (solveBlock_complete (G := genv) 4 [0; 1; 2; 3]%nat someHeader);
    [lia | reflexivity].
Defined.

Lemma setTip_round_trip_witness :
  built (G := genv) {[ "genesis" ]} genesisGenerator /\
  final (setTip (G := genv) (tipName genesisGenerator)
           (final (setTip (G := genv) "b99" genesisGenerator)))
  = genesisGenerator.
Proof.
  split; [apply built_genesis|].
  apply (setTip_round_trip (G := genv) {[ "genesis" ]} genesisGenerator).
  apply built_genesis.
Defined.

Lemma setTip_registered_witness :
  built (G := genv) {[ "genesis" ]} genesisGenerator /\
  ("genesis" ∈ ({[ "genesis" ]} : gset string)) /\
  exists block height,
    blocksByName genesisGenerator !! "genesis" = Some block /\
    blockHeights genesisGenerator !! "genesis" = Some height /\
    tip (final (setTip (G := genv) "genesis" genesisGenerator)) = Some block /\
    tipHeight (final (setTip (G := genv) "genesis" genesisGenerator)) = height.
Proof.
  split; [apply built_genesis|]. split; [set_solver|].
  apply (setTip_registered (G := genv) {[ "genesis" ]} genesisGenerator "genesis").
  - apply built_genesis.
  - set_solver.
Defined.

Lemma admin_tx_not_aztec_witness :
  Txscript.GetAdminDetails (E := env) (mkMsgTx [] [mkTxOut 0 rootThreadScriptBytes])
    = (0, Some []) /\
  TxscriptInfo.IsAztecTx (E := env) (mkMsgTx [] [mkTxOut 0 rootThreadScriptBytes])
    = false.
Proof.
  split; [vm_compute; reflexivity|].
  apply (admin_tx_not_aztec (E := env)
           (mkMsgTx [] [mkTxOut 0 rootThreadScriptBytes]) 0 []).
  vm_compute; reflexivity.
Defined.

Lemma nextBlock_unsolved_witness :
  outcome (nextBlock (G := genv) "b1" None [lowerBits (-1)] genesisGenerator)
  = Panic (PanicString "Unable to solve block at height 1") /\
  final (nextBlock (G := genv) "b1" None [lowerBits (-1)] genesisGenerator)
  = genesisGenerator.
Proof.
  eapply (nextBlock_unsolved (G := genv) "b1" None [lowerBits (-1)]
            genesisGenerator).
  - apply toyMerkles_nonempty.
  - vm_compute. discriminate.
  - vm_compute. reflexivity.
  - vm_compute. reflexivity.
  - intros hdr n Hb _. rewrite Hb.
    change (-1 < toyBlockHash (withNonce hdr n)).
    unfold toyBlockHash.
    pose proof (Z.mod_pos_bound
                  (Nonce (withNonce hdr n) * 1000003
                   + MerkleRoot (withNonce hdr n) + PrevBlock (withNonce hdr n))
                  65536 ltac:(lia)).
    lia.
Defined.

Lemma nextBlock_additionalTx_witness :
  exists block,
    outcome (nextBlock (G := genv) "b3" None
               (map additionalTx [genesisCoinbase; genesisCoinbase])
               genesisGenerator) = Val block /\
    length (Transactions block) = 3%nat.
Proof.
  eexists. split; [vm_compute; reflexivity|].
  destruct (nextBlock_additionalTx (G := genv) "b3" None
              [genesisCoinbase; genesisCoinbase] genesisGenerator _
              ltac:(vm_compute; reflexivity))
    as (draft & Hd & Htx & _).
  destruct (draftBlock_fields _ _ _ _ Hd) as (t & script & _ & _ & _ & Hdt).
  rewrite Htx, Hdt. reflexivity.
Defined.

Lemma nextBlock_sealed_witness :
  exists block,
    outcome (nextBlock (G := genv) "b1" None [bumpNonce 5] genesisGenerator)
      = Val block /\
    Nonce (Header block) = 5.
Proof.
  eexists. split; [vm_compute; reflexivity|].
  destruct (nextBlock_sealed (G := genv) "b1" None [bumpNonce 5]
              genesisGenerator _ ltac:(vm_compute; reflexivity))
    as (draft & Hd & _ & _ & _ & _ & Hn & _).
  destruct (draftBlock_Val _ _ _ _ Hd) as (_ & Hn0 & _).
  assert (Nonce (Header (munge [bumpNonce 5] draft)) = 5) as Hm
    by (cbn; by rewrite Hn0).
  rewrite Hn; [exact Hm | rewrite Hm; lia].
Defined.


Lemma matureBlocks_counts_witness :
  isVal (outcome (matureBlocks (G := genv) 2 0 [] startState)) = true /\
  length (valOr [] (outcome (matureBlocks (G := genv) 2 0 [] startState)))
    = 2%nat /\
  length (spendableOuts
            (gen (final (matureBlocks (G := genv) 2 0 [] startState))))
    = 2%nat.
Proof.
  assert (isVal (outcome (matureBlocks (G := genv) 2 0 [] startState)) = true)
    as Hv by (vm_compute; reflexivity).
  split; [exact Hv|].
  destruct (matureBlocks_counts (G := genv) 2 0 [] [] startState _
              (outcome_isVal [] _ Hv))
    as ((new & Hl & Hlen & _) & (saved & Hq & Hsl & _) & _).
  split.
  - rewrite Hl. exact Hlen.
  - rewrite Hq. exact Hsl.
Defined.

Lemma createAdminTx_shape_witness :
  exists tx,
    outcome (createAdminTx (G := genv) (S := unit)
               (mkSpendableOut (mkOutPoint 7 0) [0; 187] 0) 0 3 someKey tt)
      = Val tx /\
    length (TxOuts tx) = 2%nat.
Proof.
  eexists. split; [vm_compute; reflexivity|].
  destruct (createAdminTx_shape (G := genv) (S := unit)
              (mkSpendableOut (mkOutPoint 7 0) [0; 187] 0) 0 3 someKey tt _
              ltac:(vm_compute; reflexivity))
    as (ts & adm & payload & sig & _ & _ & _ & _ & _ & Houts & _).
  rewrite Houts. reflexivity.
Defined.

Lemma createWspAdminTx_shape_witness :
  exists tx,
    outcome (createWspAdminTx (G := genv) (S := unit)
               (mkSpendableOut (mkOutPoint 7 1) [81; 187] 0) 19 someKey keyId2 tt)
      = Val tx /\
    length (TxOuts tx) = 2%nat.
Proof.
  eexists. split; [vm_compute; reflexivity|].
  destruct (createWspAdminTx_shape (G := genv) (S := unit)
              (mkSpendableOut (mkOutPoint 7 1) [81; 187] 0) 19 someKey keyId2 tt _
              ltac:(vm_compute; reflexivity))
    as (ts & adm & payload & sig & _ & _ & _ & _ & _ & Houts).
  rewrite Houts. reflexivity.
Defined.

Lemma Generate_group_sizes_witness :
  snd (Generate (G := genv) false) = None /\
  exists first rest,
    fst (Generate (G := genv) false) = Some (first :: rest) /\
    length first = 100%nat /\
    map length rest = [1; 1; 1; 1; 1; 1; 1; 1; 1; 1; 2; 1; 2; 1; 2; 1]%nat.
Proof.
  assert (snd (Generate (G := genv) false) = None) as Hs
    by (vm_compute; reflexivity).
  split; [exact Hs|].
  destruct (Generate_group_sizes (G := genv) false Hs)
    as (first & rest & Hg & Hlen & _ & Hrest).
  exists first, rest. split; [exact Hg|]. split; [exact Hlen | exact Hrest].
Defined.

Lemma Generate_needs_maturity_witness :
  snd (Generate (G := genv) false) = None /\
  10 <= CoinbaseMaturity (RegressionNetParams (GenEnv := genv)).
Proof.
  assert (snd (Generate (G := genv) false) = None) as Hs
    by (vm_compute; reflexivity).
  split; [exact Hs|].
  exact (Generate_needs_maturity (G := genv) false Hs).
Defined.

End GeneratorMoreExamples.
